(** * Checksum tools of TTSDemo: gen_sha256.py, generate_manifest.py,
      generate_sha256.py

    A shallow embedding of the three scripts under
    [app/src/main/assets] and of the parts of the Python runtime they
    call, followed by the properties of their functional contract.

    Conventions.
    - File contents are [list byte].
    - A Python [str] is a [string]: the bytes of its file-system
      encoding, UTF-8 with the error handler [surrogateescape], so that
      every file name and every command-line argument has its [str].  A
      [str] can be encoded as text exactly when these bytes are
      well-formed UTF-8 ([Str.well_formed]).  Concatenation, [replace] of
      ASCII characters, [endswith] and splitting at ["/"] commute with
      the encoding, and so does the ordering of well-formed texts.
    - The interpreter runs in UTF-8 mode: files opened for text are
      encoded in UTF-8, strictly; standard output passes the bytes of a
      [str] through and standard error escapes what it cannot encode, so
      that [print] does not fail.
    - An exception that escapes a function is a value [Raise e]. *)

From Stdlib Require Import List String Ascii NArith ZArith Bool Arith Lia.
From Stdlib Require Import DecimalString.
From Stdlib.Strings Require Import Byte.
From Stdlib Require Import Permutation Sorted.
Import ListNotations.

Set Implicit Arguments.
Set Warnings "-abstract-large-number".

(* ================================================================== *)
(** ** hashlib.sha256 *)
(* ================================================================== *)

(** SHA-256 after FIPS 180-4.  Words are [N] below [2^32]. *)
Module SHA256.
Local Open Scope N_scope.

Definition wrap (x : N) : N := x mod 2 ^ 32.
Definition plus32 (x y : N) : N := wrap (x + y).

Definition rotr (n x : N) : N :=
  N.lor (N.shiftr x n) (wrap (N.shiftl x (32 - n))).
Definition shr (n x : N) : N := N.shiftr x n.
Definition not32 (x : N) : N := N.lxor x (N.ones 32).

Definition Ch (x y z : N) : N := N.lxor (N.land x y) (N.land (not32 x) z).
Definition Maj (x y z : N) : N :=
  N.lxor (N.lxor (N.land x y) (N.land x z)) (N.land y z).
Definition bsig0 (x : N) : N := N.lxor (N.lxor (rotr 2 x) (rotr 13 x)) (rotr 22 x).
Definition bsig1 (x : N) : N := N.lxor (N.lxor (rotr 6 x) (rotr 11 x)) (rotr 25 x).
Definition ssig0 (x : N) : N := N.lxor (N.lxor (rotr 7 x) (rotr 18 x)) (shr 3 x).
Definition ssig1 (x : N) : N := N.lxor (N.lxor (rotr 17 x) (rotr 19 x)) (shr 10 x).

(** The constants are defined the way the standard defines them: the
    first 32 bits of the fractional parts of the square roots (initial
    hash value) and cube roots (round constants) of the first primes. *)
Definition is_prime (p : N) : bool :=
  (2 <=? p) &&
  forallb (fun d => negb (p mod (N.of_nat d) =? 0)) (seq 2 (N.to_nat p - 2)).

Definition first_primes (k : nat) : list N :=
  firstn k (filter is_prime (map N.of_nat (seq 0 320))).

(** Integer cube root by binary digits, most significant first. *)
Fixpoint cbrt_bits (bits : nat) (x acc : N) : N :=
  match bits with
  | O => acc
  | S b =>
      let c := acc + 2 ^ N.of_nat b in
      if c * c * c <=? x then cbrt_bits b x c else cbrt_bits b x acc
  end.
Definition cbrt (x : N) : N := cbrt_bits 40 x 0.

Definition H_init : list N :=
  Eval vm_compute in map (fun p => wrap (N.sqrt (p * 2 ^ 64))) (first_primes 8).
Definition K : list N :=
  Eval vm_compute in map (fun p => wrap (cbrt (p * 2 ^ 96))) (first_primes 64).

(** Padding (section 5.1.1): a [1] bit, zero bits up to 448 modulo
    512, then the bit length as a 64-bit big-endian number. *)
Fixpoint be_bytes (width : nat) (x : N) : list N :=
  match width with
  | O => []
  | S w => (x / 2 ^ (8 * N.of_nat w)) mod 256 :: be_bytes w x
  end.

Definition pad (msg : list N) : list N :=
  let len := List.length msg in
  let zeros := ((64 - (len + 9) mod 64) mod 64)%nat in
  msg ++ [128] ++ repeat 0 zeros ++ be_bytes 8 (8 * N.of_nat len).

Fixpoint be_words (fuel : nat) (bs : list N) : list N :=
  match fuel, bs with
  | S k, b0 :: b1 :: b2 :: b3 :: rest =>
      (((b0 * 256 + b1) * 256 + b2) * 256 + b3) :: be_words k rest
  | _, _ => []
  end.

(** Message schedule (section 6.2.2, step 1). *)
Fixpoint extend (n : nat) (w : list N) : list N :=
  match n with
  | O => w
  | S k =>
      let t := List.length w in
      let x := plus32 (plus32 (ssig1 (nth (t - 2) w 0)) (nth (t - 7) w 0))
                      (plus32 (ssig0 (nth (t - 15) w 0)) (nth (t - 16) w 0)) in
      extend k (w ++ [x])
  end.
Definition schedule (block : list N) : list N := extend 48 (be_words 16 block).

Record regs := Regs { ra : N; rb : N; rc : N; rd : N; re : N; rf : N; rg : N; rh : N }.

Definition round (s : regs) (kw : N * N) : regs :=
  let t1 := plus32 (plus32 (plus32 (rh s) (bsig1 (re s))) (Ch (re s) (rf s) (rg s)))
                   (plus32 (fst kw) (snd kw)) in
  let t2 := plus32 (bsig0 (ra s)) (Maj (ra s) (rb s) (rc s)) in
  Regs (plus32 t1 t2) (ra s) (rb s) (rc s) (plus32 (rd s) t1) (re s) (rf s) (rg s).

Definition regs_of (h : list N) : regs :=
  Regs (nth 0 h 0) (nth 1 h 0) (nth 2 h 0) (nth 3 h 0)
       (nth 4 h 0) (nth 5 h 0) (nth 6 h 0) (nth 7 h 0).
Definition of_regs (s : regs) : list N :=
  [ra s; rb s; rc s; rd s; re s; rf s; rg s; rh s].

Definition compress (h : list N) (block : list N) : list N :=
  let s := fold_left round (combine K (schedule block)) (regs_of h) in
  map (fun p => plus32 (fst p) (snd p)) (combine h (of_regs s)).

Fixpoint blocks (fuel : nat) (bs : list N) : list (list N) :=
  match fuel with
  | O => []
  | S k =>
      match bs with
      | [] => []
      | _ => firstn 64 bs :: blocks k (skipn 64 bs)
      end
  end.

Definition digest_words (msg : list byte) : list N :=
  let padded := pad (map Byte.to_N msg) in
  fold_left compress (blocks (List.length padded) padded) H_init.

Definition digest (msg : list byte) : list N :=
  flat_map (be_bytes 4) (digest_words msg).

Definition hex_digit (d : N) : ascii :=
  ascii_of_N (if d <? 10 then 48 + d else 87 + d).

Fixpoint hex (bs : list N) : string :=
  match bs with
  | [] => EmptyString
  | b :: rest => String (hex_digit (b / 16)) (String (hex_digit (b mod 16)) (hex rest))
  end.

(** [hashlib.sha256(data).hexdigest()] *)
Definition hexdigest (msg : list byte) : string := hex (digest msg).
End SHA256.

Definition bytes_of (s : string) : list byte := list_byte_of_string s.

(** The [hashlib] object: [update] feeds bytes, [hexdigest] is the
    digest of everything fed so far (the library's contract: repeated
    calls of [update] are equivalent to one call with the concatenation). *)
Module hashlib.
Record sha256_obj := Hasher { fed : list byte }.
Definition sha256 : sha256_obj := Hasher [].
Definition update (h : sha256_obj) (chunk : list byte) : sha256_obj :=
  Hasher (fed h ++ chunk).
Definition hexdigest (h : sha256_obj) : string := SHA256.hexdigest (fed h).
End hashlib.

(* ================================================================== *)
(** ** Exceptions *)
(* ================================================================== *)

Inductive exn :=
| OSError        (* IOError is the same class; FileNotFoundError,
                    PermissionError, IsADirectoryError are subclasses *)
| BadZipFile
| ValueError
| UnicodeEncodeError   (* a subclass of ValueError; no handler of the
                          scripts names either *)
| OtherError.

Inductive result (A : Type) :=
| Ok (a : A)
| Raise (e : exn).
Arguments Ok {A} a.
Arguments Raise {A} e.

Definition bind {A B} (r : result A) (k : A -> result B) : result B :=
  match r with
  | Ok a => k a
  | Raise e => Raise e
  end.

Notation "x <- r ;; k" := (bind r (fun x => k))
  (at level 61, r at next level, right associativity).

(** A [for] loop whose body may raise: the first exception leaves the loop. *)
Fixpoint for_each {A S} (xs : list A) (body : S -> A -> result S) (s : S) : result S :=
  match xs with
  | [] => Ok s
  | x :: rest => s' <- body s x ;; for_each rest body s'
  end.

(* ================================================================== *)
(** ** str *)
(* ================================================================== *)

Module Str.
Local Open Scope string_scope.

Definition chr (n : nat) : string := String (ascii_of_nat n) EmptyString.
Definition quote : string := chr 34.
Definition newline : string := chr 10.
Definition backslash : ascii := ascii_of_nat 92.
Definition slash : ascii := "/".
Definition nul : ascii := ascii_of_nat 0.

(** [s.replace(a, b)] for one-character [a] and [b]. *)
Fixpoint replace (a b : ascii) (s : string) : string :=
  match s with
  | EmptyString => EmptyString
  | String c r => String (if Ascii.eqb c a then b else c) (replace a b r)
  end.

(** [s.endswith(suffix)] *)
Fixpoint endswith (s suffix : string) : bool :=
  (s =? suffix) ||
  match s with
  | EmptyString => false
  | String _ r => endswith r suffix
  end.

(** [s.startswith(p)] *)
Definition startswith (s p : string) : bool := String.prefix p s.

(** [s.split(sep)] for a one-character separator: never empty. *)
Fixpoint split (sep : ascii) (s : string) : list string :=
  match s with
  | EmptyString => [EmptyString]
  | String c r =>
      if Ascii.eqb c sep then EmptyString :: split sep r
      else match split sep r with
           | [] => [String c EmptyString]
           | x :: xs => String c x :: xs
           end
  end.

Fixpoint contains (c : ascii) (s : string) : bool :=
  match s with
  | EmptyString => false
  | String d r => Ascii.eqb d c || contains c r
  end.

(** Whether the bytes are well-formed UTF-8 (The Unicode Standard,
    table 3-7): whether the [str] holds no escaped byte and
    [s.encode("utf-8")] succeeds. *)
Definition in_range (lo hi : N) (c : ascii) : bool :=
  ((lo <=? N_of_ascii c) && (N_of_ascii c <=? hi))%N.

Definition second_of_three (lead : N) (c : ascii) : bool :=
  if (lead =? 224)%N then in_range 160 191 c
  else if (lead =? 237)%N then in_range 128 159 c
  else in_range 128 191 c.

Definition second_of_four (lead : N) (c : ascii) : bool :=
  if (lead =? 240)%N then in_range 144 191 c
  else if (lead =? 244)%N then in_range 128 143 c
  else in_range 128 191 c.

Fixpoint well_formed (s : string) : bool :=
  match s with
  | EmptyString => true
  | String b0 r0 =>
      let lead := N_of_ascii b0 in
      if (lead <? 128)%N then well_formed r0
      else
        match r0 with
        | String b1 r1 =>
            if in_range 194 223 b0 then in_range 128 191 b1 && well_formed r1
            else
              match r1 with
              | String b2 r2 =>
                  if in_range 224 239 b0
                  then second_of_three lead b1 && in_range 128 191 b2 && well_formed r2
                  else
                    match r2 with
                    | String b3 r3 =>
                        in_range 240 244 b0 && second_of_four lead b1
                        && in_range 128 191 b2 && in_range 128 191 b3 && well_formed r3
                    | EmptyString => false
                    end
              | EmptyString => false
              end
        | EmptyString => false
        end
  end.

(** [sorted(names)]: Python compares [str] by code points, which for
    well-formed texts (the names of zip members, the only strings the
    scripts sort, are such) is the byte-wise order of the UTF-8
    encodings.  The sort is stable; on a total order whose equal
    elements are identical the result is the unique sorted arrangement,
    produced here by insertion. *)
Fixpoint insert (x : string) (l : list string) : list string :=
  match l with
  | [] => [x]
  | y :: r => if String.leb x y then x :: l else y :: insert x r
  end.
Definition sorted (l : list string) : list string := fold_right insert [] l.
End Str.

(* ================================================================== *)
(** ** os.path (posixpath) *)
(* ================================================================== *)

Module posixpath.
Local Open Scope string_scope.

(** [os.path.join(a, b)] *)
Definition join (a b : string) : string :=
  if Str.startswith b "/" then b
  else if (a =? "") || Str.endswith a "/" then a ++ b
  else a ++ "/" ++ b.

(** [os.path.basename(p)]: what follows the last ["/"]. *)
Definition basename (p : string) : string := last (Str.split Str.slash p) "".

(** One turn of the loop of [normpath] over the components of an
    absolute path: empty and ["."] components are skipped, [".."] drops
    the last component kept (and is itself dropped at the root). *)
Definition norm_step (acc : list string) (comp : string) : list string :=
  if (comp =? "") || (comp =? ".") then acc
  else if comp =? ".." then removelast acc
  else acc ++ [comp].

(** [[x for x in abspath(p).split("/") if x]], the working directory
    given by its components. *)
Definition abs_comps (cwd : list string) (p : string) : list string :=
  fold_left norm_step (Str.split Str.slash p)
            (if Str.startswith p "/" then [] else cwd).

(** [os.path.abspath(p)]: [normpath(join(getcwd(), p))].  A path that
    starts with exactly two slashes keeps both. *)
Definition abspath (cwd : list string) (p : string) : string :=
  (if Str.startswith p "//" && negb (Str.startswith p "///") then "//" else "/")
  ++ String.concat "/" (abs_comps cwd p).

Fixpoint common_prefix_len (a b : list string) : nat :=
  match a, b with
  | x :: a', y :: b' => if x =? y then S (common_prefix_len a' b') else 0
  | _, _ => 0
  end.

(** [os.path.relpath(path, start)] for a non-empty [path]. *)
Definition relpath (cwd : list string) (path start : string) : string :=
  let start_list := abs_comps cwd start in
  let path_list := abs_comps cwd path in
  let i := common_prefix_len start_list path_list in
  let rel_list := (repeat ".." (List.length start_list - i) ++ skipn i path_list)%list in
  match rel_list with
  | [] => "."
  | _ => String.concat "/" rel_list
  end.

(** [os.path.splitext(p)[0]]: the extension starts at the last dot of
    the last component, unless only dots precede it there. *)
Fixpoint all_dots (s : string) : bool :=
  match s with
  | EmptyString => true
  | String c r => Ascii.eqb c "." && all_dots r
  end.

Definition splitext_root (p : string) : string :=
  let name := basename p in
  let dir := substring 0 (String.length p - String.length name) p in
  match rev (Str.split "." name) with
  | _ext :: (_ :: _) as stem_rev =>
      let stem := String.concat "." (rev stem_rev) in
      if all_dots stem then p else dir ++ stem
  | _ => p
  end.
End posixpath.

(* ================================================================== *)
(** ** dict and json *)
(* ================================================================== *)

(** A [dict] from [str] to [str] keeps its keys in insertion order;
    assigning to a key that is present replaces the value in place. *)
Module Dict.
Definition t := list (string * string).

Fixpoint set (d : t) (k v : string) : t :=
  match d with
  | [] => [(k, v)]
  | (k', v') :: r => if (k' =? k)%string then (k', v) :: r else (k', v') :: set r k v
  end.

Fixpoint get (d : t) (k : string) : option string :=
  match d with
  | [] => None
  | (k', v') :: r => if (k' =? k)%string then Some v' else get r k
  end.

Definition keys (d : t) : list string := map fst d.
End Dict.

Module json.
Local Open Scope string_scope.

Definition hex4 (n : N) : string :=
  SHA256.hex [(n / 256) mod 256; n mod 256]%N.

(** The escapes shared by both encoders. *)
Definition short_escape (cp : N) : option string :=
  if (cp =? 34)%N then Some (String Str.backslash Str.quote)
  else if (cp =? 92)%N then Some (String Str.backslash (String Str.backslash ""))
  else if (cp =? 10)%N then Some (String Str.backslash "n")
  else if (cp =? 13)%N then Some (String Str.backslash "r")
  else if (cp =? 9)%N then Some (String Str.backslash "t")
  else if (cp =? 8)%N then Some (String Str.backslash "b")
  else if (cp =? 12)%N then Some (String Str.backslash "f")
  else None.

Definition u_escape (n : N) : string := String Str.backslash ("u" ++ hex4 n).

(** [ensure_ascii=False]: only quotes, backslashes and control
    characters are escaped; every other byte of the UTF-8 text stays. *)
Fixpoint escape (s : string) : string :=
  match s with
  | EmptyString => EmptyString
  | String c r =>
      let cp := N_of_ascii c in
      match short_escape cp with
      | Some e => e ++ escape r
      | None => if (cp <? 32)%N then u_escape cp ++ escape r else String c (escape r)
      end
  end.

(** The code points of a UTF-8 text (a byte that starts no well-formed
    sequence, which no [str] produces, is passed through). *)
Definition cont (c : ascii) : N := (N_of_ascii c mod 64)%N.

Fixpoint code_points (s : string) : list N :=
  match s with
  | EmptyString => []
  | String c0 r0 =>
      let b0 := N_of_ascii c0 in
      if (b0 <? 192)%N then b0 :: code_points r0
      else
        match r0 with
        | String c1 r1 =>
            if (b0 <? 224)%N then ((b0 mod 32) * 64 + cont c1)%N :: code_points r1
            else
              match r1 with
              | String c2 r2 =>
                  if (b0 <? 240)%N
                  then (((b0 mod 16) * 64 + cont c1) * 64 + cont c2)%N :: code_points r2
                  else
                    match r2 with
                    | String c3 r3 =>
                        ((((b0 mod 8) * 64 + cont c1) * 64 + cont c2) * 64 + cont c3)%N
                          :: code_points r3
                    | EmptyString => b0 :: code_points r0
                    end
              | EmptyString => b0 :: code_points r0
              end
        | EmptyString => [b0]
        end
  end.

(** [ensure_ascii=True] (the default): everything outside the
    printable ASCII range becomes a [\uXXXX] escape, a surrogate pair
    above the basic plane. *)
Definition escape_cp_ascii (cp : N) : string :=
  match short_escape cp with
  | Some e => e
  | None =>
      if ((32 <=? cp) && (cp <=? 126))%N then String (ascii_of_N cp) ""
      else if (cp <? 65536)%N then u_escape cp
      else
        let n := (cp - 65536)%N in
        u_escape (55296 + (n / 1024) mod 1024)%N ++ u_escape (56320 + n mod 1024)%N
  end.

Definition escape_ascii (s : string) : string :=
  String.concat "" (map escape_cp_ascii (code_points s)).

Definition encode_str (ensure_ascii : bool) (s : string) : string :=
  Str.quote ++ (if ensure_ascii then escape_ascii s else escape s) ++ Str.quote.

(** [sorted(d.items())]: the keys of a [dict] are distinct, so the
    pairs are ordered by key. *)
Fixpoint insert_item (x : string * string) (l : Dict.t) : Dict.t :=
  match l with
  | [] => [x]
  | y :: r => if String.leb (fst x) (fst y) then x :: l else y :: insert_item x r
  end.
Definition sort_items (d : Dict.t) : Dict.t := fold_right insert_item [] d.

Definition items (sort_keys : bool) (d : Dict.t) : Dict.t :=
  if sort_keys then sort_items d else d.

Definition member (ensure_ascii : bool) (kv : string * string) : string :=
  "  " ++ encode_str ensure_ascii (fst kv) ++ ": " ++ encode_str ensure_ascii (snd kv).

(** [json.dumps(d, indent=2, ensure_ascii=..., sort_keys=...)] *)
Definition dumps (ensure_ascii sort_keys : bool) (d : Dict.t) : string :=
  match items sort_keys d with
  | [] => "{}"
  | its =>
      "{" ++ Str.newline
      ++ String.concat ("," ++ Str.newline) (map (member ensure_ascii) its)
      ++ Str.newline ++ "}"
  end.
End json.

(* ================================================================== *)
(** ** The file system *)
(* ================================================================== *)

(** A POSIX tree of regular files and directories, without links.  A
    regular file can or cannot be read and written.  A directory is
    [accessible] when its mode lets the process list and search it
    (r-x) and not accessible when it lets it do neither (---): what lies
    below a directory that is not accessible cannot be reached.  A
    directory lists its entries in the order in which [scandir] yields
    them.  Paths are resolved one component at a time from the root or
    the working directory. *)
Module FS.
Local Open Scope string_scope.

Local Unset Elimination Schemes.
Inductive node :=
| File (readable writable : bool) (content : list byte)
| Dir (accessible dwritable : bool) (entries : list (string * node)).
Local Set Elimination Schemes.

(** Induction over a tree: the property holds of a directory when it
    holds of everything the directory lists. *)
Section node_induction.
Variable P : node -> Prop.
Hypothesis P_file : forall r w c, P (File r w c).
Hypothesis P_dir : forall a w es, Forall (fun e => P (snd e)) es -> P (Dir a w es).

Fixpoint node_ind (n : node) : P n :=
  match n with
  | File r w c => P_file r w c
  | Dir a w es =>
      P_dir a w
        ((fix all (l : list (string * node)) : Forall (fun e => P (snd e)) l :=
            match l with
            | [] => Forall_nil _
            | e :: r => Forall_cons e (node_ind (snd e)) (all r)
            end) es)
  end.
End node_induction.

Definition is_dir (n : node) : bool :=
  match n with
  | Dir _ _ _ => true
  | File _ _ _ => false
  end.

Fixpoint find_entry (name : string) (es : list (string * node)) : option node :=
  match es with
  | [] => None
  | (n, x) :: r => if n =? name then Some x else find_entry name r
  end.

(** What the names [p] lead to from [n]: every directory in which a
    name is looked up must be accessible. *)
Fixpoint lookup (n : node) (p : list string) : option node :=
  match p with
  | [] => Some n
  | c :: rest =>
      match n with
      | Dir true _ es =>
          match find_entry c es with
          | Some x => lookup x rest
          | None => None
          end
      | _ => None
      end
  end.

(** Resolution of the components of a path string.  Each component is
    taken in a directory; an empty component (a doubled or trailing
    slash) looks nothing up, every other one needs the directory to be
    accessible. *)
Fixpoint walk_path (fs : node) (cur : list string) (comps : list string)
  : option (list string) :=
  match comps with
  | [] => Some cur
  | c :: rest =>
      match lookup fs cur with
      | Some (Dir a _ _) =>
          if (c =? "") || a then walk_path fs (posixpath.norm_step cur c) rest else None
      | _ => None
      end
  end.

(** A path with a NUL character is no path: the system calls are not
    made, Python raises [ValueError]. *)
Definition has_nul (p : string) : bool := Str.contains Str.nul p.

Definition locate (fs : node) (cwd : list string) (p : string) : option (list string) :=
  if (p =? "") || has_nul p then None
  else walk_path fs (if Str.startswith p "/" then [] else cwd) (Str.split Str.slash p).

(** [os.stat(p)], where it succeeds.  [os.path.exists], [isdir] and
    [isfile] are false where it fails or raises. *)
Definition stat (fs : node) (cwd : list string) (p : string) : option node :=
  match locate fs cwd p with
  | Some comps => lookup fs comps
  | None => None
  end.

Definition exists_ (fs : node) (cwd : list string) (p : string) : bool :=
  match stat fs cwd p with
  | Some _ => true
  | None => false
  end.

Definition isdir (fs : node) (cwd : list string) (p : string) : bool :=
  match stat fs cwd p with
  | Some (Dir _ _ _) => true
  | _ => false
  end.

Definition isfile (fs : node) (cwd : list string) (p : string) : bool :=
  match stat fs cwd p with
  | Some (File _ _ _) => true
  | _ => false
  end.

(** [os.listdir(p)] *)
Definition listdir (fs : node) (cwd : list string) (p : string) : result (list string) :=
  if has_nul p then Raise ValueError
  else match stat fs cwd p with
       | Some (Dir true _ es) => Ok (map fst es)
       | _ => Raise OSError
       end.

(** [open(p, "rb")] followed by reading: the whole content. *)
Definition open_rb (fs : node) (cwd : list string) (p : string) : result (list byte) :=
  if has_nul p then Raise ValueError
  else match stat fs cwd p with
       | Some (File true _ content) => Ok content
       | _ => Raise OSError
       end.

Fixpoint replace_entry (name : string) (x : node) (es : list (string * node))
  : list (string * node) :=
  match es with
  | [] => []
  | (n, y) :: r => if n =? name then (n, x) :: r else (n, y) :: replace_entry name x r
  end.

(** Creating or truncating the regular file at [p] and storing
    [content]: the directories on the way must be accessible, an
    existing file must be writable, a new one needs a writable
    directory, a directory cannot be opened for writing. *)
Fixpoint put (n : node) (p : list string) (content : list byte) : option node :=
  match p with
  | [] =>
      match n with
      | File r true _ => Some (File r true content)
      | _ => None
      end
  | name :: rest =>
      match n with
      | Dir true w es =>
          match find_entry name es with
          | Some sub =>
              match put sub rest content with
              | Some sub' => Some (Dir true w (replace_entry name sub' es))
              | None => None
              end
          | None =>
              match rest with
              | [] => if w then Some (Dir true w (es ++ [(name, File true true content)])%list)
                      else None
              | _ => None
              end
          end
      | _ => None
      end
  end.

(** [with open(p, "w", ...) as f: f.write(text)].  Opening truncates or
    creates the file, or raises and leaves everything as it was.  Writing
    a text that cannot be encoded raises [UnicodeEncodeError] and leaves
    the file empty. *)
Inductive written :=
| NotOpened (e : exn)
| Truncated (fs' : node) (e : exn)
| Written (fs' : node).

Definition write_text (fs : node) (cwd : list string) (p : string) (text : string)
  : written :=
  if has_nul p then NotOpened ValueError
  else
    match locate fs cwd p with
    | Some comps =>
        if Str.well_formed text
        then match put fs comps (bytes_of text) with
             | Some fs' => Written fs'
             | None => NotOpened OSError
             end
        else match put fs comps [] with
             | Some fs' => Truncated fs' UnicodeEncodeError
             | None => NotOpened OSError
             end
    | None => NotOpened OSError
    end.

Definition dirnames (es : list (string * node)) : list string :=
  map fst (filter (fun e => is_dir (snd e)) es).
Definition filenames (es : list (string * node)) : list string :=
  map fst (filter (fun e => negb (is_dir (snd e))) es).

(** [os.walk(top)], top-down: the triple of a directory, then the
    walks of its subdirectories in listing order, each under
    [join(top, name)].  A directory that cannot be listed yields
    nothing: the error of [scandir] is swallowed. *)
Fixpoint walk_tree (top : string) (n : node) : list (string * list string * list string) :=
  match n with
  | File _ _ _ => []
  | Dir a _ es =>
      if a
      then (top, dirnames es, filenames es)
             :: flat_map (fun '(name, sub) => walk_tree (posixpath.join top name) sub) es
      else []
  end.

(** A [top] that is missing or is no directory yields nothing, for the
    same reason; a [top] with a NUL character makes [scandir] raise
    [ValueError], which [os.walk] does not catch. *)
Definition walk (fs : node) (cwd : list string) (top : string)
  : result (list (string * list string * list string)) :=
  if has_nul top then Raise ValueError
  else Ok match stat fs cwd top with
          | Some n => walk_tree top n
          | None => []
          end.

(** Names a directory can hold. *)
Definition name_ok (s : string) : bool :=
  negb (s =? "") && negb (s =? ".") && negb (s =? "..") && negb (Str.contains Str.slash s)
  && negb (Str.contains Str.nul s).

Fixpoint distinct (l : list string) : bool :=
  match l with
  | [] => true
  | x :: r => negb (existsb (String.eqb x) r) && distinct r
  end.

(** Well-formed trees: in every directory the names are proper and
    pairwise distinct. *)
Fixpoint wf (n : node) : bool :=
  match n with
  | File _ _ _ => true
  | Dir _ _ es =>
      forallb name_ok (map fst es) && distinct (map fst es)
      && forallb (fun '(_, sub) => wf sub) es
  end.

(** The regular files the walk of a node finds, in the order of the
    walk, each with the names that lead to it. *)
Fixpoint files_under (n : node) : list (list string * node) :=
  match n with
  | File _ _ _ => []
  | Dir a _ es =>
      if a
      then (map (fun e => ([fst e], snd e)) (filter (fun e => negb (is_dir (snd e))) es)
            ++ flat_map (fun '(name, sub) =>
                           map (fun '(p, f) => (name :: p, f)) (files_under sub)) es)%list
      else []
  end.
End FS.

(* ================================================================== *)
(** ** Binary file objects and the console *)
(* ================================================================== *)

Module io.
(** A file opened with ["rb"]: the content and the read position. *)
Record file_obj := FileObj { data : list byte; pos : nat }.

(** [f.read(n)] *)
Definition read (f : file_obj) (n : nat) : list byte * file_obj :=
  let chunk := firstn n (skipn (pos f) (data f)) in
  (chunk, FileObj (data f) (pos f + List.length chunk)).

(** [for chunk in iter(lambda: f.read(size), b""): sha.update(chunk)].
    [None] stands for a loop that has not ended within [fuel] turns. *)
Fixpoint read_loop (size fuel : nat) (f : file_obj) (sha : hashlib.sha256_obj)
  : option hashlib.sha256_obj :=
  match fuel with
  | O => None
  | S k =>
      let (chunk, f') := read f size in
      match chunk with
      | [] => Some sha
      | _ => read_loop size k f' (hashlib.update sha chunk)
      end
  end.
End io.

(** What a stream shows: a text, a text that ends with [str(e)] for an
    exception [e] (the wording is the platform's), or the report of an
    exception nobody caught. *)
Inductive line :=
| Text (s : string)
| TextExn (s : string) (e : exn)
| Traceback (e : exn).

(** What a run of one of the two single-pass tools leaves behind. *)
Record outcome := Outcome {
  stdout : list line;                      (* one element for each [print] *)
  stderr : list line;
  files_written : list (string * string);  (* path and text *)
  exit_code : nat
}.

(* ================================================================== *)
(** ** gen_sha256.py (DirectoryDigestMapper) *)
(* ================================================================== *)

Module gen_sha256.
Local Open Scope string_scope.

(** The loop ends within [S (length content)] turns ([read_loop_ends]
    below), so the last branch is never taken. *)
Definition sha256_file (fs : FS.node) (cwd : list string) (path : string) : result string :=
  content <- FS.open_rb fs cwd path ;;
  match io.read_loop 8192 (S (List.length content)) (io.FileObj content 0) hashlib.sha256 with
  | Some sha => Ok (hashlib.hexdigest sha)
  | None => Raise OtherError
  end.

Definition generate_sha256_map (fs : FS.node) (cwd : list string) (root_dir : string)
  : result Dict.t :=
  let root_dir := posixpath.abspath cwd root_dir in
  triples <- FS.walk fs cwd root_dir ;;
  for_each triples
    (fun result '(base, _dirs, files) =>
       for_each files
         (fun result name =>
            let file_path := posixpath.join base name in
            let relative_path :=
              Str.replace Str.backslash Str.slash
                          (posixpath.relpath cwd file_path root_dir) in
            digest <- sha256_file fs cwd file_path ;;
            Ok (Dict.set result relative_path digest))
         result)
    [].

Definition usage : string := "Usage: python gen_sha256.py <directory>".
Definition saved : string := Str.newline ++ "Saved to sha256.json".

(** The script body; [argv] is [sys.argv].  The mapping is printed,
    then [sha256.json] is opened in the working directory and the same
    text written; nothing guards either step. *)
Definition main (fs : FS.node) (cwd : list string) (argv : list string) : outcome :=
  match argv with
  | _ :: directory :: _ =>
      match generate_sha256_map fs cwd directory with
      | Ok sha_map =>
          let json_output := json.dumps false false sha_map in
          match FS.write_text fs cwd "sha256.json" json_output with
          | FS.Written _ =>
              Outcome [Text json_output; Text saved] [] [("sha256.json", json_output)] 0
          | FS.Truncated _ e =>
              Outcome [Text json_output] [Traceback e] [("sha256.json", "")] 1
          | FS.NotOpened e => Outcome [Text json_output] [Traceback e] [] 1
          end
      | Raise e => Outcome [] [Traceback e] [] 1
      end
  | _ => Outcome [Text usage] [] [] 1
  end.
End gen_sha256.

(* ================================================================== *)
(** ** generate_manifest.py (ArchiveManifestGenerator) *)
(* ================================================================== *)

Module generate_manifest.
Local Open Scope string_scope.

(** A member of a zip archive: its name and what reading it gives (the
    decompressed content, or the exception of a damaged or unsupported
    member). *)
Record zip_info := ZipInfo { filename : string; payload : result (list byte) }.

(** [ZipInfo.is_dir()] *)
Definition is_dir (i : zip_info) : bool := Str.endswith (filename i) "/".

(** What [zip_path] names, and for a zip archive (its members in
    archive order) whether the manifest beside it can be opened for
    writing. *)
Inductive zip_target :=
| Missing                              (* [os.path.exists] is false *)
| Unopenable                           (* opening raises an [OSError] *)
| NotAZip                              (* a file that is no zip archive *)
| Archive (infolist : list zip_info)   (* an archive; the manifest can be
                                          created or written over *)
| Sealed (infolist : list zip_info).   (* an archive; opening the
                                          manifest raises an [OSError] *)

Definition archive_of (target : zip_target) : option (list zip_info * bool) :=
  match target with
  | Archive zf => Some (zf, true)
  | Sealed zf => Some (zf, false)
  | _ => None
  end.

(** [zf.getinfo(name)]: of several members with one name the archive's
    name table keeps the last. *)
Fixpoint getinfo (name : string) (l : list zip_info) : option zip_info :=
  match l with
  | [] => None
  | i :: r =>
      match getinfo name r with
      | Some j => Some j
      | None => if filename i =? name then Some i else None
      end
  end.

(** [zf.open(name).read()] *)
Definition read_member (zf : list zip_info) (name : string) : result (list byte) :=
  match getinfo name zf with
  | Some i => payload i
  | None => Raise OtherError
  end.

Definition msg_not_found (zip_path : string) : string :=
  "错误: 在 '" ++ zip_path ++ "' 未找到 Zip 文件".
Definition msg_generating (zip_path : string) : string :=
  "正在为 '" ++ posixpath.basename zip_path ++ "' 生成清单文件...".
Definition msg_hashed (normalized_path : string) : string :=
  "  - 已哈希: " ++ normalized_path.
Definition msg_success (manifest_path : string) : string :=
  Str.newline ++ "成功! 清单文件已生成于: '" ++ manifest_path ++ "'".
Definition msg_bad_zip (zip_path : string) : string :=
  "错误: '" ++ zip_path ++ "' 不是一个有效的 zip 文件。".
Definition msg_unknown : string := "发生未知错误: ".

(** The loop over the sorted names: what has been printed stays on
    the console when a member cannot be read. *)
Fixpoint hash_members (zf : list zip_info) (names : list string)
         (manifest_data : Dict.t) (out : list line) : list line * result Dict.t :=
  match names with
  | [] => (out, Ok manifest_data)
  | filename :: rest =>
      match read_member zf filename with
      | Ok file_content =>
          let file_hash := SHA256.hexdigest file_content in
          let normalized_path := Str.replace Str.backslash Str.slash filename in
          hash_members zf rest (Dict.set manifest_data normalized_path file_hash)
                       (out ++ [Text (msg_hashed normalized_path)])
      | Raise e => (out, Raise e)
      end
  end.

(** [generate_manifest(zip_path)] and the exit of the script.  The
    text of the manifest is ASCII ([ensure_ascii]), so that once the file
    is open the write does not fail. *)
Definition generate_manifest (zip_path : string) (target : zip_target) : outcome :=
  match target with
  | Missing => Outcome [] [Text (msg_not_found zip_path)] [] 1
  | _ =>
      let manifest_path := posixpath.splitext_root zip_path ++ ".json" in
      let out := [Text (msg_generating zip_path)] in
      match archive_of target with
      | Some (zf, can_write) =>
          let file_names := map filename (filter (fun info => negb (is_dir info)) zf) in
          let sorted_file_names := Str.sorted file_names in
          match hash_members zf sorted_file_names [] out with
          | (out, Ok manifest_data) =>
              if can_write
              then Outcome (out ++ [Text (msg_success manifest_path)]) []
                           [(manifest_path, json.dumps true true manifest_data)] 0
              else Outcome out [TextExn msg_unknown OSError] [] 1
          | (out, Raise BadZipFile) => Outcome out [Text (msg_bad_zip zip_path)] [] 1
          | (out, Raise e) => Outcome out [TextExn msg_unknown e] [] 1
          end
      | None =>
          match target with
          | NotAZip => Outcome out [Text (msg_bad_zip zip_path)] [] 1
          | _ => Outcome out [TextExn msg_unknown OSError] [] 1
          end
      end
  end.
End generate_manifest.

(* ================================================================== *)
(** ** generate_sha256.py (SidecarChecksumWriter) *)
(* ================================================================== *)

Module generate_sha256.
Local Open Scope string_scope.

Definition CHUNK_SIZE : nat := 8192.

(** The file system and the two streams, threaded through the run. *)
Record world := World { fs : FS.node; out : list line; err : list line }.

Definition print (w : world) (l : line) : world := World (fs w) (out w ++ [l]) (err w).
Definition print_err (w : world) (l : line) : world := World (fs w) (out w) (err w ++ [l]).

Definition msg_unreadable (filepath : string) : string :=
  "错误: 无法读取文件 '" ++ filepath ++ "': ".
Definition msg_processing (filepath : string) : string :=
  "正在处理: " ++ posixpath.basename filepath ++ "...".
Definition msg_done (sha256_filename : string) : string :=
  "成功: " ++ posixpath.basename sha256_filename.
Definition msg_unwritable (sha256_filename : string) : string :=
  "错误: 无法写入SHA256文件 '" ++ sha256_filename ++ "': ".

(** [except IOError] catches the [OSError] of [open]; any other
    exception escapes.  The read loop ends ([read_loop_ends]), so the
    branch of the exhausted loop is never taken. *)
Definition calculate_sha256 (cwd : list string) (w : world) (filepath : string)
  : world * result (option string) :=
  match FS.open_rb (fs w) cwd filepath with
  | Ok content =>
      match io.read_loop CHUNK_SIZE (S (List.length content)) (io.FileObj content 0)
                         hashlib.sha256 with
      | Some sha256_hash => (w, Ok (Some (hashlib.hexdigest sha256_hash)))
      | None => (w, Raise OtherError)
      end
  | Raise OSError => (print_err w (TextExn (msg_unreadable filepath) OSError), Ok None)
  | Raise e => (w, Raise e)
  end.

(** The text of a sidecar. *)
Definition sidecar_text (hex_digest filepath : string) : string :=
  hex_digest ++ "  " ++ posixpath.basename filepath ++ Str.newline.

(** [process_file] after its first [print]: hashing, and writing the
    sidecar.  [except IOError] catches the [OSError] of opening the
    sidecar; the [UnicodeEncodeError] of writing a name that is no text
    escapes and leaves the sidecar empty. *)
Definition hash_and_write (cwd : list string) (w : world) (filepath : string)
  : world * result (option line) :=
  let (w, hashed) := calculate_sha256 cwd w filepath in
  match hashed with
  | Ok (Some hex_digest) =>
      if hex_digest =? "" then (w, Ok None)
      else
        let sha256_filename := filepath ++ ".sha256" in
        match FS.write_text (fs w) cwd sha256_filename (sidecar_text hex_digest filepath) with
        | FS.Written fs' =>
            (World fs' (out w) (err w), Ok (Some (Text (msg_done sha256_filename))))
        | FS.NotOpened OSError =>
            (w, Ok (Some (TextExn (msg_unwritable sha256_filename) OSError)))
        | FS.NotOpened e => (w, Raise e)
        | FS.Truncated fs' e => (World fs' (out w) (err w), Raise e)
        end
  | Ok None => (w, Ok None)
  | Raise e => (w, Raise e)
  end.

Definition process_file (cwd : list string) (w : world) (filepath : string)
  : world * result (option line) :=
  let w := print w (Text (msg_processing filepath)) in
  hash_and_write cwd w filepath.

Record args := Args { directory : string; recursive : bool; workers : Z }.

Definition msg_not_dir (target_dir : string) : string :=
  "错误: 提供的路径 '" ++ target_dir ++ "' 不是一个有效的文件夹。".
Definition msg_scan_rec (target_dir : string) : string := "正在递归扫描文件夹: " ++ target_dir.
Definition msg_scan (target_dir : string) : string := "正在扫描文件夹: " ++ target_dir.
Definition msg_none : string := "未找到需要处理的文件。".
Definition str_of_nat (n : nat) : string := NilZero.string_of_uint (Nat.to_uint n).
Definition str_of_Z (z : Z) : string := NilZero.string_of_int (Z.to_int z).
Definition msg_found (n : nat) (workers : Z) : string :=
  "找到 " ++ str_of_nat n ++ " 个文件。将使用 " ++ str_of_Z workers ++ " 个线程进行处理...".
Definition msg_all_done : string := Str.newline ++ "所有文件处理完毕！".

(** The candidate list, recursive mode. *)
Definition scan_recursive (fs : FS.node) (cwd : list string) (target_dir : string)
  : result (list string) :=
  triples <- FS.walk fs cwd target_dir ;;
  Ok (flat_map (fun '(root, _, filenames) =>
                  map (posixpath.join root)
                      (filter (fun filename => negb (Str.endswith filename ".sha256"))
                              filenames))
               triples).

(** The candidate list, one directory. *)
Definition scan_flat (fs : FS.node) (cwd : list string) (target_dir : string)
  : result (list string) :=
  names <- FS.listdir fs cwd target_dir ;;
  Ok (map (posixpath.join target_dir)
          (filter (fun filename =>
                     FS.isfile fs cwd (posixpath.join target_dir filename)
                     && negb (Str.endswith filename ".sha256"))
                  names)).

(** The pool.  Every submitted task runs once, in a thread of its own
    among [max_workers]; the main thread takes the futures as they
    complete.  What the threads do reaches the streams and the file
    system in some order, the schedule, a list of events:
    - [Begin f]: the task of [f] does its first [print];
    - [Work f]: it hashes [f] and writes the sidecar (two files that no
      other task touches), and its future holds what it returned or
      raised;
    - [Report f]: the main thread takes the future of [f] and prints the
      result when it is not empty, or lets the exception of the task
      escape.
    Each element of a stream stands for one call of [print]. *)
Inductive event :=
| Begin (filepath : string)
| Work (filepath : string)
| Report (filepath : string).

(** The state of the pool: the world, the futures that are done, and
    the exception that has left the loop of the main thread. *)
Record pool := Pool {
  now : world;
  futures : list (string * result (option line));
  raised : option exn
}.

Fixpoint future_of (filepath : string) (l : list (string * result (option line)))
  : option (result (option line)) :=
  match l with
  | [] => None
  | (f, r) :: rest => if f =? filepath then Some r else future_of filepath rest
  end.

(** Once an exception has left the loop the main thread prints no
    further result; leaving the [with] block waits for every task, so
    the tasks still run. *)
Definition step (cwd : list string) (s : pool) (e : event) : pool :=
  match e with
  | Begin filepath =>
      Pool (print (now s) (Text (msg_processing filepath))) (futures s) (raised s)
  | Work filepath =>
      let (w, result) := hash_and_write cwd (now s) filepath in
      Pool w (futures s ++ [(filepath, result)]) (raised s)
  | Report filepath =>
      match raised s with
      | Some _ => s
      | None =>
          match future_of filepath (futures s) with
          | Some (Ok (Some l)) => Pool (print (now s) l) (futures s) None
          | Some (Ok None) => s
          | Some (Raise e) => Pool (now s) (futures s) (Some e)
          | None => s
          end
      end
  end.

Definition begins (evs : list event) : list string :=
  flat_map (fun e => match e with Begin f => [f] | _ => [] end) evs.
Definition works (evs : list event) : list string :=
  flat_map (fun e => match e with Work f => [f] | _ => [] end) evs.
Definition reports (evs : list event) : list string :=
  flat_map (fun e => match e with Report f => [f] | _ => [] end) evs.

(** A task works after it has begun and is reported after its work. *)
Fixpoint in_thread_order (begun worked : list string) (evs : list event) : bool :=
  match evs with
  | [] => true
  | Begin f :: rest => in_thread_order (f :: begun) worked rest
  | Work f :: rest => existsb (String.eqb f) begun && in_thread_order begun (f :: worked) rest
  | Report f :: rest => existsb (String.eqb f) worked && in_thread_order begun worked rest
  end.

(** The schedules of a list of tasks: each task begins, works and is
    reported once, in this order. *)
Definition schedule_of (files : list string) (evs : list event) : Prop :=
  Permutation (begins evs) files
  /\ Permutation (works evs) files
  /\ Permutation (reports evs) files
  /\ in_thread_order [] [] evs = true.

Record run := Run { final : world; status : nat }.

(** [main()] after the arguments are parsed; [sched] is the schedule
    the pool happens to follow. *)
Definition main (sched : list string -> list event)
           (fs : FS.node) (cwd : list string) (a : args) : run :=
  let w := World fs [] [] in
  let target_dir := directory a in
  if negb (FS.isdir fs cwd target_dir)
  then Run (print_err w (Text (msg_not_dir target_dir))) 1
  else
    let scanned :=
      if recursive a
      then (print w (Text (msg_scan_rec target_dir)), scan_recursive fs cwd target_dir)
      else (print w (Text (msg_scan target_dir)), scan_flat fs cwd target_dir) in
    match scanned with
    | (w, Raise e) => Run (print_err w (Traceback e)) 1
    | (w, Ok []) => Run (print w (Text msg_none)) 0
    | (w, Ok files_to_process) =>
        let w := print w (Text (msg_found (List.length files_to_process) (workers a))) in
        if (workers a <=? 0)%Z
        then Run (print_err w (Traceback ValueError)) 1
        else
          let s := fold_left (step cwd) (sched files_to_process) (Pool w [] None) in
          match raised s with
          | Some e => Run (print_err (now s) (Traceback e)) 1
          | None => Run (print (now s) (Text msg_all_done)) 0
          end
    end.
End generate_sha256.

(* ================================================================== *)
(** ** Vocabulary of the properties *)
(* ================================================================== *)

Unset Implicit Arguments.

Section Vocabulary.
Local Open Scope string_scope.
Import generate_manifest generate_sha256.

(** The characters of a lower-case hexadecimal number. *)
Definition is_lower_hex (c : ascii) : bool :=
  let n := N_of_ascii c in
  ((48 <=? n) && (n <=? 57) || (97 <=? n) && (n <=? 102))%N.

(** The characters below U+0080, one byte each in UTF-8. *)
Definition is_ascii (c : ascii) : bool := (N_of_ascii c <? 128)%N.

(** The key under which the file reached by the names [p] is recorded. *)
Definition key_of (p : list string) : string :=
  Str.replace Str.backslash Str.slash (String.concat "/" p).

(** One turn of the inner loop, seen from the file it visits. *)
Definition record_file (d : Dict.t) (pf : list string * FS.node) : result Dict.t :=
  match snd pf with
  | FS.File true _ content => Ok (Dict.set d (key_of (fst pf)) (SHA256.hexdigest content))
  | _ => Raise OSError
  end.

Definition visits (top : string) (n : FS.node) : list (string * string) :=
  flat_map (fun '(base, _, files) => map (pair base) files) (FS.walk_tree top n).

(** The files below the directory that [root_dir] names, in the order
    of the walk; none when it names no directory. *)
Definition files_below (fs : FS.node) (cwd : list string) (root_dir : string)
  : list (list string * FS.node) :=
  match FS.stat fs cwd (posixpath.abspath cwd root_dir) with
  | Some n => FS.files_under n
  | None => []
  end.

(** Assigning a list of pairs, first to last. *)
Definition assign_all (l : list (string * string)) (d : Dict.t) : Dict.t :=
  fold_left (fun d kv => Dict.set d (fst kv) (snd kv)) l d.

Definition readable (pf : list string * FS.node) : bool :=
  match snd pf with
  | FS.File true _ _ => true
  | _ => false
  end.

Definition content_of (n : FS.node) : list byte :=
  match n with
  | FS.File _ _ content => content
  | FS.Dir _ _ _ => []
  end.

(** The entry a file contributes: its key and the digest of its content. *)
Definition digest_entry (pf : list string * FS.node) : string * string :=
  (key_of (fst pf), SHA256.hexdigest (content_of (snd pf))).

(** What the names [p] lead to in a tree, whatever the permissions. *)
Fixpoint below (n : FS.node) (p : list string) : option FS.node :=
  match p with
  | [] => Some n
  | c :: rest =>
      match n with
      | FS.Dir _ _ es =>
          match FS.find_entry c es with
          | Some x => below x rest
          | None => None
          end
      | FS.File _ _ _ => None
      end
  end.

(** A project directory: one file at the top, one in a subdirectory and
    one in a directory that the user cannot list. *)
Definition demo_root : FS.node :=
  FS.Dir true true
    [("a.txt", FS.File true true (bytes_of "hello"));
     ("sub", FS.Dir true true [("b.txt", FS.File true true (bytes_of "world"))]);
     ("locked", FS.Dir false true [("c.txt", FS.File true true (bytes_of "secret"))])].
Definition demo_fs : FS.node := FS.Dir true true [("proj", demo_root)].

(** A file whose name holds a backslash beside a directory: the two
    files [a\b] and [a/b] share the key [a/b]. *)
Definition clash_root : FS.node :=
  FS.Dir true true
    [("a\b", FS.File true true (bytes_of "x"));
     ("a", FS.Dir true true [("b", FS.File true true (bytes_of "y"))])].
Definition clash_fs : FS.node := FS.Dir true true [("r", clash_root)].

(** One readable file beside an unreadable one. *)
Definition locked_fs : FS.node :=
  FS.Dir true true
    [("proj", FS.Dir true true
                [("a.txt", FS.File true true (bytes_of "hello"));
                 ("sub", FS.Dir true true
                           [("b.txt", FS.File false true (bytes_of "secret"))])])].

(** The same two files, listed by the file system in either order. *)
Definition listed_ab : FS.node :=
  FS.Dir true true [("a", FS.File true true (bytes_of "1"));
                    ("b", FS.File true true (bytes_of "2"))].
Definition listed_ba : FS.node :=
  FS.Dir true true [("b", FS.File true true (bytes_of "2"));
                    ("a", FS.File true true (bytes_of "1"))].

(** An unreadable file in a directory that the user cannot list. *)
Definition hidden_fs : FS.node :=
  FS.Dir true true
    [("proj", FS.Dir true true
                [("a.txt", FS.File true true (bytes_of "hello"));
                 ("locked", FS.Dir false true
                              [("c.txt", FS.File false true (bytes_of "secret"))])])].

(** A working directory in which no file can be created. *)
Definition readonly_fs : FS.node :=
  FS.Dir true false [("a.txt", FS.File true true (bytes_of "hello"))].

Definition str_le (a b : string) : Prop := String.leb a b = true.

Definition normalized (name : string) : string := Str.replace Str.backslash Str.slash name.

(** What a member contributes to the manifest. *)
Definition member_entry (zf : list zip_info) (name : string) : string * string :=
  (normalized name,
   SHA256.hexdigest match read_member zf name with
                    | Ok content => content
                    | Raise _ => []
                    end).

Definition file_names (zf : list zip_info) : list string :=
  map filename (filter (fun info => negb (is_dir info)) zf).

(** The archive of the scenario: a directory member and two files, the
    later of which sorts first. *)
Definition docs_zip : list zip_info :=
  [ZipInfo "docs/" (Ok []);
   ZipInfo "docs/readme.txt" (Ok (bytes_of "x"));
   ZipInfo "LICENSE" (Ok (bytes_of "y"))].


(** What a path shows of the tree without looking into directories. *)
Inductive view :=
| VFile (readable writable : bool) (content : list byte)
| VDir (accessible dwritable : bool)
| VNone.

Definition view_at (n : FS.node) (p : list string) : view :=
  match FS.lookup n p with
  | Some (FS.File r w c) => VFile r w c
  | Some (FS.Dir a w _) => VDir a w
  | None => VNone
  end.

(** Whether [p] shows a directory, and whether it is accessible. *)
Definition dir_at (n : FS.node) (p : list string) : option bool :=
  match view_at n p with
  | VDir a _ => Some a
  | _ => None
  end.

(** Whether the file at [p] can be created or truncated. *)
Definition can_put (n : FS.node) (p : list string) : bool :=
  match view_at n p with
  | VFile _ w _ => w
  | VDir _ _ => false
  | VNone =>
      match view_at n (removelast p) with
      | VDir a w => a && w
      | _ => false
      end
  end.

(** Where a candidate lives: it is [join(base, name)] for an
    accessible directory [base] of the tree and a proper name that is no
    sidecar name. *)
Definition placed (fs : FS.node) (cwd : list string) (f : string) : Prop :=
  exists base name d,
    f = posixpath.join base name
    /\ FS.name_ok name = true
    /\ Str.endswith name ".sha256" = false
    /\ FS.locate fs cwd base = Some d
    /\ dir_at fs d = Some true.

Definition not_sidecar (filename : string) : bool := negb (Str.endswith filename ".sha256").

(** What the run keeps true of the file system: directories stay
    what they were, and only the paths in [written], all of them sidecar
    paths, show anything new. *)
Record inv (fs0 fs' : FS.node) (written : list (list string)) : Prop := Inv {
  inv_dirs : forall q, dir_at fs' q = dir_at fs0 q;
  inv_view : forall q, ~ In q written -> view_at fs' q = view_at fs0 q;
  inv_written : forall q, In q written ->
                          dir_at fs0 q = None
                          /\ Str.endswith (last q "") ".sha256" = true
}.

(** A task run alone on the file system [fs0]. *)
Definition solo (fs0 : FS.node) (cwd : list string) (f : string)
  : world * result (option line) :=
  hash_and_write cwd (World fs0 [] []) f.

(** What its future holds. *)
Definition verdict (fs0 : FS.node) (cwd : list string) (f : string) : result (option line) :=
  snd (solo fs0 cwd f).

(** What it prints on standard error. *)
Definition complaint (fs0 : FS.node) (cwd : list string) (f : string) : list line :=
  err (fst (solo fs0 cwd f)).

(** What the threads of the pool do to the file system, to standard
    error and to the futures: the work of the tasks, in the order of
    the [Work] events. *)
Definition work (cwd : list string)
           (st : world * list (string * result (option line))) (f : string)
  : world * list (string * result (option line)) :=
  (fst (hash_and_write cwd (fst st) f),
   (snd st ++ [(f, snd (hash_and_write cwd (fst st) f))])%list).

(** The candidate list of a run; the scan may raise. *)
Definition scan (fs0 : FS.node) (cwd : list string) (a : args) : result (list string) :=
  if recursive a then scan_recursive fs0 cwd (directory a)
  else scan_flat fs0 cwd (directory a).

Definition candidates (fs0 : FS.node) (cwd : list string) (a : args) : list string :=
  match scan fs0 cwd a with
  | Ok l => l
  | Raise _ => []
  end.

(** Whether the scan completes: in non-recursive mode, whether the
    target directory can be listed. *)
Definition scan_ok (fs0 : FS.node) (cwd : list string) (a : args) : bool :=
  match scan fs0 cwd a with
  | Ok _ => true
  | Raise _ => false
  end.

Definition scan_line (a : args) : line :=
  if recursive a then Text (msg_scan_rec (directory a)) else Text (msg_scan (directory a)).

(** The world in which the pool starts. *)
Definition announced (fs0 : FS.node) (cwd : list string) (a : args) : world :=
  World fs0 [scan_line a;
             Text (msg_found (List.length (candidates fs0 cwd a)) (workers a))] [].

(** The pool after the schedule. *)
Definition pool_end (sched : list string -> list event) (fs0 : FS.node)
           (cwd : list string) (a : args) : pool :=
  fold_left (step cwd) (sched (candidates fs0 cwd a)) (Pool (announced fs0 cwd a) [] None).

(** The lines of the console, told apart by how they begin. *)
Definition is_processing (l : line) : bool :=
  match l with
  | Text s => Str.startswith s "正在处理: "
  | _ => false
  end.

Definition is_done (l : line) : bool :=
  match l with
  | Text s => Str.startswith s "成功: "
  | _ => false
  end.

Definition is_error (l : line) : bool :=
  match l with
  | TextExn s _ => Str.startswith s "错误: "
  | _ => false
  end.

Definition count (p : line -> bool) (l : list line) : nat := List.length (filter p l).

(** Neither the line of a file being processed, nor of a sidecar
    written, nor of an error. *)
Definition plain (l : line) : Prop :=
  is_processing l = false /\ is_done l = false /\ is_error l = false.

(** Whether a file is hashed and its sidecar written, on [fs0]. *)
Definition succeeds (fs0 : FS.node) (cwd : list string) (f : string) : bool :=
  match FS.open_rb fs0 cwd f with
  | Ok c =>
      match FS.write_text fs0 cwd (f ++ ".sha256") (sidecar_text (SHA256.hexdigest c) f) with
      | FS.Written _ => true
      | _ => false
      end
  | Raise _ => false
  end.

(** What the main thread prints for a future. *)
Definition said (r : result (option line)) : list line :=
  match r with
  | Ok (Some l) => [l]
  | _ => []
  end.

(** Standard output of the pool under a schedule, when the future of
    [f] holds [v f]: the first lines of the tasks and the results, until
    a future raises; from then on the first lines only. *)
Fixpoint shown (v : string -> result (option line)) (evs : list event) : list line :=
  match evs with
  | [] => []
  | Begin f :: rest => Text (msg_processing f) :: shown v rest
  | Work _ :: rest => shown v rest
  | Report f :: rest =>
      match v f with
      | Ok (Some l) => l :: shown v rest
      | Ok None => shown v rest
      | Raise _ => map (fun g => Text (msg_processing g)) (begins rest)
      end
  end.

(** The exception that leaves the loop of the main thread: that of the
    first future taken that holds one. *)
Fixpoint escaped (v : string -> result (option line)) (evs : list event) : option exn :=
  match evs with
  | [] => None
  | Report f :: rest =>
      match v f with
      | Raise e => Some e
      | _ => escaped v rest
      end
  | _ :: rest => escaped v rest
  end.

(** The headline of a run: that nothing was found, or the number of
    candidates. *)
Definition headline (fs0 : FS.node) (cwd : list string) (a : args) : line :=
  match candidates fs0 cwd a with
  | [] => Text msg_none
  | l => Text (msg_found (List.length l) (workers a))
  end.

(** One worker: each task begins, works and is reported before the
    next begins. *)
Definition in_order (l : list string) : list event :=
  flat_map (fun f => [Begin f; Work f; Report f]) l.

(** Many workers: every task prints its first line at once; the tasks
    then finish last to first, each reported as it finishes. *)
Definition eager (l : list string) : list event :=
  (map Begin l ++ flat_map (fun f => [Work f; Report f]) (rev l))%list.

(** A directory with a readable file, an unreadable file, a file
    beside the read-only sidecar of an earlier run, a sidecar without
    its file, a subdirectory and a directory that cannot be listed. *)
Definition side_dir : FS.node :=
  FS.Dir true true
    [("f.bin", FS.File true true (bytes_of "x"));
     ("g.bin", FS.File false true (bytes_of "y"));
     ("h.bin", FS.File true true (bytes_of "z"));
     ("h.bin.sha256", FS.File true false (bytes_of "old"));
     ("old.sha256", FS.File true true (bytes_of "zz"));
     ("sub", FS.Dir true true [("k.bin", FS.File true true (bytes_of "x"))]);
     ("locked", FS.Dir false true [("m.bin", FS.File true true (bytes_of "x"))])].

Definition side_fs : FS.node := FS.Dir true true [("d", side_dir)].

Definition side_args : args := Args "d" true 4.

(** A file whose name is no text: the byte 0xFF is no UTF-8. *)
Definition raw_name : string := String (ascii_of_nat 255) ".bin".

Definition raw_fs : FS.node :=
  FS.Dir true true
    [("d", FS.Dir true true
             [("a.bin", FS.File true true (bytes_of "x"));
              (raw_name, FS.File true true (bytes_of "y"));
              ("z.bin", FS.File true true (bytes_of "z"))])].

(** A file with the sidecar of an earlier run beside it. *)
Definition stale_fs : FS.node :=
  FS.Dir true true
    [("d", FS.Dir true true
             [("f.bin", FS.File true true (bytes_of "x"));
              ("f.bin.sha256", FS.File true true (bytes_of "stale"))])].

Definition newline_char : ascii := ascii_of_nat 10.

Fixpoint count_char (c : ascii) (s : string) : nat :=
  match s with
  | EmptyString => 0
  | String x r => (if Ascii.eqb x c then 1 else 0) + count_char c r
  end.

Definition all_chars (p : ascii -> bool) (s : string) : bool :=
  forallb p (list_ascii_of_string s).

(** Code 32 (the space) or above. *)
Definition from_space (c : ascii) : bool := (32 <=? N_of_ascii c)%N.

(** Printable ASCII. *)
Definition printable_ascii (c : ascii) : bool :=
  ((32 <=? N_of_ascii c) && (N_of_ascii c <=? 126))%N.

(** Whether the task of a file raises: the file is read, its sidecar
    is opened, and the text cannot be encoded. *)
Definition raises (fs0 : FS.node) (cwd : list string) (f : string) : bool :=
  match FS.open_rb fs0 cwd f with
  | Ok c =>
      match FS.write_text fs0 cwd (f ++ ".sha256") (sidecar_text (SHA256.hexdigest c) f) with
      | FS.Truncated _ _ => true
      | _ => false
      end
  | Raise _ => false
  end.

(** The candidates one triple of the walk contributes. *)
Definition triple_candidates (t : string * list string * list string) : list string :=
  let '(root, _, filenames) := t in
  map (posixpath.join root)
      (filter (fun filename => negb (Str.endswith filename ".sha256")) filenames).

(** The candidates below a node that [top] names. *)
Definition tree_candidates (top : string) (n : FS.node) : list string :=
  flat_map triple_candidates (FS.walk_tree top n).

(** An archive with a directory member, a name that occurs twice and
    two names that differ in the separator only. *)
Definition mixed_zip : list zip_info :=
  [ZipInfo "b.txt" (Ok (bytes_of "1"));
   ZipInfo "dir/" (Ok []);
   ZipInfo "a\c.txt" (Ok (bytes_of "2"));
   ZipInfo "b.txt" (Ok (bytes_of "3"));
   ZipInfo "a/c.txt" (Ok (bytes_of "4"))].

(** An archive whose second member is damaged. *)
Definition damaged_zip : list zip_info :=
  [ZipInfo "a" (Ok (bytes_of "1")); ZipInfo "b" (Raise BadZipFile)].

(** Two unreadable files and a file beside a read-only sidecar. *)
Definition errors_fs : FS.node :=
  FS.Dir true true
    [("d", FS.Dir true true
             [("a.bin", FS.File false true (bytes_of "1"));
              ("b.bin", FS.File true true (bytes_of "2"));
              ("b.bin.sha256", FS.File true false (bytes_of "old"));
              ("c.bin", FS.File false true (bytes_of "3"));
              ("e.bin", FS.File true true (bytes_of "4"))])].

End Vocabulary.

(* ================================================================== *)
(** * Properties *)
(* ================================================================== *)

(** ** The model on known values *)

Example sha256_hello :
  SHA256.hexdigest (bytes_of "hello")
  = "2cf24dba5fb0a30e26e83b2ac5b9e29e1b161e5c1fa7425e73043362938b9824"%string.
Proof. vm_compute. reflexivity. Qed.

Example sha256_x :
  SHA256.hexdigest (bytes_of "x")
  = "2d711642b726b04401627ca9fbac32f5c8530fb1903cc4db02258717921a4881"%string.
Proof. vm_compute. reflexivity. Qed.

Example sha256_empty :
  SHA256.hexdigest []
  = "e3b0c44298fc1c149afbf4c8996fb92427ae41e4649b934ca495991b7852b855"%string.
Proof. vm_compute. reflexivity. Qed.

Example sha256_two_blocks :
  SHA256.hexdigest (bytes_of "abcdbcdecdefdefgefghfghighijhijkijkljklmklmnlmnomnopnopq")
  = "248d6a61d20638b8e5c026930c3e6039a33ce45964ff2167f6ecedd419db06c1"%string.
Proof. vm_compute. reflexivity. Qed.

Example join_ex1 : posixpath.join "/a/b" "c.txt" = "/a/b/c.txt"%string.
Proof. reflexivity. Qed.
Example join_ex2 : posixpath.join "a/" "c" = "a/c"%string.
Proof. reflexivity. Qed.
Example join_ex3 : posixpath.join "" "c" = "c"%string.
Proof. reflexivity. Qed.
Example basename_ex : posixpath.basename "/a/b/c.txt" = "c.txt"%string.
Proof. reflexivity. Qed.
Example abspath_ex1 : posixpath.abspath ["home"; "u"]%string "x/../y/./z/" = "/home/u/y/z"%string.
Proof. reflexivity. Qed.
Example abspath_ex2 : posixpath.abspath ["home"; "u"]%string "/../a//b" = "/a/b"%string.
Proof. reflexivity. Qed.
Example relpath_ex :
  posixpath.relpath ["w"]%string "/r/d/f.txt" "/r" = "d/f.txt"%string.
Proof. reflexivity. Qed.
Example splitext_ex1 : posixpath.splitext_root "/a/b.c/pack.v1.zip" = "/a/b.c/pack.v1"%string.
Proof. reflexivity. Qed.
Example splitext_ex2 : posixpath.splitext_root "/a/b.c/.hidden" = "/a/b.c/.hidden"%string.
Proof. reflexivity. Qed.
Example splitext_ex3 : posixpath.splitext_root "/a/b.c/noext" = "/a/b.c/noext"%string.
Proof. reflexivity. Qed.
Example sorted_ex : Str.sorted ["b"; "a/b"; "a"; "B"]%string = ["B"; "a"; "a/b"; "b"]%string.
Proof. reflexivity. Qed.

Example dumps_empty : json.dumps false false [] = "{}"%string.
Proof. reflexivity. Qed.

Example dumps_two :
  json.dumps true true [("b", "2"); ("a", "1")]%string
  = ("{" ++ Str.newline ++ "  " ++ Str.quote ++ "a" ++ Str.quote ++ ": "
         ++ Str.quote ++ "1" ++ Str.quote ++ "," ++ Str.newline
         ++ "  " ++ Str.quote ++ "b" ++ Str.quote ++ ": "
         ++ Str.quote ++ "2" ++ Str.quote ++ Str.newline ++ "}")%string.
Proof. reflexivity. Qed.

Example escape_ascii_ex :
  json.escape_ascii "aé€/" = ("a" ++ String Str.backslash "u00e9"
                                  ++ String Str.backslash "u20ac" ++ "/")%string.
Proof. reflexivity. Qed.

(** ** The read loop and the digest *)

Lemma skipn_firstn_length {A} (n : nat) (l : list A) :
  skipn (List.length (firstn n l)) l = skipn n l.
Proof.
  rewrite length_firstn.
  destruct (Nat.le_ge_cases n (List.length l)) as [H | H].
  - now rewrite Nat.min_l.
  - rewrite Nat.min_r by exact H.
    rewrite skipn_all. symmetry. now apply skipn_all2.
Qed.

Lemma firstn_nil_inv {A} (n : nat) (l : list A) :
  0 < n -> firstn n l = [] -> l = [].
Proof.
  destruct n; [lia |]. destruct l; [reflexivity | discriminate].
Qed.

(** Fed in chunks of any positive size, the hash object has received
    exactly the unread rest of the file when the loop ends. *)
Lemma read_loop_feeds (size : nat) :
  0 < size ->
  forall fuel data pos sha,
    List.length data - pos < fuel ->
    io.read_loop size fuel (io.FileObj data pos) sha
    = Some (hashlib.Hasher (hashlib.fed sha ++ skipn pos data)).
Proof.
  intros Hsize. induction fuel as [| fuel IH]; intros data pos sha Hfuel; [lia |].
  cbn [io.read_loop io.read io.data io.pos].
  destruct (firstn size (skipn pos data)) as [| b chunk] eqn:E.
  - apply firstn_nil_inv in E; [| exact Hsize].
    rewrite E, app_nil_r. now destruct sha.
  - assert (Hrest : skipn pos data <> []) by (intros H0; rewrite H0, firstn_nil in E; discriminate).
    assert (Hpos : pos < List.length data).
    { destruct (Nat.lt_ge_cases pos (List.length data)) as [H | H]; [exact H |].
      exfalso. apply Hrest. now apply skipn_all2. }
    rewrite IH by (cbn [List.length]; lia).
    f_equal. f_equal. cbn [hashlib.update hashlib.fed].
    rewrite <- app_assoc. f_equal.
    rewrite Nat.add_comm, <- skipn_skipn, <- E, skipn_firstn_length.
    now rewrite firstn_skipn.
Qed.

(** The loop always ends within [S (length content)] turns. *)
Lemma read_loop_ends (size : nat) (content : list byte) (sha : hashlib.sha256_obj) :
  exists sha', io.read_loop size (S (List.length content)) (io.FileObj content 0) sha = Some sha'.
Proof.
  destruct size as [| size].
  - exists sha. reflexivity.
  - eexists. apply read_loop_feeds; lia.
Qed.

Lemma read_loop_whole (size : nat) (content : list byte) :
  0 < size ->
  io.read_loop size (S (List.length content)) (io.FileObj content 0) hashlib.sha256
  = Some (hashlib.Hasher content).
Proof.
  intros H. rewrite read_loop_feeds by (exact H || lia). reflexivity.
Qed.

Lemma compress_length (h block : list N) :
  List.length h = 8 -> List.length (SHA256.compress h block) = 8.
Proof.
  intros H. unfold SHA256.compress.
  rewrite length_map, length_combine, H. reflexivity.
Qed.

Lemma digest_words_length (msg : list byte) : List.length (SHA256.digest_words msg) = 8.
Proof.
  unfold SHA256.digest_words.
  generalize (SHA256.blocks (List.length (SHA256.pad (map Byte.to_N msg)))
                            (SHA256.pad (map Byte.to_N msg))).
  assert (H : List.length SHA256.H_init = 8) by reflexivity.
  revert H. generalize SHA256.H_init.
  intros h H l. revert h H.
  induction l as [| b l IH]; intros h H; [exact H |].
  cbn [fold_left]. apply IH. now apply compress_length.
Qed.

(** A digest is 64 hexadecimal digits. *)
Lemma hex_length (bs : list N) : String.length (SHA256.hex bs) = 2 * List.length bs.
Proof.
  induction bs as [| b bs IH]; [reflexivity |].
  cbn [SHA256.hex String.length List.length]. rewrite IH. lia.
Qed.

Lemma hexdigest_length (msg : list byte) : String.length (SHA256.hexdigest msg) = 64.
Proof.
  unfold SHA256.hexdigest, SHA256.digest. rewrite hex_length.
  pose proof (digest_words_length msg) as H.
  destruct (SHA256.digest_words msg) as [| a [| b [| c [| d [| e [| f [| g [| h [| ? ?]]]]]]]]];
    try discriminate H.
  reflexivity.
Qed.

Lemma hexdigest_not_empty (msg : list byte) : SHA256.hexdigest msg <> EmptyString.
Proof.
  intros H. pose proof (hexdigest_length msg) as L. rewrite H in L. discriminate L.
Qed.

(** ** Strings and paths *)

Section StringFacts.
Local Open Scope string_scope.

Lemma sapp_nil_r (s : string) : s ++ "" = s.
Proof. induction s as [| c s IH]; cbn; [reflexivity | now rewrite IH]. Qed.

Lemma sapp_assoc (a b c : string) : (a ++ b) ++ c = a ++ (b ++ c).
Proof. induction a as [| x a IH]; cbn; [reflexivity | now rewrite IH]. Qed.

Lemma sapp_length (a b : string) :
  String.length (a ++ b) = String.length a + String.length b.
Proof. induction a as [| x a IH]; cbn; [reflexivity | now rewrite IH]. Qed.

Lemma contains_app (c : ascii) (a b : string) :
  Str.contains c (a ++ b) = Str.contains c a || Str.contains c b.
Proof.
  induction a as [| x a IH]; cbn; [reflexivity |].
  now rewrite IH, orb_assoc.
Qed.

Lemma split_not_nil (c : ascii) (s : string) : Str.split c s <> [].
Proof.
  destruct s as [| d s]; cbn; [discriminate |].
  destruct (Ascii.eqb d c); [discriminate |].
  destruct (Str.split c s); discriminate.
Qed.

Lemma split_app_sep (c : ascii) (a b : string) :
  Str.split c (a ++ String c b) = (Str.split c a ++ Str.split c b)%list.
Proof.
  induction a as [| d a IH]; cbn.
  - now rewrite Ascii.eqb_refl.
  - destruct (Ascii.eqb d c); rewrite IH; [reflexivity |].
    pose proof (split_not_nil c a) as Hne.
    destruct (Str.split c a); [contradiction | reflexivity].
Qed.

Lemma split_no_sep (c : ascii) (s : string) :
  Str.contains c s = false -> Str.split c s = [s].
Proof.
  induction s as [| d s IH]; cbn; [reflexivity |].
  rewrite Ascii.eqb_sym. intros H. apply orb_false_iff in H as [Hd Hs].
  rewrite Ascii.eqb_sym in Hd. rewrite Ascii.eqb_sym, Hd, IH by exact Hs.
  reflexivity.
Qed.

Lemma endswith_refl (s : string) : Str.endswith s s = true.
Proof. destruct s; cbn [Str.endswith]; now rewrite String.eqb_refl. Qed.

Lemma endswith_inv (s suffix : string) :
  Str.endswith s suffix = true -> exists a, s = a ++ suffix.
Proof.
  induction s as [| c s IH]; cbn [Str.endswith].
  - rewrite orb_false_r. intros H. apply String.eqb_eq in H. subst. now exists "".
  - intros H. apply orb_true_iff in H as [H | H].
    + apply String.eqb_eq in H. exists "". now rewrite <- H.
    + destruct (IH H) as [a Ha]. exists (String c a). cbn. now rewrite Ha.
Qed.

Lemma endswith_app (a suffix : string) : Str.endswith (a ++ suffix) suffix = true.
Proof.
  induction a as [| c a IH]; cbn [append].
  - apply endswith_refl.
  - cbn [Str.endswith]. rewrite IH. apply orb_true_r.
Qed.

Lemma startswith_slash_cons (c : ascii) (r : string) :
  Str.startswith (String c r) "/" = Ascii.eqb c "/".
Proof.
  unfold Str.startswith. cbn [String.prefix].
  destruct (ascii_dec "/" c) as [E | E].
  - subst. rewrite Ascii.eqb_refl. now destruct r.
  - symmetry. apply Ascii.eqb_neq. congruence.
Qed.

Lemma startswith_slash_app (a b : string) :
  a <> "" -> Str.startswith (a ++ b) "/" = Str.startswith a "/".
Proof.
  destruct a as [| c a]; [congruence |]. intros _. cbn [append].
  now rewrite !startswith_slash_cons.
Qed.

Lemma startswith_slash_contains (s : string) :
  Str.contains Str.slash s = false -> Str.startswith s "/" = false.
Proof.
  destruct s as [| c s]; [reflexivity |].
  rewrite startswith_slash_cons. cbn. intros H.
  apply orb_false_iff in H as [H _]. exact H.
Qed.
End StringFacts.

Section PathFacts.
Local Open Scope string_scope.

Lemma name_ok_inv (n : string) :
  FS.name_ok n = true ->
  n <> "" /\ n <> "." /\ n <> ".." /\ Str.contains Str.slash n = false.
Proof.
  unfold FS.name_ok. intros H.
  repeat (apply andb_true_iff in H as [H ?]).
  repeat match goal with
         | Hn : negb _ = true |- _ => apply negb_true_iff in Hn
         end.
  repeat split; try (apply String.eqb_neq; assumption). assumption.
Qed.

Lemma name_ok_nul (n : string) : FS.name_ok n = true -> Str.contains Str.nul n = false.
Proof.
  unfold FS.name_ok. intros H. apply andb_true_iff in H as [_ H].
  now apply negb_true_iff in H.
Qed.

Lemma norm_step_name (acc : list string) (n : string) :
  FS.name_ok n = true -> posixpath.norm_step acc n = (acc ++ [n])%list.
Proof.
  intros H. destruct (name_ok_inv _ H) as (H1 & H2 & H3 & _).
  unfold posixpath.norm_step.
  apply String.eqb_neq in H1, H2, H3. now rewrite H1, H2, H3.
Qed.

Lemma norm_step_empty (acc : list string) : posixpath.norm_step acc "" = acc.
Proof. reflexivity. Qed.

(** The components of [join(a, n)] are those of [a] followed by [n];
    a trailing slash of [a] contributes one empty component. *)
Lemma join_shape (a n : string) :
  FS.name_ok n = true ->
  exists pre,
    Str.split Str.slash (posixpath.join a n) = (pre ++ [n])%list
    /\ (Str.split Str.slash a = (pre ++ [""])%list
        \/ (a <> "" /\ Str.split Str.slash a = pre))
    /\ posixpath.join a n <> ""
    /\ Str.startswith (posixpath.join a n) "/" = Str.startswith a "/".
Proof.
  intros Hn. destruct (name_ok_inv _ Hn) as (Hne & _ & _ & Hns).
  unfold posixpath.join. rewrite (startswith_slash_contains _ Hns).
  unfold Str.slash in *.
  destruct (String.eqb_spec a "") as [Ea | Ea]; cbn [orb].
  - subst a. cbn [append]. exists []. rewrite (split_no_sep _ _ Hns).
    repeat split; auto. now rewrite (startswith_slash_contains _ Hns).
  - destruct (Str.endswith a "/") eqn:Es.
    + destruct (endswith_inv _ _ Es) as [a' Ea']. subst a.
      exists (Str.split Str.slash a').
      rewrite sapp_assoc. cbn [append].
      rewrite !split_app_sep, (split_no_sep _ _ Hns).
      repeat split.
      * now left.
      * destruct a'; discriminate.
      * rewrite <- (startswith_slash_app (a' ++ "/") n) by exact Ea.
        now rewrite sapp_assoc.
    + exists (Str.split Str.slash a). cbn [append].
      rewrite split_app_sep, (split_no_sep _ _ Hns).
      repeat split.
      * now right.
      * destruct a; [congruence | discriminate].
      * apply (startswith_slash_app a (String "/" n)). exact Ea.
Qed.

Lemma abs_comps_join (cwd : list string) (a n : string) :
  FS.name_ok n = true ->
  posixpath.abs_comps cwd (posixpath.join a n) = (posixpath.abs_comps cwd a ++ [n])%list.
Proof.
  intros Hn. destruct (join_shape a _ Hn) as (pre & Hj & Ha & _ & Hs).
  unfold posixpath.abs_comps. rewrite Hj, Hs, fold_left_app.
  cbn [fold_left]. rewrite (norm_step_name _ _ Hn).
  destruct Ha as [Ha | [_ Ha]]; rewrite Ha; [| reflexivity].
  now rewrite fold_left_app.
Qed.

Lemma basename_join (a n : string) :
  FS.name_ok n = true -> posixpath.basename (posixpath.join a n) = n.
Proof.
  intros Hn. destruct (join_shape a _ Hn) as (pre & Hj & _).
  unfold posixpath.basename. rewrite Hj. apply last_last.
Qed.

Lemma join_app (a n suffix : string) :
  n <> "" -> posixpath.join a (n ++ suffix) = posixpath.join a n ++ suffix.
Proof.
  intros Hn. unfold posixpath.join.
  rewrite (startswith_slash_app n suffix Hn).
  destruct (Str.startswith n "/"); [reflexivity |].
  destruct ((a =? "") || Str.endswith a "/"); now rewrite !sapp_assoc.
Qed.

Lemma name_ok_app (n suffix : string) :
  FS.name_ok n = true ->
  Str.contains Str.slash suffix = false -> Str.contains Str.nul suffix = false ->
  2 <= String.length suffix ->
  FS.name_ok (n ++ suffix) = true.
Proof.
  intros Hn Hs Hz Hl. destruct (name_ok_inv _ Hn) as (H1 & _ & _ & H4).
  unfold FS.name_ok. rewrite !contains_app, H4, Hs, (name_ok_nul _ Hn), Hz.
  cbn [orb negb andb]. rewrite !andb_true_r.
  assert (L : 3 <= String.length (n ++ suffix)).
  { rewrite sapp_length. destruct n; [congruence | cbn; lia]. }
  repeat (apply andb_true_iff; split); try reflexivity;
    apply negb_true_iff, String.eqb_neq; intros E; rewrite E in L; cbn in L; lia.
Qed.

Lemma common_prefix_len_app (r q : list string) :
  posixpath.common_prefix_len r (r ++ q) = List.length r.
Proof.
  induction r as [| x r IH]; [reflexivity |].
  cbn. now rewrite String.eqb_refl, IH.
Qed.

(** The path of something below [start], relative to [start]. *)
Lemma relpath_below (cwd : list string) (path start : string) (q : list string) :
  q <> [] ->
  posixpath.abs_comps cwd path = (posixpath.abs_comps cwd start ++ q)%list ->
  posixpath.relpath cwd path start = String.concat "/" q.
Proof.
  intros Hq Hp. unfold posixpath.relpath.
  rewrite Hp, common_prefix_len_app, Nat.sub_diag, skipn_app, skipn_all, Nat.sub_diag.
  cbn [repeat skipn app]. destruct q; [congruence | reflexivity].
Qed.
End PathFacts.

(** ** The file system *)

Section FsFacts.
Local Open Scope string_scope.

Lemma lookup_app (n : FS.node) (p q : list string) :
  FS.lookup n (p ++ q)
  = match FS.lookup n p with
    | Some x => FS.lookup x q
    | None => None
    end.
Proof.
  revert n. induction p as [| c p IH]; intros n; [reflexivity |].
  cbn [app FS.lookup]. destruct n as [r w content | [|] w es]; try reflexivity.
  destruct (FS.find_entry c es); [apply IH | reflexivity].
Qed.

Lemma walk_path_app (fs : FS.node) (l1 l2 cur : list string) :
  FS.walk_path fs cur (l1 ++ l2)
  = match FS.walk_path fs cur l1 with
    | Some c => FS.walk_path fs c l2
    | None => None
    end.
Proof.
  revert cur. induction l1 as [| c l1 IH]; intros cur; [reflexivity |].
  cbn [app FS.walk_path].
  destruct (FS.lookup fs cur) as [[| a w es] |]; try reflexivity.
  destruct ((c =? "") || a); [apply IH | reflexivity].
Qed.

Lemma find_entry_In (name : string) (x : FS.node) (es : list (string * FS.node)) :
  FS.find_entry name es = Some x -> In (name, x) es.
Proof.
  induction es as [| [n y] es IH]; cbn; [discriminate |].
  destruct (String.eqb_spec n name) as [E | E].
  - intros [= ->]. subst. now left.
  - intros H. right. now apply IH.
Qed.

Lemma distinct_cons_inv (x : string) (l : list string) :
  FS.distinct (x :: l) = true -> ~ In x l /\ FS.distinct l = true.
Proof.
  cbn. intros H. apply andb_true_iff in H as [H1 H2]. split; [| exact H2].
  intros Hin. apply negb_true_iff in H1.
  assert (existsb (String.eqb x) l = true)
    by (apply existsb_exists; exists x; split; [exact Hin | apply String.eqb_refl]).
  congruence.
Qed.

Lemma distinct_NoDup (l : list string) : FS.distinct l = true -> NoDup l.
Proof.
  induction l as [| x l IH]; intros H; [constructor |].
  apply distinct_cons_inv in H as [H1 H2]. constructor; auto.
Qed.

Lemma In_find_entry (name : string) (x : FS.node) (es : list (string * FS.node)) :
  FS.distinct (map fst es) = true -> In (name, x) es -> FS.find_entry name es = Some x.
Proof.
  induction es as [| [n y] es IH]; cbn [map fst]; intros Hd Hin; [destruct Hin |].
  apply distinct_cons_inv in Hd as [Hn Hd]. cbn [FS.find_entry].
  destruct Hin as [[= -> ->] | Hin].
  - now rewrite String.eqb_refl.
  - destruct (String.eqb_spec n name) as [E | E]; [| now apply IH].
    subst. exfalso. apply Hn. apply (in_map fst) in Hin. exact Hin.
Qed.

Lemma wf_dir_inv (a w : bool) (es : list (string * FS.node)) :
  FS.wf (FS.Dir a w es) = true ->
  Forall (fun e => FS.name_ok (fst e) = true) es
  /\ FS.distinct (map fst es) = true
  /\ Forall (fun e => FS.wf (snd e) = true) es.
Proof.
  cbn [FS.wf]. intros H.
  apply andb_true_iff in H as [H H3]. apply andb_true_iff in H as [H1 H2].
  repeat split; [| exact H2 |].
  - rewrite forallb_forall in H1. apply Forall_forall. intros e He.
    apply H1. now apply in_map.
  - rewrite forallb_forall in H3. apply Forall_forall. intros [n x] He.
    apply (H3 _ He).
Qed.

Lemma wf_lookup (p : list string) (n x : FS.node) :
  FS.wf n = true -> FS.lookup n p = Some x -> FS.wf x = true.
Proof.
  revert n. induction p as [| c p IH]; intros n Hwf; cbn [FS.lookup].
  - now intros [= <-].
  - destruct n as [| [|] w es]; try discriminate.
    destruct (FS.find_entry c es) as [y |] eqn:E; [| discriminate].
    apply IH. apply wf_dir_inv in Hwf as (_ & _ & Hall).
    apply find_entry_In in E. rewrite Forall_forall in Hall. apply (Hall _ E).
Qed.

Lemma lookup_cons_dir (a w : bool) (es : list (string * FS.node)) (c : string)
      (p : list string) :
  FS.lookup (FS.Dir a w es) (c :: p)
  = if a then match FS.find_entry c es with
              | Some x => FS.lookup x p
              | None => None
              end
    else None.
Proof. now destruct a. Qed.

Lemma join_nul (a n : string) :
  FS.has_nul a = false -> FS.has_nul n = false -> FS.has_nul (posixpath.join a n) = false.
Proof.
  unfold FS.has_nul, posixpath.join. intros Ha Hn.
  destruct (Str.startswith n "/"); [exact Hn |].
  destruct ((a =? "") || Str.endswith a "/"); rewrite !contains_app, Ha, Hn; reflexivity.
Qed.

Lemma locate_nul (fs : FS.node) (cwd : list string) (p : string) (d : list string) :
  FS.locate fs cwd p = Some d -> FS.has_nul p = false.
Proof.
  unfold FS.locate. destruct (FS.has_nul p); [| reflexivity].
  now rewrite orb_true_r.
Qed.

Lemma locate_join (fs : FS.node) (cwd : list string) (a n : string)
      (d : list string) (w : bool) (es : list (string * FS.node)) :
  FS.name_ok n = true ->
  FS.locate fs cwd a = Some d ->
  FS.lookup fs d = Some (FS.Dir true w es) ->
  FS.locate fs cwd (posixpath.join a n) = Some (d ++ [n])%list.
Proof.
  intros Hn Ha Hd. destruct (join_shape a _ Hn) as (pre & Hj & Hsp & Hne & Hs).
  pose proof (join_nul a n (locate_nul _ _ _ _ Ha) (name_ok_nul _ Hn)) as Hz.
  unfold FS.locate in *.
  apply String.eqb_neq in Hne. rewrite Hne, Hz, Hs, Hj, walk_path_app. cbn [orb].
  destruct ((a =? "") || FS.has_nul a) eqn:Ea; [discriminate |].
  set (start := if Str.startswith a "/" then [] else cwd) in *.
  assert (Hpre : FS.walk_path fs start pre = Some d).
  { destruct Hsp as [Hsp | [_ Hsp]]; rewrite Hsp in Ha; [| exact Ha].
    rewrite walk_path_app in Ha.
    destruct (FS.walk_path fs start pre) as [d' |]; [| discriminate].
    cbn [FS.walk_path] in Ha.
    destruct (FS.lookup fs d') as [[| ? ? ?] |]; try discriminate.
    cbn [String.eqb orb] in Ha. now rewrite norm_step_empty in Ha. }
  rewrite Hpre. cbn [FS.walk_path]. rewrite Hd, orb_true_r.
  now rewrite (norm_step_name _ _ Hn).
Qed.

Lemma stat_join (fs : FS.node) (cwd : list string) (a n : string)
      (d : list string) (w : bool) (es : list (string * FS.node)) :
  FS.name_ok n = true ->
  FS.locate fs cwd a = Some d ->
  FS.lookup fs d = Some (FS.Dir true w es) ->
  FS.stat fs cwd (posixpath.join a n) = FS.find_entry n es.
Proof.
  intros Hn Ha Hd. unfold FS.stat.
  rewrite (locate_join _ _ _ _ _ _ _ Hn Ha Hd), lookup_app, Hd.
  cbn [FS.lookup]. now destruct (FS.find_entry n es).
Qed.
End FsFacts.

(** ** The characters of a digest *)

Section DigestText.
Local Open Scope string_scope.

Lemma hex_digit_lower (d : N) : (d < 16)%N -> is_lower_hex (SHA256.hex_digit d) = true.
Proof.
  intros H.
  assert (E : forallb (fun k => is_lower_hex (SHA256.hex_digit (N.of_nat k))) (seq 0 16) = true)
    by (vm_compute; reflexivity).
  rewrite forallb_forall in E. specialize (E (N.to_nat d)).
  rewrite N2Nat.id in E. apply E. apply in_seq. lia.
Qed.

Lemma hex_lower (bs : list N) :
  Forall (fun b => (b < 256)%N) bs ->
  forallb is_lower_hex (list_ascii_of_string (SHA256.hex bs)) = true.
Proof.
  induction 1 as [| b bs Hb _ IH]; [reflexivity |].
  cbn [SHA256.hex list_ascii_of_string forallb]. rewrite IH, !hex_digit_lower.
  - reflexivity.
  - apply N.mod_lt. discriminate.
  - apply N.Div0.div_lt_upper_bound. exact Hb.
Qed.

Lemma be_bytes_small (width : nat) (x : N) :
  Forall (fun b => (b < 256)%N) (SHA256.be_bytes width x).
Proof.
  induction width as [| w IH]; cbn [SHA256.be_bytes]; constructor; [| exact IH].
  apply N.mod_lt. discriminate.
Qed.

Lemma digest_small (msg : list byte) : Forall (fun b => (b < 256)%N) (SHA256.digest msg).
Proof.
  unfold SHA256.digest. rewrite Forall_forall. intros b Hb.
  apply in_flat_map in Hb as (w & _ & Hb).
  pose proof (be_bytes_small 4 w) as H. rewrite Forall_forall in H. now apply H.
Qed.

Lemma hexdigest_lower (msg : list byte) :
  forallb is_lower_hex (list_ascii_of_string (SHA256.hexdigest msg)) = true.
Proof. apply hex_lower, digest_small. Qed.

Lemma in_range_ascii (lo hi : N) (c : ascii) :
  is_ascii c = true -> (128 <= lo)%N -> Str.in_range lo hi c = false.
Proof.
  unfold is_ascii, Str.in_range. intros Hc Hlo. apply N.ltb_lt in Hc.
  apply andb_false_iff. left. apply N.leb_gt. lia.
Qed.

Lemma second_of_three_ascii (lead : N) (c : ascii) :
  is_ascii c = true -> Str.second_of_three lead c = false.
Proof.
  intros Hc. unfold Str.second_of_three.
  destruct (lead =? 224)%N; [| destruct (lead =? 237)%N]; apply in_range_ascii; try exact Hc; lia.
Qed.

Lemma second_of_four_ascii (lead : N) (c : ascii) :
  is_ascii c = true -> Str.second_of_four lead c = false.
Proof.
  intros Hc. unfold Str.second_of_four.
  destruct (lead =? 240)%N; [| destruct (lead =? 244)%N]; apply in_range_ascii; try exact Hc; lia.
Qed.

Lemma well_formed_cons_ascii (c : ascii) (s : string) :
  is_ascii c = true -> Str.well_formed (String c s) = Str.well_formed s.
Proof. unfold is_ascii. intros H. cbn [Str.well_formed]. now rewrite H. Qed.

(** An ASCII character after a text ends the text. *)
Lemma well_formed_before_ascii (c : ascii) (t : string) :
  is_ascii c = true ->
  forall (n : nat) (s : string),
    String.length s <= n ->
    Str.well_formed (s ++ String c t) = Str.well_formed s && Str.well_formed t.
Proof.
  intros Hc. induction n as [| n IH]; intros s Hn.
  - destruct s; [| cbn in Hn; lia]. cbn [append andb]. now apply well_formed_cons_ascii.
  - destruct s as [| b0 r0]; [cbn [append andb]; now apply well_formed_cons_ascii |].
    cbn [String.length] in Hn.
    destruct (N_of_ascii b0 <? 128)%N eqn:E0.
    { cbn [append]. rewrite !well_formed_cons_ascii by exact E0. apply IH. lia. }
    destruct r0 as [| b1 r1].
    { cbn [append Str.well_formed]. rewrite E0.
      rewrite (in_range_ascii 128 191 c Hc) by lia. rewrite andb_false_l.
      destruct (Str.in_range 194 223 b0); [reflexivity |].
      destruct t as [| b2 r2]; [reflexivity |].
      rewrite (second_of_three_ascii _ c Hc). rewrite !andb_false_l.
      destruct (Str.in_range 224 239 b0); [reflexivity |].
      destruct r2; [reflexivity |].
      rewrite (second_of_four_ascii _ c Hc). now rewrite andb_false_r. }
    cbn [String.length] in Hn.
    destruct (Str.in_range 194 223 b0) eqn:E1.
    { cbn [append Str.well_formed]. rewrite E0, E1.
      rewrite IH by lia. now rewrite andb_assoc. }
    destruct r1 as [| b2 r2].
    { cbn [append Str.well_formed]. rewrite E0, E1.
      rewrite (in_range_ascii 128 191 c Hc) by lia.
      destruct (Str.in_range 224 239 b0); [now rewrite andb_false_r |].
      destruct t as [| b3 r3]; [reflexivity |].
      rewrite andb_false_r. reflexivity. }
    cbn [String.length] in Hn.
    destruct (Str.in_range 224 239 b0) eqn:E2.
    { cbn [append Str.well_formed]. rewrite E0, E1, E2.
      rewrite IH by lia. now rewrite !andb_assoc. }
    destruct r2 as [| b3 r3].
    { cbn [append Str.well_formed]. rewrite E0, E1, E2.
      rewrite (in_range_ascii 128 191 c Hc) by lia. now rewrite !andb_false_r. }
    cbn [String.length] in Hn.
    cbn [append Str.well_formed]. rewrite E0, E1, E2.
    rewrite IH by lia. now rewrite !andb_assoc.
Qed.

Lemma well_formed_after_ascii (a s : string) :
  forallb is_ascii (list_ascii_of_string a) = true ->
  Str.well_formed (a ++ s) = Str.well_formed s.
Proof.
  induction a as [| c a IH]; cbn [list_ascii_of_string forallb append]; [reflexivity |].
  intros H. apply andb_true_iff in H as [Hc Ha].
  rewrite (well_formed_cons_ascii c _ Hc). now apply IH.
Qed.

Lemma lower_hex_ascii (c : ascii) : is_lower_hex c = true -> is_ascii c = true.
Proof.
  unfold is_lower_hex, is_ascii. intros H. apply N.ltb_lt.
  apply orb_true_iff in H as [H | H]; apply andb_true_iff in H as [_ H];
    apply N.leb_le in H; lia.
Qed.

Lemma hexdigest_ascii (msg : list byte) :
  forallb is_ascii (list_ascii_of_string (SHA256.hexdigest msg)) = true.
Proof.
  pose proof (hexdigest_lower msg) as H. rewrite forallb_forall in *.
  intros c Hc. apply lower_hex_ascii. now apply H.
Qed.

(** A digest, two spaces, a name and a newline can be encoded exactly
    when the name can. *)
Lemma digest_line_well_formed (msg : list byte) (name : string) :
  Str.well_formed (SHA256.hexdigest msg ++ "  " ++ name ++ Str.newline)
  = Str.well_formed name.
Proof.
  rewrite (well_formed_after_ascii _ _ (hexdigest_ascii msg)).
  rewrite (well_formed_after_ascii "  " _ eq_refl).
  unfold Str.newline, Str.chr.
  rewrite (well_formed_before_ascii (ascii_of_nat 10) "" eq_refl (String.length name) name)
    by lia.
  apply andb_true_r.
Qed.
End DigestText.

(** ** Loops that may raise *)

Lemma for_each_app {A S : Type} (l1 l2 : list A) (body : S -> A -> result S) (s : S) :
  for_each (l1 ++ l2) body s = bind (for_each l1 body s) (for_each l2 body).
Proof.
  revert s. induction l1 as [| x l1 IH]; intros s; cbn [app for_each bind]; [reflexivity |].
  destruct (body s x) as [s' | e]; cbn [bind]; [apply IH | reflexivity].
Qed.

Lemma for_each_nested {A B S : Type} (g : A -> list B) (body : S -> B -> result S) (l : list A) (s : S) :
  for_each l (fun s x => for_each (g x) body s) s = for_each (flat_map g l) body s.
Proof.
  revert s. induction l as [| x l IH]; intros s; cbn [flat_map for_each]; [reflexivity |].
  rewrite for_each_app. destruct (for_each (g x) body s); cbn [bind]; [apply IH | reflexivity].
Qed.

Lemma for_each_map {A B S : Type} (f : A -> B) (body : S -> B -> result S) (l : list A) (s : S) :
  for_each (map f l) body s = for_each l (fun s x => body s (f x)) s.
Proof.
  revert s. induction l as [| x l IH]; intros s; cbn [map for_each]; [reflexivity |].
  destruct (body s (f x)); cbn [bind]; [apply IH | reflexivity].
Qed.

Lemma for_each_ext {A S : Type} (b1 b2 : S -> A -> result S) (l : list A) (s : S) :
  (forall s x, In x l -> b1 s x = b2 s x) -> for_each l b1 s = for_each l b2 s.
Proof.
  revert s. induction l as [| x l IH]; intros s H; cbn [for_each]; [reflexivity |].
  rewrite (H s x) by now left.
  destruct (b2 s x); cbn [bind]; [| reflexivity].
  apply IH. intros s' y Hy. apply H. now right.
Qed.

Lemma map_flat_map_pointwise {A B C D E : Type}
      (g : C -> E) (h : D -> E) (f : B -> list C) (w : A -> list B) (x : A -> list D)
      (l : list A) :
  (forall a, In a l -> map g (flat_map f (w a)) = map h (x a)) ->
  map g (flat_map f (flat_map w l)) = map h (flat_map x l).
Proof.
  induction l as [| a l IH]; intros H; [reflexivity |].
  cbn [flat_map]. rewrite flat_map_app, !map_app.
  rewrite (H a) by now left. f_equal. apply IH. intros b Hb. apply H. now right.
Qed.

(** ** gen_sha256.py *)

Section GenSha256.
Local Open Scope string_scope.

Lemma chunk_positive : 0 < 8192.
Proof. apply Nat.ltb_lt. vm_compute. reflexivity. Qed.

(** [sha256_file] returns the digest of the whole content of a readable
    regular file; it raises [ValueError] on a path with a NUL character
    and [OSError] on anything else. *)
Lemma sha256_file_stat (fs : FS.node) (cwd : list string) (path : string) :
  gen_sha256.sha256_file fs cwd path
  = if FS.has_nul path then Raise ValueError
    else match FS.stat fs cwd path with
         | Some (FS.File true _ content) => Ok (SHA256.hexdigest content)
         | _ => Raise OSError
         end.
Proof.
  unfold gen_sha256.sha256_file, FS.open_rb.
  destruct (FS.has_nul path); [reflexivity |].
  destruct (FS.stat fs cwd path) as [[[|] w content | a w es] |]; cbn [bind]; try reflexivity.
  now rewrite (read_loop_whole 8192 content chunk_positive).
Qed.

Lemma visits_files (fs : FS.node) (cwd : list string) (root_dir : string) :
  forall (n : FS.node) (top : string) (d rel : list string),
    FS.wf n = true ->
    FS.locate fs cwd top = Some d ->
    FS.lookup fs d = Some n ->
    posixpath.abs_comps cwd top = (posixpath.abs_comps cwd root_dir ++ rel)%list ->
    map (fun '(base, name) =>
           (posixpath.relpath cwd (posixpath.join base name) root_dir,
            FS.stat fs cwd (posixpath.join base name)))
        (visits top n)
    = map (fun '(p, f) => (String.concat "/" (rel ++ p), Some f)) (FS.files_under n).
Proof.
  induction n as [r w c | a w es IH] using FS.node_ind; intros top d rel Hwf Hloc Hlook Habs.
  - reflexivity.
  - destruct (wf_dir_inv _ _ _ Hwf) as (Hnames & Hdist & Hsub).
    unfold visits. destruct a; [| reflexivity].
    cbn [FS.walk_tree FS.files_under flat_map].
    rewrite !map_app. f_equal.
    + unfold FS.filenames. rewrite !map_map. apply map_ext_in.
      intros [name f] Hin. cbn [fst snd].
      apply filter_In in Hin as [Hin _].
      rewrite Forall_forall in Hnames. pose proof (Hnames _ Hin) as Hok. cbn [fst] in Hok.
      rewrite (stat_join _ _ _ _ _ _ _ Hok Hloc Hlook), (In_find_entry _ _ _ Hdist Hin).
      f_equal. apply relpath_below.
      * destruct rel; discriminate.
      * now rewrite (abs_comps_join _ _ _ Hok), Habs, app_assoc.
    + apply (map_flat_map_pointwise
               (fun '(base, name) =>
                  (posixpath.relpath cwd (posixpath.join base name) root_dir,
                   FS.stat fs cwd (posixpath.join base name)))
               (fun '(p, f) => (String.concat "/" (rel ++ p), Some f))
               (fun '(base, _, files) => map (pair base) files)
               (fun '(name, sub) => FS.walk_tree (posixpath.join top name) sub)
               (fun '(name, sub) =>
                  map (fun '(p, f) => (name :: p, f)) (FS.files_under sub))).
      intros [name sub] Hin.
      rewrite Forall_forall in IH, Hnames, Hsub.
      pose proof (Hnames _ Hin) as Hok. cbn [fst] in Hok.
      pose proof (IH _ Hin) as IHsub. cbn [snd] in IHsub.
      unfold visits in IHsub.
      rewrite (IHsub (posixpath.join top name) (d ++ [name])%list (rel ++ [name])%list).
      * rewrite map_map. apply map_ext. intros [p f]. now rewrite <- app_assoc.
      * apply (Hsub _ Hin).
      * apply (locate_join _ _ _ _ _ _ _ Hok Hloc Hlook).
      * rewrite lookup_app, Hlook. cbn [FS.lookup].
        now rewrite (In_find_entry _ _ _ Hdist Hin).
      * now rewrite (abs_comps_join _ _ _ Hok), Habs, app_assoc.
Qed.

Lemma stat_no_nul (fs : FS.node) (cwd : list string) (p : string) (n : FS.node) :
  FS.stat fs cwd p = Some n -> FS.has_nul p = false.
Proof.
  unfold FS.stat, FS.locate. destruct (FS.has_nul p); [| reflexivity].
  now rewrite orb_true_r.
Qed.

(** The two nested loops visit the regular files below the root in the
    order of the walk and record each under the key of its path. *)
Lemma generate_sha256_map_files (fs : FS.node) (cwd : list string) (root_dir : string) :
  FS.wf fs = true ->
  gen_sha256.generate_sha256_map fs cwd root_dir
  = if FS.has_nul (posixpath.abspath cwd root_dir) then Raise ValueError
    else for_each (files_below fs cwd root_dir) record_file [].
Proof.
  intros Hwf. unfold gen_sha256.generate_sha256_map, files_below, FS.walk.
  set (root := posixpath.abspath cwd root_dir).
  destruct (FS.has_nul root); [reflexivity |]. cbn [bind].
  transitivity
    (for_each
       (match FS.stat fs cwd root with
        | Some n => visits root n
        | None => []
        end)
       (fun result '(base, name) =>
          bind (gen_sha256.sha256_file fs cwd (posixpath.join base name))
               (fun digest =>
                  Ok (Dict.set result
                        (Str.replace Str.backslash Str.slash
                           (posixpath.relpath cwd (posixpath.join base name) root))
                        digest)))
       []).
  { destruct (FS.stat fs cwd root) as [n |]; [| reflexivity].
    unfold visits.
    rewrite <- (for_each_nested (fun '(base, _, files) => map (pair base) files)).
    apply for_each_ext. intros s [[base dirs] files] _.
    now rewrite for_each_map. }
  destruct (FS.stat fs cwd root) as [n |] eqn:Hstat; [| reflexivity].
  unfold FS.stat in Hstat.
  destruct (FS.locate fs cwd root) as [d |] eqn:Hloc; [| discriminate].
  pose proof (visits_files fs cwd root n root d [] (wf_lookup _ _ _ Hwf Hstat) Hloc Hstat) as V.
  rewrite app_nil_r in V. specialize (V eq_refl).
  transitivity
    (for_each
       (map (fun '(base, name) =>
               (posixpath.relpath cwd (posixpath.join base name) root,
                FS.stat fs cwd (posixpath.join base name)))
            (visits root n))
       (fun result (ks : string * option FS.node) =>
          match snd ks with
          | Some (FS.File true _ content) =>
              Ok (Dict.set result (Str.replace Str.backslash Str.slash (fst ks))
                           (SHA256.hexdigest content))
          | _ => Raise OSError
          end)
       []).
  { rewrite for_each_map. apply for_each_ext. intros s [base name] Hin. cbn [fst snd].
    rewrite sha256_file_stat.
    apply (in_map (fun '(base, name) =>
                     (posixpath.relpath cwd (posixpath.join base name) root,
                      FS.stat fs cwd (posixpath.join base name)))) in Hin.
    rewrite V in Hin. apply in_map_iff in Hin as ([p f] & E & _).
    injection E as _ E. rewrite (stat_no_nul _ _ _ _ (eq_sym E)).
    destruct (FS.stat fs cwd (posixpath.join base name)) as [[[|] ? ? | ? ? ?] |]; reflexivity. }
  rewrite V, for_each_map. apply for_each_ext. intros s [p f] _.
  unfold record_file, key_of. cbn [fst snd app]. reflexivity.
Qed.
End GenSha256.

(** ** dict *)

Section DictFacts.
Local Open Scope string_scope.

Lemma dict_get_set (d : Dict.t) (k v k' : string) :
  Dict.get (Dict.set d k v) k' = if k =? k' then Some v else Dict.get d k'.
Proof.
  induction d as [| [k0 v0] d IH]; cbn [Dict.set Dict.get].
  - destruct (String.eqb_spec k k'); reflexivity.
  - destruct (String.eqb_spec k0 k) as [E | E]; cbn [Dict.get].
    + subst k0. destruct (String.eqb_spec k k'); reflexivity.
    + rewrite IH. destruct (String.eqb_spec k0 k'), (String.eqb_spec k k'); congruence.
Qed.

Lemma dict_keys_set (d : Dict.t) (k v : string) :
  Dict.keys (Dict.set d k v)
  = if existsb (String.eqb k) (Dict.keys d) then Dict.keys d else (Dict.keys d ++ [k])%list.
Proof.
  unfold Dict.keys. induction d as [| [k0 v0] d IH]; cbn [Dict.set map fst existsb]; [reflexivity |].
  rewrite (String.eqb_sym k k0).
  destruct (k0 =? k); cbn [map fst orb]; [reflexivity |].
  rewrite IH. now destruct (existsb (String.eqb k) (map fst d)).
Qed.

Lemma existsb_eqb_In (k : string) (l : list string) :
  existsb (String.eqb k) l = true <-> In k l.
Proof.
  rewrite existsb_exists. split.
  - intros (x & Hx & E). apply String.eqb_eq in E. now subst.
  - intros H. exists k. split; [exact H | apply String.eqb_refl].
Qed.

Lemma dict_set_NoDup (d : Dict.t) (k v : string) :
  NoDup (Dict.keys d) -> NoDup (Dict.keys (Dict.set d k v)).
Proof.
  intros H. rewrite dict_keys_set.
  destruct (existsb (String.eqb k) (Dict.keys d)) eqn:E; [exact H |].
  apply NoDup_app; [exact H | repeat constructor; intros [] |].
  intros x Hx [<- | []].
  apply existsb_eqb_In in Hx. congruence.
Qed.

Lemma assign_all_NoDup (l : list (string * string)) (d : Dict.t) :
  NoDup (Dict.keys d) -> NoDup (Dict.keys (assign_all l d)).
Proof.
  revert d. induction l as [| kv l IH]; intros d H; [exact H |].
  apply IH. now apply dict_set_NoDup.
Qed.

(** A key all of whose assignments carry one value ends with that value. *)
Lemma assign_all_get (l : list (string * string)) (k v : string) :
  (forall v', In (k, v') l -> v' = v) ->
  forall d, In (k, v) l \/ Dict.get d k = Some v ->
  Dict.get (assign_all l d) k = Some v.
Proof.
  induction l as [| [k1 v1] l IH]; intros Hsame d Hin.
  - destruct Hin as [[] | H]. exact H.
  - cbn [assign_all fold_left fst snd]. apply IH.
    + intros v' Hv'. apply Hsame. now right.
    + rewrite dict_get_set. destruct (String.eqb_spec k1 k) as [E | E].
      * right. subst k1. f_equal. apply Hsame. now left.
      * destruct Hin as [[H | H] | H]; [congruence | now left | now right].
Qed.

Lemma dict_get_In (d : Dict.t) (k v : string) : Dict.get d k = Some v -> In k (Dict.keys d).
Proof.
  induction d as [| [k0 v0] d IH]; cbn; [discriminate |].
  destruct (String.eqb_spec k0 k); [now left | intros H; right; now apply IH].
Qed.

Lemma count_occ_NoDup_In (l : list string) (k : string) :
  NoDup l -> In k l -> count_occ string_dec l k = 1.
Proof.
  intros Hnd Hin. rewrite NoDup_count_occ with (decA := string_dec) in Hnd.
  apply (count_occ_In string_dec) in Hin. specialize (Hnd k). lia.
Qed.

(** Pairs with distinct keys, none of them in the dict, are appended
    in order. *)
Lemma assign_all_fresh (l : list (string * string)) (d : Dict.t) :
  NoDup (Dict.keys d ++ map fst l) -> assign_all l d = (d ++ l)%list.
Proof.
  revert d. induction l as [| [k v] l IH]; intros d H; cbn [assign_all fold_left fst snd].
  - now rewrite app_nil_r.
  - assert (Hset : Dict.set d k v = (d ++ [(k, v)])%list).
    { cbn [map fst] in H. apply NoDup_remove_2 in H.
      assert (Hk : ~ In k (Dict.keys d)) by (intros Hk; apply H; apply in_or_app; now left).
      clear H IH. induction d as [| [k0 v0] d IHd]; cbn [Dict.set app]; [reflexivity |].
      destruct (String.eqb_spec k0 k) as [E | E].
      - exfalso. apply Hk. now left.
      - rewrite IHd; [reflexivity |]. intros Hin. apply Hk. now right. }
    fold (assign_all l (Dict.set d k v)). rewrite IH.
    + rewrite Hset, <- app_assoc. reflexivity.
    + rewrite Hset. unfold Dict.keys in *. rewrite map_app, <- app_assoc. exact H.
Qed.
End DictFacts.

Section TreeFiles.
Local Open Scope string_scope.

Lemma lookup_file_nil (r w : bool) (c : list byte) (p : list string) (x : FS.node) :
  FS.lookup (FS.File r w c) p = Some x -> p = [].
Proof. destruct p; [reflexivity | discriminate]. Qed.

(** A regular file that a path reaches is one of the files of the walk. *)
Lemma lookup_files_under (p : list string) :
  forall (n f : FS.node),
    p <> [] -> FS.lookup n p = Some f -> FS.is_dir f = false ->
    In (p, f) (FS.files_under n).
Proof.
  induction p as [| c p IH]; intros n f Hp Hl Hf; [congruence |].
  destruct n as [| [|] w es]; try discriminate Hl. cbn [FS.lookup] in Hl.
  destruct (FS.find_entry c es) as [x |] eqn:E; [| discriminate].
  apply find_entry_In in E. cbn [FS.files_under]. apply in_or_app.
  destruct p as [| c' p].
  - left. injection Hl as ->. apply in_map_iff. exists (c, f). split; [reflexivity |].
    apply filter_In. split; [exact E |]. cbn [snd]. now rewrite Hf.
  - right. apply in_flat_map. exists (c, x). split; [exact E |].
    apply in_map_iff. exists (c' :: p, f). split; [reflexivity |].
    apply IH; [discriminate | exact Hl | exact Hf].
Qed.

(** Conversely every file of the walk is reached by its path. *)
Lemma files_under_lookup (n : FS.node) :
  forall (q : list string) (f : FS.node),
    FS.wf n = true -> In (q, f) (FS.files_under n) ->
    q <> [] /\ FS.lookup n q = Some f /\ FS.is_dir f = false.
Proof.
  induction n as [r w c | a w es IH] using FS.node_ind; intros q f Hwf Hin; [destruct Hin |].
  destruct (wf_dir_inv _ _ _ Hwf) as (_ & Hdist & Hsub).
  destruct a; [| destruct Hin].
  cbn [FS.files_under] in Hin. apply in_app_or in Hin as [Hin | Hin].
  - apply in_map_iff in Hin as ([name x] & [= <- <-] & Hx).
    apply filter_In in Hx as [Hx Hd]. cbn [fst snd] in *.
    repeat split; [discriminate | | now apply negb_true_iff in Hd].
    cbn [FS.lookup]. now rewrite (In_find_entry _ _ _ Hdist Hx).
  - apply in_flat_map in Hin as ([name sub] & Hsubin & Hin).
    apply in_map_iff in Hin as ([p g] & [= <- <-] & Hpg).
    rewrite Forall_forall in IH, Hsub.
    destruct (IH _ Hsubin p g (Hsub _ Hsubin) Hpg) as (_ & Hl & Hd).
    repeat split; [discriminate | | exact Hd].
    cbn [FS.lookup]. now rewrite (In_find_entry _ _ _ Hdist Hsubin).
Qed.
End TreeFiles.

Section GenSha256Claims.
Local Open Scope string_scope.

Lemma for_each_record (files : list (list string * FS.node)) (d : Dict.t) :
  for_each files record_file d
  = if forallb readable files then Ok (assign_all (map digest_entry files) d)
    else Raise OSError.
Proof.
  revert d. induction files as [| [p f] files IH]; intros d; [reflexivity |].
  cbn [for_each forallb map assign_all fold_left].
  unfold record_file at 1, readable at 1. cbn [fst snd].
  destruct f as [[|] w c | a w es]; cbn [bind andb]; try reflexivity.
  rewrite IH. reflexivity.
Qed.

Lemma generate_sha256_map_cases (fs : FS.node) (cwd : list string) (root_dir : string) :
  FS.wf fs = true ->
  gen_sha256.generate_sha256_map fs cwd root_dir
  = if FS.has_nul (posixpath.abspath cwd root_dir) then Raise ValueError
    else if forallb readable (files_below fs cwd root_dir)
         then Ok (assign_all (map digest_entry (files_below fs cwd root_dir)) [])
         else Raise OSError.
Proof.
  intros Hwf. rewrite (generate_sha256_map_files _ _ _ Hwf).
  destruct (FS.has_nul (posixpath.abspath cwd root_dir)); [reflexivity |].
  apply for_each_record.
Qed.

(** Keys of names without backslashes: the key tells the path. *)
Lemma replace_without (a b : ascii) (s : string) :
  Str.contains a s = false -> Str.replace a b s = s.
Proof.
  induction s as [| c s IH]; cbn [Str.contains Str.replace]; [reflexivity |].
  intros H. apply orb_false_iff in H as [Hc Hs].
  rewrite Hc, (IH Hs). reflexivity.
Qed.

Lemma contains_concat (a : ascii) (p : list string) :
  Str.contains a "/" = false ->
  Forall (fun c => Str.contains a c = false) p ->
  Str.contains a (String.concat "/" p) = false.
Proof.
  intros Hsep. induction 1 as [| c p Hc Hp IH]; [reflexivity |].
  destruct p as [| c' p]; [exact Hc |].
  change (String.concat "/" (c :: c' :: p)) with (c ++ "/" ++ String.concat "/" (c' :: p)).
  rewrite !contains_app, Hc, Hsep, IH. reflexivity.
Qed.

Lemma lookup_names (p : list string) :
  forall n x, FS.wf n = true -> FS.lookup n p = Some x ->
              Forall (fun c => FS.name_ok c = true) p.
Proof.
  induction p as [| c p IH]; intros n x Hwf Hl; [constructor |].
  destruct n as [| [|] w es]; try discriminate Hl. cbn [FS.lookup] in Hl.
  destruct (FS.find_entry c es) as [y |] eqn:E; [| discriminate].
  apply find_entry_In in E.
  destruct (wf_dir_inv _ _ _ Hwf) as (Hnames & _ & Hsub).
  rewrite Forall_forall in Hnames, Hsub.
  constructor.
  - apply (Hnames _ E).
  - apply (IH y x); [apply (Hsub _ E) | exact Hl].
Qed.

(** A name ends where the next separator stands. *)
Lemma name_then_rest (a b x y : string) :
  Str.contains Str.slash a = false -> Str.contains Str.slash b = false ->
  (x = "" \/ exists r, x = String "/" r) ->
  (y = "" \/ exists r, y = String "/" r) ->
  a ++ x = b ++ y -> a = b /\ x = y.
Proof.
  revert b. induction a as [| c a IH]; intros b Ha Hb Hx Hy E.
  - destruct b as [| d b]; [now split |].
    cbn [append] in E. cbn [Str.contains] in Hb. apply orb_false_iff in Hb as [Hd _].
    destruct Hx as [-> | [r ->]]; [discriminate E |].
    injection E as Ed _. subst d. discriminate Hd.
  - cbn [Str.contains] in Ha. apply orb_false_iff in Ha as [Hc Ha].
    destruct b as [| d b].
    + cbn [append] in E.
      destruct Hy as [-> | [r ->]]; [discriminate E |].
      injection E as Ec _. subst c. discriminate Hc.
    + cbn [append] in E. injection E as -> E.
      cbn [Str.contains] in Hb. apply orb_false_iff in Hb as [_ Hb].
      destruct (IH b Ha Hb Hx Hy E) as [-> ->]. now split.
Qed.

Lemma concat_cons (c : string) (p : list string) :
  String.concat "/" (c :: p)
  = c ++ match p with [] => "" | _ :: _ => String "/" (String.concat "/" p) end.
Proof.
  destruct p as [| c' p]; cbn [String.concat].
  - now rewrite sapp_nil_r.
  - reflexivity.
Qed.

Lemma concat_names_inj (p : list string) :
  forall q,
    Forall (fun c => FS.name_ok c = true) p -> Forall (fun c => FS.name_ok c = true) q ->
    String.concat "/" p = String.concat "/" q -> p = q.
Proof.
  induction p as [| c p IH]; intros q Hp Hq E.
  - destruct q as [| d q]; [reflexivity |].
    inversion Hq as [| ? ? Hd _]; subst. apply name_ok_inv in Hd as (Hne & _).
    rewrite concat_cons in E. cbn [String.concat] in E.
    destruct d; [congruence | discriminate E].
  - inversion Hp as [| ? ? Hc Hp']; subst.
    destruct (name_ok_inv _ Hc) as (Hne & _ & _ & Hcs).
    destruct q as [| d q].
    + rewrite concat_cons in E. cbn [String.concat] in E.
      destruct c; [congruence | discriminate E].
    + inversion Hq as [| ? ? Hd Hq']; subst.
      destruct (name_ok_inv _ Hd) as (_ & _ & _ & Hds).
      rewrite !concat_cons in E.
      apply name_then_rest in E as [-> E]; try assumption.
      * f_equal. destruct p as [| c' p], q as [| d' q]; try discriminate E; [reflexivity |].
        injection E as E. now apply IH.
      * destruct p; [now left | right; eauto].
      * destruct q; [now left | right; eauto].
Qed.

(** Below a well-formed root whose names hold no backslash, two paths
    with one key are one path. *)
Lemma key_of_unique (root x y : FS.node) (p q : list string) :
  FS.wf root = true ->
  FS.lookup root p = Some x -> FS.lookup root q = Some y ->
  Forall (fun c => Str.contains Str.backslash c = false) p ->
  Forall (fun c => Str.contains Str.backslash c = false) q ->
  key_of p = key_of q -> p = q.
Proof.
  intros Hwf Hp Hq Bp Bq E. unfold key_of in E.
  rewrite !replace_without in E by (apply contains_concat; [reflexivity | assumption]).
  apply concat_names_inj; [apply (lookup_names _ _ _ Hwf Hp) | apply (lookup_names _ _ _ Hwf Hq) | exact E].
Qed.

Lemma dict_get_iff_In (d : Dict.t) (k v : string) :
  NoDup (Dict.keys d) -> (Dict.get d k = Some v <-> In (k, v) d).
Proof.
  induction d as [| [k0 v0] d IH]; cbn [Dict.get Dict.keys map fst]; intros Hnd.
  - split; [discriminate | intros []].
  - inversion Hnd as [| ? ? Hk0 Hnd']; subst.
    destruct (String.eqb_spec k0 k) as [E | E].
    + subst k0. split.
      * intros [= ->]. now left.
      * intros [[= ->] | Hin]; [reflexivity |].
        exfalso. apply Hk0. apply (in_map fst) in Hin. exact Hin.
    + rewrite (IH Hnd'). split.
      * intros H. now right.
      * intros [[= -> ->] | Hin]; [congruence | exact Hin].
Qed.

(** C1 (amended).  When DirectoryDigestMapper produces a mapping, every
    regular file below the root that is reached through directories that
    can be listed, and whose key (its path relative to the root, joined
    with forward slashes, backslashes replaced by forward slashes) is the
    key of no other such file, has exactly one entry in the mapping,
    under that key, and the value is the hexadecimal SHA-256 digest of
    the file's whole content. *)
Theorem gen_sha256_entry_of_file
        (fs : FS.node) (cwd : list string) (directory : string) (root : FS.node)
        (m : Dict.t) (p : list string) (r w : bool) (content : list byte) :
  FS.wf fs = true ->
  FS.stat fs cwd (posixpath.abspath cwd directory) = Some root ->
  gen_sha256.generate_sha256_map fs cwd directory = Ok m ->
  p <> [] ->
  FS.lookup root p = Some (FS.File r w content) ->
  (forall q r' w' c',
      q <> [] -> FS.lookup root q = Some (FS.File r' w' c') -> key_of q = key_of p -> q = p) ->
  Dict.get m (key_of p) = Some (SHA256.hexdigest content)
  /\ count_occ string_dec (Dict.keys m) (key_of p) = 1.
Proof.
  intros Hwf Hroot Hrun Hp Hfile Huniq.
  rewrite (generate_sha256_map_cases _ _ _ Hwf) in Hrun.
  destruct (FS.has_nul (posixpath.abspath cwd directory)); [discriminate |].
  unfold files_below in Hrun. rewrite Hroot in Hrun.
  destruct (forallb readable (FS.files_under root)); [| discriminate].
  injection Hrun as <-.
  assert (Hwfr : FS.wf root = true).
  { unfold FS.stat in Hroot.
    destruct (FS.locate fs cwd (posixpath.abspath cwd directory)); [| discriminate].
    apply (wf_lookup _ _ _ Hwf Hroot). }
  assert (Hget : Dict.get (assign_all (map digest_entry (FS.files_under root)) [])
                          (key_of p) = Some (SHA256.hexdigest content)).
  { apply assign_all_get.
    - intros v' Hv'. apply in_map_iff in Hv' as ([q f] & [= Hk <-] & Hq).
      destruct (files_under_lookup _ _ _ Hwfr Hq) as (Hq0 & Hlq & Hdq).
      destruct f as [r' w' c' | ? ? ?]; [| discriminate].
      rewrite (Huniq q r' w' c' Hq0 Hlq Hk) in Hlq. rewrite Hfile in Hlq.
      injection Hlq as <- <- <-. reflexivity.
    - left. apply in_map_iff. exists (p, FS.File r w content). split; [reflexivity |].
      now apply lookup_files_under. }
  split; [exact Hget |].
  apply count_occ_NoDup_In.
  - apply assign_all_NoDup. constructor.
  - apply (dict_get_In _ _ _ Hget).
Qed.

Example gen_sha256_scenario :
  gen_sha256.generate_sha256_map demo_fs [] "/proj"
  = Ok [("a.txt", "2cf24dba5fb0a30e26e83b2ac5b9e29e1b161e5c1fa7425e73043362938b9824");
        ("sub/b.txt", "486ea46224d1bb4fb680f34f7c9ad96a8f24ec88be73ea8e5a6c65260e9cb8a7")].
Proof. vm_compute. reflexivity. Qed.

(** Case analysis on the first name of a path looked up in a listed
    directory. *)
Ltac first_name q H :=
  destruct q as [| ?c q]; [try discriminate H; try congruence |];
  cbn [FS.lookup FS.find_entry] in H;
  repeat match type of H with
         | context [String.eqb ?a ?b] =>
             destruct (String.eqb_spec a b); [subst |]
         end;
  try discriminate H.

Lemma gen_sha256_entry_of_file_witness :
  Dict.get [("a.txt", "2cf24dba5fb0a30e26e83b2ac5b9e29e1b161e5c1fa7425e73043362938b9824");
            ("sub/b.txt", "486ea46224d1bb4fb680f34f7c9ad96a8f24ec88be73ea8e5a6c65260e9cb8a7")]
           (key_of ["sub"; "b.txt"])
  = Some (SHA256.hexdigest (bytes_of "world"))
  /\ count_occ string_dec
       (Dict.keys
          [("a.txt", "2cf24dba5fb0a30e26e83b2ac5b9e29e1b161e5c1fa7425e73043362938b9824");
           ("sub/b.txt", "486ea46224d1bb4fb680f34f7c9ad96a8f24ec88be73ea8e5a6c65260e9cb8a7")])
       (key_of ["sub"; "b.txt"]) = 1.
Proof.
  apply (gen_sha256_entry_of_file demo_fs [] "/proj" demo_root _ ["sub"; "b.txt"] true true
                                  (bytes_of "world")).
  - reflexivity.
  - reflexivity.
  - vm_compute. reflexivity.
  - discriminate.
  - reflexivity.
  - intros q r' w' c' _ Hq Hk. unfold demo_root in Hq.
    first_name q Hq.
    + destruct q; [vm_compute in Hk; discriminate Hk | discriminate Hq].
    + first_name q Hq. destruct q; [reflexivity | discriminate Hq].
    + destruct q; discriminate Hq.
Defined.

(** C1 as stated fails, in three ways.  The mapping produced for
    [clash_fs] holds, under the key of the regular file [a\b], the digest
    of another file.  The mapping produced for [demo_fs] has no entry for
    the regular file [locked/c.txt] of the subtree.  For [locked_fs],
    where one file is unreadable, no mapping is produced. *)
Lemma gen_sha256_entry_counterexample :
  (below clash_fs ["r"; "a\b"] = Some (FS.File true true (bytes_of "x"))
   /\ exists m,
       gen_sha256.generate_sha256_map clash_fs [] "/r" = Ok m
       /\ Dict.get m (key_of ["a\b"]) <> Some (SHA256.hexdigest (bytes_of "x")))
  /\ (below demo_fs ["proj"; "locked"; "c.txt"]
      = Some (FS.File true true (bytes_of "secret"))
      /\ exists m,
          gen_sha256.generate_sha256_map demo_fs [] "/proj" = Ok m
          /\ Dict.get m (key_of ["locked"; "c.txt"]) = None)
  /\ (below locked_fs ["proj"; "a.txt"] = Some (FS.File true true (bytes_of "hello"))
      /\ gen_sha256.generate_sha256_map locked_fs [] "/proj" = Raise OSError).
Proof.
  split; [| split].
  - split; [reflexivity |].
    eexists. split; [vm_compute; reflexivity |]. vm_compute. discriminate.
  - split; [reflexivity |].
    eexists. split; [vm_compute; reflexivity |]. vm_compute. reflexivity.
  - split; [reflexivity | vm_compute; reflexivity].
Qed.

(** C2 (amended).  Two enumeration orders of the same files, no two of
    which share a key, give DirectoryDigestMapper mappings with the same
    entries: one is a rearrangement of the other and every key has the
    same digest in both.  (The serialized text lists the entries in
    enumeration order.)  The second root is a path: it holds no NUL
    character. *)
Theorem gen_sha256_order_of_walk
        (fs1 fs2 : FS.node) (cwd1 cwd2 : list string) (dir1 dir2 : string) (m1 : Dict.t) :
  FS.wf fs1 = true -> FS.wf fs2 = true ->
  FS.has_nul (posixpath.abspath cwd2 dir2) = false ->
  Permutation (files_below fs1 cwd1 dir1) (files_below fs2 cwd2 dir2) ->
  NoDup (map key_of (map fst (files_below fs1 cwd1 dir1))) ->
  gen_sha256.generate_sha256_map fs1 cwd1 dir1 = Ok m1 ->
  exists m2,
    gen_sha256.generate_sha256_map fs2 cwd2 dir2 = Ok m2
    /\ Permutation m1 m2
    /\ forall k, Dict.get m1 k = Dict.get m2 k.
Proof.
  intros Hwf1 Hwf2 Hnul Hperm Hkeys Hrun.
  rewrite (generate_sha256_map_cases _ _ _ Hwf1) in Hrun.
  rewrite (generate_sha256_map_cases _ _ _ Hwf2), Hnul.
  destruct (FS.has_nul (posixpath.abspath cwd1 dir1)); [discriminate |].
  set (l1 := files_below fs1 cwd1 dir1) in *.
  set (l2 := files_below fs2 cwd2 dir2) in *.
  destruct (forallb readable l1) eqn:R1; [| discriminate]. injection Hrun as <-.
  assert (R2 : forallb readable l2 = true).
  { rewrite forallb_forall in *. intros x Hx. apply R1.
    apply (Permutation_in _ (Permutation_sym Hperm) Hx). }
  rewrite R2.
  assert (K1 : NoDup (map fst (map digest_entry l1))) by (now rewrite map_map in *).
  assert (P12 : Permutation (map digest_entry l1) (map digest_entry l2))
    by now apply Permutation_map.
  assert (K2 : NoDup (map fst (map digest_entry l2))).
  { apply (Permutation_NoDup (l := map fst (map digest_entry l1))); [| exact K1].
    now apply Permutation_map. }
  rewrite (assign_all_fresh (map digest_entry l1) []) by exact K1.
  rewrite (assign_all_fresh (map digest_entry l2) []) by exact K2.
  cbn [app]. eexists. split; [reflexivity |]. split; [exact P12 |].
  intros k.
  destruct (Dict.get (map digest_entry l1) k) as [v |] eqn:G1.
  - symmetry. apply (dict_get_iff_In _ _ _ K2).
    apply (Permutation_in _ P12). now apply (dict_get_iff_In _ _ _ K1).
  - destruct (Dict.get (map digest_entry l2) k) as [v |] eqn:G2; [| reflexivity].
    apply (dict_get_iff_In _ _ _ K2) in G2.
    apply (Permutation_in _ (Permutation_sym P12)) in G2.
    apply (dict_get_iff_In _ _ _ K1) in G2. congruence.
Qed.

Lemma gen_sha256_order_of_walk_witness :
  exists m2,
    gen_sha256.generate_sha256_map listed_ba [] "/" = Ok m2
    /\ Permutation
         [("a", "6b86b273ff34fce19d6b804eff5a3f5747ada4eaa22f1d49c01e52ddb7875b4b");
          ("b", "d4735e3a265e16eee03f59718b9b5d03019c07d8b6c51f90da3a666eec13ab35")] m2
    /\ forall k,
        Dict.get
          [("a", "6b86b273ff34fce19d6b804eff5a3f5747ada4eaa22f1d49c01e52ddb7875b4b");
           ("b", "d4735e3a265e16eee03f59718b9b5d03019c07d8b6c51f90da3a666eec13ab35")] k
        = Dict.get m2 k.
Proof.
  apply (gen_sha256_order_of_walk listed_ab listed_ba [] [] "/" "/").
  - reflexivity.
  - reflexivity.
  - reflexivity.
  - vm_compute. apply perm_swap.
  - vm_compute. repeat constructor; cbn; intuition discriminate.
  - vm_compute. reflexivity.
Defined.

(** C2 as stated fails: the two listings hold the same files, and the
    texts DirectoryDigestMapper prints and saves for them differ. *)
Lemma gen_sha256_order_counterexample :
  Permutation (FS.files_under listed_ab) (FS.files_under listed_ba)
  /\ files_written (gen_sha256.main listed_ab [] ["gen_sha256.py"; "/"])
     <> files_written (gen_sha256.main listed_ba [] ["gen_sha256.py"; "/"])
  /\ stdout (gen_sha256.main listed_ab [] ["gen_sha256.py"; "/"])
     <> stdout (gen_sha256.main listed_ba [] ["gen_sha256.py"; "/"]).
Proof.
  split; [vm_compute; apply perm_swap |].
  split; vm_compute; intros H; discriminate H.
Qed.

(** C5 (amended).  When some regular file that the walk reaches (every
    directory on the way to it can be listed) cannot be read, the run of
    DirectoryDigestMapper ends with the uncaught error: no mapping is
    produced, nothing is printed on standard output, no file is written,
    the status is 1. *)
Theorem gen_sha256_unreadable_file_aborts
        (fs : FS.node) (cwd : list string) (prog directory : string) (more : list string)
        (root : FS.node) (p : list string) (w : bool) (content : list byte) :
  FS.wf fs = true ->
  FS.stat fs cwd (posixpath.abspath cwd directory) = Some root ->
  p <> [] ->
  FS.lookup root p = Some (FS.File false w content) ->
  gen_sha256.generate_sha256_map fs cwd directory = Raise OSError
  /\ gen_sha256.main fs cwd (prog :: directory :: more)
     = Outcome [] [Traceback OSError] [] 1.
Proof.
  intros Hwf Hroot Hp Hfile.
  assert (Hmap : gen_sha256.generate_sha256_map fs cwd directory = Raise OSError).
  { rewrite (generate_sha256_map_cases _ _ _ Hwf), (stat_no_nul _ _ _ _ Hroot).
    unfold files_below. rewrite Hroot.
    assert (Hin : In (p, FS.File false w content) (FS.files_under root))
      by now apply lookup_files_under.
    destruct (forallb readable (FS.files_under root)) eqn:R; [| reflexivity].
    rewrite forallb_forall in R. specialize (R _ Hin). discriminate R. }
  split; [exact Hmap |].
  unfold gen_sha256.main. rewrite Hmap. reflexivity.
Qed.

Lemma gen_sha256_unreadable_file_aborts_witness :
  gen_sha256.generate_sha256_map locked_fs [] "/proj" = Raise OSError
  /\ gen_sha256.main locked_fs [] ["gen_sha256.py"; "/proj"]
     = Outcome [] [Traceback OSError] [] 1.
Proof.
  apply (gen_sha256_unreadable_file_aborts
           locked_fs [] "gen_sha256.py" "/proj" []
           (FS.Dir true true
              [("a.txt", FS.File true true (bytes_of "hello"));
               ("sub", FS.Dir true true [("b.txt", FS.File false true (bytes_of "secret"))])])
           ["sub"; "b.txt"] true (bytes_of "secret")).
  - reflexivity.
  - reflexivity.
  - discriminate.
  - reflexivity.
Defined.

(** C5 as stated fails: below the root of [hidden_fs] the file
    [locked/c.txt] is unreadable, and the run ends with status 0, the
    mapping of the other file printed and saved. *)
Lemma gen_sha256_unreadable_counterexample :
  below hidden_fs ["proj"; "locked"; "c.txt"]
  = Some (FS.File false true (bytes_of "secret"))
  /\ gen_sha256.generate_sha256_map hidden_fs [] "/proj"
     = Ok [("a.txt", "2cf24dba5fb0a30e26e83b2ac5b9e29e1b161e5c1fa7425e73043362938b9824")]
  /\ exists text,
      gen_sha256.main hidden_fs [] ["gen_sha256.py"; "/proj"]
      = Outcome [Text text; Text gen_sha256.saved] [] [("sha256.json", text)] 0.
Proof.
  split; [reflexivity |]. split; [vm_compute; reflexivity |].
  eexists. vm_compute. reflexivity.
Qed.

(** C9 (amended).  Invoked with no directory argument,
    DirectoryDigestMapper prints the usage message on standard output
    (nothing on standard error), writes no file and exits with status 1. *)
Theorem gen_sha256_usage (fs : FS.node) (cwd : list string) (argv : list string) :
  List.length argv < 2 ->
  gen_sha256.main fs cwd argv = Outcome [Text gen_sha256.usage] [] [] 1.
Proof.
  intros H. destruct argv as [| prog [| directory more]]; try reflexivity.
  cbn [List.length] in H. lia.
Qed.

Lemma gen_sha256_usage_witness :
  gen_sha256.main demo_fs [] ["gen_sha256.py"] = Outcome [Text gen_sha256.usage] [] [] 1.
Proof.
  apply (gen_sha256_usage demo_fs [] ["gen_sha256.py"]). cbn [List.length]. lia.
Defined.

(** C9 as stated fails: without an argument nothing reaches standard
    error; the usage message is on standard output. *)
Lemma gen_sha256_usage_counterexample :
  stderr (gen_sha256.main demo_fs [] ["gen_sha256.py"]) = []
  /\ stdout (gen_sha256.main demo_fs [] ["gen_sha256.py"]) = [Text gen_sha256.usage].
Proof. split; reflexivity. Qed.

(** C10 (amended).  The root is never checked.  When its absolute form
    (the working directory joined with the argument, normalised as text)
    holds no NUL character and names nothing, or names something below
    which the walk reaches no regular file, and sha256.json can be
    created or overwritten in the working directory, the run prints the
    empty JSON object, saves it as sha256.json and exits with status 0. *)
Theorem gen_sha256_missing_root
        (fs fs' : FS.node) (cwd : list string) (prog directory : string)
        (more : list string) :
  FS.wf fs = true ->
  FS.has_nul (posixpath.abspath cwd directory) = false ->
  FS.stat fs cwd (posixpath.abspath cwd directory) = None
  \/ (exists root,
        FS.stat fs cwd (posixpath.abspath cwd directory) = Some root
        /\ forall p r w c, p <> [] -> FS.lookup root p <> Some (FS.File r w c)) ->
  FS.write_text fs cwd "sha256.json" "{}" = FS.Written fs' ->
  gen_sha256.main fs cwd (prog :: directory :: more)
  = Outcome [Text "{}"; Text gen_sha256.saved] [] [("sha256.json", "{}")] 0.
Proof.
  intros Hwf Hnul H Hwrite. unfold gen_sha256.main.
  rewrite (generate_sha256_map_files _ _ _ Hwf), Hnul. unfold files_below.
  assert (E : match FS.stat fs cwd (posixpath.abspath cwd directory) with
              | Some n => FS.files_under n
              | None => []
              end = []).
  { destruct H as [H | (root & H & Hnone)]; rewrite H; [reflexivity |].
    assert (Hwfr : FS.wf root = true).
    { unfold FS.stat in H.
      destruct (FS.locate fs cwd (posixpath.abspath cwd directory)); [| discriminate].
      apply (wf_lookup _ _ _ Hwf H). }
    destruct (FS.files_under root) as [| [q f] l] eqn:E; [reflexivity |].
    exfalso.
    destruct (files_under_lookup root q f Hwfr) as (Hq & Hl & Hd); [rewrite E; now left |].
    destruct f as [r w c | ? ? ?]; [| discriminate]. apply (Hnone _ _ _ _ Hq Hl). }
  rewrite E. cbn [for_each].
  change (json.dumps false false []) with "{}". rewrite Hwrite. reflexivity.
Qed.

(** A missing root, and a root where every file is out of reach. *)
Lemma gen_sha256_missing_root_witness :
  gen_sha256.main demo_fs [] ["gen_sha256.py"; "/nowhere"]
  = Outcome [Text "{}"; Text gen_sha256.saved] [] [("sha256.json", "{}")] 0
  /\ gen_sha256.main demo_fs [] ["gen_sha256.py"; "/proj/locked"]
     = Outcome [Text "{}"; Text gen_sha256.saved] [] [("sha256.json", "{}")] 0.
Proof.
  split.
  - apply (gen_sha256_missing_root demo_fs
             (FS.Dir true true [("proj", demo_root);
                                ("sha256.json", FS.File true true (bytes_of "{}"))])
             [] "gen_sha256.py" "/nowhere" []).
    + reflexivity.
    + reflexivity.
    + left. reflexivity.
    + reflexivity.
  - apply (gen_sha256_missing_root demo_fs
             (FS.Dir true true [("proj", demo_root);
                                ("sha256.json", FS.File true true (bytes_of "{}"))])
             [] "gen_sha256.py" "/proj/locked" []).
    + reflexivity.
    + reflexivity.
    + right. eexists. split; [reflexivity |].
      intros p r w c Hp Hl. destruct p; [congruence | discriminate Hl].
    + reflexivity.
Defined.

(** C10 as stated fails, in three ways.  The empty path and
    [nowhere/..] do not exist, and the run walks the working directory
    and prints its files.  In a working directory that takes no new file
    the run for a missing root ends with status 1 after printing the
    empty object.  A path with a NUL character does not exist either,
    and the walk raises [ValueError]: nothing is printed. *)
Lemma gen_sha256_missing_root_counterexample :
  (FS.exists_ demo_fs ["proj"] "" = false
   /\ FS.exists_ demo_fs ["proj"] "nowhere/.." = false
   /\ gen_sha256.generate_sha256_map demo_fs ["proj"] ""
      = Ok [("a.txt", "2cf24dba5fb0a30e26e83b2ac5b9e29e1b161e5c1fa7425e73043362938b9824");
            ("sub/b.txt", "486ea46224d1bb4fb680f34f7c9ad96a8f24ec88be73ea8e5a6c65260e9cb8a7")]
   /\ gen_sha256.generate_sha256_map demo_fs ["proj"] "nowhere/.."
      = gen_sha256.generate_sha256_map demo_fs ["proj"] "")
  /\ (FS.exists_ readonly_fs [] "/nowhere" = false
      /\ gen_sha256.main readonly_fs [] ["gen_sha256.py"; "/nowhere"]
         = Outcome [Text "{}"] [Traceback OSError] [] 1)
  /\ (FS.exists_ demo_fs [] (String Str.nul "") = false
      /\ gen_sha256.main demo_fs [] ["gen_sha256.py"; String Str.nul ""]
         = Outcome [] [Traceback ValueError] [] 1).
Proof.
  repeat split; vm_compute; reflexivity.
Qed.
End GenSha256Claims.

(** ** sorted *)

Section SortFacts.
Local Open Scope string_scope.

Lemma ascii_compare_refl (c : ascii) : Ascii.compare c c = Eq.
Proof. unfold Ascii.compare. apply N.compare_refl. Qed.

Lemma ascii_compare_trans (c : comparison) (x y z : ascii) :
  Ascii.compare x y = c -> Ascii.compare y z = c -> Ascii.compare x z = c.
Proof.
  unfold Ascii.compare. destruct c; intros H1 H2.
  - apply N.compare_eq_iff in H1, H2. apply N.compare_eq_iff. congruence.
  - rewrite N.compare_lt_iff in *. lia.
  - rewrite N.compare_gt_iff in *. lia.
Qed.

Lemma string_leb_trans (a b c : string) :
  String.leb a b = true -> String.leb b c = true -> String.leb a c = true.
Proof.
  unfold String.leb. revert b c.
  induction a as [| x a IH]; intros [| y b] [| z c]; cbn [String.compare];
    try reflexivity; try discriminate.
  destruct (Ascii.compare x y) eqn:Exy; try discriminate;
    destruct (Ascii.compare y z) eqn:Eyz; try discriminate; intros H1 H2.
  - rewrite (ascii_compare_trans Eq x y z Exy Eyz). now apply (IH b c).
  - apply Ascii.compare_eq_iff in Exy. subst y. now rewrite Eyz.
  - apply Ascii.compare_eq_iff in Eyz. subst z. now rewrite Exy.
  - now rewrite (ascii_compare_trans Lt x y z Exy Eyz).
Qed.

Lemma string_leb_false (a b : string) : String.leb a b = false -> String.leb b a = true.
Proof.
  intros H. destruct (String.leb_total a b) as [H' | H']; [congruence | exact H'].
Qed.



Lemma insert_Permutation (x : string) (l : list string) : Permutation (Str.insert x l) (x :: l).
Proof.
  induction l as [| a l IH]; cbn [Str.insert]; [reflexivity |].
  destruct (String.leb x a); [reflexivity |].
  rewrite IH. apply perm_swap.
Qed.

Lemma sorted_is_Permutation (l : list string) : Permutation (Str.sorted l) l.
Proof.
  induction l as [| x l IH]; cbn [Str.sorted fold_right]; [reflexivity |].
  fold (Str.sorted l). rewrite insert_Permutation. now constructor.
Qed.


End SortFacts.

(** ** generate_manifest.py *)

Section ManifestClaims.
Local Open Scope string_scope.
Import generate_manifest.

Lemma dict_set_key_In (d : Dict.t) (k v : string) : In k (Dict.keys (Dict.set d k v)).
Proof.
  rewrite dict_keys_set. destruct (existsb (String.eqb k) (Dict.keys d)) eqn:E.
  - now apply existsb_eqb_In.
  - apply in_or_app. right. now left.
Qed.

Lemma dict_set_keys_incl (d : Dict.t) (k v x : string) :
  In x (Dict.keys d) -> In x (Dict.keys (Dict.set d k v)).
Proof.
  intros H. rewrite dict_keys_set. destruct (existsb (String.eqb k) (Dict.keys d)); [exact H |].
  apply in_or_app. now left.
Qed.

Lemma assign_all_keys (l : list (string * string)) (d : Dict.t) (k : string) :
  In k (Dict.keys d) \/ In k (map fst l) -> In k (Dict.keys (assign_all l d)).
Proof.
  revert d. induction l as [| [k1 v1] l IH]; intros d H; cbn [assign_all fold_left fst snd].
  - destruct H as [H | []]. exact H.
  - apply IH. cbn [map fst] in H. destruct H as [H | [<- | H]].
    + left. now apply dict_set_keys_incl.
    + left. apply dict_set_key_In.
    + now right.
Qed.

Lemma assign_all_get_inv (l : list (string * string)) (d : Dict.t) (k v : string) :
  Dict.get (assign_all l d) k = Some v -> In (k, v) l \/ Dict.get d k = Some v.
Proof.
  revert d. induction l as [| [k1 v1] l IH]; intros d H; cbn [assign_all fold_left fst snd] in H.
  - now right.
  - apply IH in H as [H | H]; [left; now right |].
    rewrite dict_get_set in H. destruct (String.eqb_spec k1 k) as [E | E].
    + injection H as <-. subst k1. left. now left.
    + now right.
Qed.

Lemma getinfo_In (name : string) (zf : list zip_info) (i : zip_info) :
  getinfo name zf = Some i -> In i zf /\ filename i = name.
Proof.
  induction zf as [| a zf IH]; cbn [getinfo]; [discriminate |].
  destruct (getinfo name zf) as [j |].
  - intros [= <-]. destruct (IH eq_refl) as [H1 H2]. split; [now right | exact H2].
  - destruct (String.eqb_spec (filename a) name) as [E | E]; [| discriminate].
    intros [= <-]. split; [now left | exact E].
Qed.


Lemma hash_members_all (zf : list zip_info) (names : list string) :
  (forall n, In n names -> exists c, read_member zf n = Ok c) ->
  forall d out,
    hash_members zf names d out
    = ((out ++ map (fun n => Text (msg_hashed (normalized n))) names)%list,
       Ok (assign_all (map (member_entry zf) names) d)).
Proof.
  induction names as [| n names IH]; intros Hok d out; cbn [hash_members map].
  - now rewrite app_nil_r.
  - destruct (Hok n (or_introl eq_refl)) as [c Hc]. rewrite Hc.
    rewrite IH by (intros n' Hn'; apply Hok; now right).
    assert (Hm : member_entry zf n = (normalized n, SHA256.hexdigest c))
      by (unfold member_entry; now rewrite Hc).
    rewrite <- app_assoc. cbn [app assign_all fold_left]. rewrite Hm. reflexivity.
Qed.

Lemma hash_members_ok_inv (zf : list zip_info) (names : list string) :
  forall d out out' m,
    hash_members zf names d out = (out', Ok m) ->
    Forall (fun n => exists c, read_member zf n = Ok c) names.
Proof.
  induction names as [| n names IH]; intros d out out' m H; [constructor |].
  cbn [hash_members] in H. destruct (read_member zf n) as [c |] eqn:E; [| discriminate].
  constructor; [now exists c | exact (IH _ _ _ _ H)].
Qed.


Lemma filter_Permutation {A : Type} (f : A -> bool) (l1 l2 : list A) :
  Permutation l1 l2 -> Permutation (filter f l1) (filter f l2).
Proof.
  induction 1 as [| x l1 l2 _ IH | x y l | l1 l2 l3 _ IH1 _ IH2]; cbn [filter].
  - constructor.
  - destruct (f x); [now constructor | exact IH].
  - destruct (f x), (f y); try reflexivity. apply perm_swap.
  - now transitivity (filter f l2).
Qed.

Lemma file_names_In (zf : list zip_info) (n : string) :
  In n (Str.sorted (file_names zf)) <->
  exists info, In info zf /\ is_dir info = false /\ filename info = n.
Proof.
  split.
  - intros H. apply (Permutation_in _ (sorted_is_Permutation _)) in H.
    apply in_map_iff in H as (info & Hn & Hin). apply filter_In in Hin as [Hin Hd].
    exists info. repeat split; [exact Hin | now apply negb_true_iff in Hd | exact Hn].
  - intros (info & Hin & Hd & Hn).
    apply (Permutation_in _ (Permutation_sym (sorted_is_Permutation _))).
    apply in_map_iff. exists info. split; [exact Hn |].
    apply filter_In. split; [exact Hin | now rewrite Hd].
Qed.


Example manifest_scenario :
  generate_manifest "/assets/docs.zip" (Archive docs_zip)
  = Outcome
      [Text (msg_generating "/assets/docs.zip");
       Text (msg_hashed "LICENSE");
       Text (msg_hashed "docs/readme.txt");
       Text (msg_success "/assets/docs.json")]
      []
      [("/assets/docs.json",
        "{" ++ Str.newline
            ++ "  " ++ Str.quote ++ "LICENSE" ++ Str.quote ++ ": " ++ Str.quote
            ++ "a1fce4363854ff888cff4b8e7875d600c2682390412a8cf79b37d0b11148b0fa"
            ++ Str.quote ++ "," ++ Str.newline
            ++ "  " ++ Str.quote ++ "docs/readme.txt" ++ Str.quote ++ ": " ++ Str.quote
            ++ "2d711642b726b04401627ca9fbac32f5c8530fb1903cc4db02258717921a4881"
            ++ Str.quote ++ Str.newline ++ "}")]
      0.
Proof. vm_compute. reflexivity. Qed.



Lemma messages_differ (p q : string) : msg_not_found p <> msg_bad_zip q.
Proof. unfold msg_not_found, msg_bad_zip. cbn [append]. intros H. discriminate H. Qed.

(** C4.  A path that names nothing ends the run with status 1 and the
    not-found message; a file that is no zip archive ends it with status
    1 and the not-a-valid-zip message, which is never the not-found
    message, and no manifest is written.  A manifest is only ever written
    for an archive all of whose members that are no directories were
    read (and so hashed). *)
Theorem manifest_failures (zip_path : string) :
  generate_manifest zip_path Missing
  = Outcome [] [Text (msg_not_found zip_path)] [] 1
  /\ generate_manifest zip_path NotAZip
     = Outcome [Text (msg_generating zip_path)] [Text (msg_bad_zip zip_path)] [] 1
  /\ (forall other_path, msg_not_found other_path <> msg_bad_zip zip_path)
  /\ (forall target path text,
         In (path, text) (files_written (generate_manifest zip_path target)) ->
         exists zf,
           target = Archive zf
           /\ exit_code (generate_manifest zip_path target) = 0
           /\ forall info, In info zf -> is_dir info = false ->
                           exists c, read_member zf (filename info) = Ok c).
Proof.
  repeat split; try reflexivity.
  - intros other. apply messages_differ.
  - intros [| | | zf | zf] path text Hin; try (destruct Hin; fail).
    + exists zf. split; [reflexivity |].
      unfold generate_manifest, archive_of in *. fold (file_names zf) in *.
      destruct (hash_members zf (Str.sorted (file_names zf)) []
                             [Text (msg_generating zip_path)]) as [out [m | e]] eqn:E.
      * split; [reflexivity |]. intros info Hi Hd.
        apply hash_members_ok_inv in E. rewrite Forall_forall in E.
        apply E. apply file_names_In. now exists info.
      * destruct e; destruct Hin.
    + exfalso. unfold generate_manifest, archive_of in Hin.
      destruct (hash_members zf _ [] [Text (msg_generating zip_path)]) as [out [m | e]].
      * destruct Hin.
      * destruct e; destruct Hin.
Qed.

Example manifest_damaged_member :
  generate_manifest "a.zip"
    (Archive [ZipInfo "a" (Ok (bytes_of "1")); ZipInfo "b" (Raise BadZipFile)])
  = Outcome [Text (msg_generating "a.zip"); Text (msg_hashed "a")]
            [Text (msg_bad_zip "a.zip")] [] 1.
Proof. vm_compute. reflexivity. Qed.
End ManifestClaims.

(** ** Writing into the tree *)

Section WriteFacts.
Local Open Scope string_scope.

Lemma find_entry_replace (name c : string) (x : FS.node) (es : list (string * FS.node)) :
  FS.find_entry c (FS.replace_entry name x es)
  = if name =? c
    then match FS.find_entry name es with
         | Some _ => Some x
         | None => None
         end
    else FS.find_entry c es.
Proof.
  induction es as [| [n y] es IH]; cbn [FS.replace_entry FS.find_entry].
  - now destruct (name =? c).
  - destruct (String.eqb_spec n name) as [E | E]; cbn [FS.find_entry].
    + subst n. destruct (String.eqb_spec name c); reflexivity.
    + rewrite IH. destruct (String.eqb_spec n c) as [E' | E']; [| reflexivity].
      subst n. apply String.eqb_neq in E. rewrite String.eqb_sym in E. now rewrite E.
Qed.

Lemma find_entry_app (c : string) (es es' : list (string * FS.node)) :
  FS.find_entry c (es ++ es')
  = match FS.find_entry c es with
    | Some x => Some x
    | None => FS.find_entry c es'
    end.
Proof.
  induction es as [| [n y] es IH]; cbn [app FS.find_entry]; [reflexivity |].
  destruct (n =? c); [reflexivity | exact IH].
Qed.

Lemma view_at_cons_dir (w : bool) (es : list (string * FS.node)) (c : string) (q : list string) :
  view_at (FS.Dir true w es) (c :: q)
  = match FS.find_entry c es with
    | Some x => view_at x q
    | None => VNone
    end.
Proof.
  unfold view_at. cbn [FS.lookup]. now destruct (FS.find_entry c es).
Qed.

Lemma view_at_closed (w : bool) (es : list (string * FS.node)) (c : string) (q : list string) :
  view_at (FS.Dir false w es) (c :: q) = VNone.
Proof. reflexivity. Qed.

Lemma view_at_file_cons (r w : bool) (content : list byte) (c : string) (q : list string) :
  view_at (FS.File r w content) (c :: q) = VNone.
Proof. reflexivity. Qed.

(** A write changes what one path shows and nothing else. *)
Lemma put_frame (p : list string) :
  forall (n n' : FS.node) (content : list byte) (q : list string),
    FS.put n p content = Some n' -> q <> p -> view_at n' q = view_at n q.
Proof.
  induction p as [| name rest IH]; intros n n' content q Hput Hq.
  - cbn [FS.put] in Hput. destruct n as [r [|] c | a w es]; try discriminate.
    injection Hput as <-. destruct q; [congruence | reflexivity].
  - cbn [FS.put] in Hput. destruct n as [r w c | [|] w es]; try discriminate.
    destruct (FS.find_entry name es) as [sub |] eqn:E.
    + destruct (FS.put sub rest content) as [sub' |] eqn:Es; [| discriminate].
      injection Hput as <-.
      destruct q as [| c q]; [reflexivity |].
      rewrite !view_at_cons_dir, find_entry_replace, E.
      destruct (String.eqb_spec name c) as [Ec | Ec]; [| reflexivity].
      subst c. rewrite E. apply (IH _ _ _ _ Es). congruence.
    + destruct rest; [| discriminate]. destruct w; [| discriminate].
      injection Hput as <-.
      destruct q as [| c q]; [reflexivity |].
      rewrite !view_at_cons_dir, find_entry_app.
      destruct (FS.find_entry c es) as [x |] eqn:Ex; [reflexivity |].
      cbn [FS.find_entry].
      destruct (String.eqb_spec name c) as [Ec | Ec]; [| reflexivity].
      subst c. destruct q; [congruence | reflexivity].
Qed.

(** After the write the path shows a writable file with the content
    written; an existing file keeps its read permission. *)
Lemma put_view (p : list string) :
  forall (n n' : FS.node) (content : list byte),
    FS.put n p content = Some n' ->
    view_at n' p
    = VFile match view_at n p with
            | VFile r _ _ => r
            | _ => true
            end true content.
Proof.
  induction p as [| name rest IH]; intros n n' content Hput.
  - cbn [FS.put] in Hput. destruct n as [r [|] c | a w es]; try discriminate.
    injection Hput as <-. reflexivity.
  - cbn [FS.put] in Hput. destruct n as [r w c | [|] w es]; try discriminate.
    rewrite view_at_cons_dir.
    destruct (FS.find_entry name es) as [sub |] eqn:E.
    + destruct (FS.put sub rest content) as [sub' |] eqn:Es; [| discriminate].
      injection Hput as <-.
      rewrite view_at_cons_dir, find_entry_replace, String.eqb_refl, E.
      apply (IH _ _ _ Es).
    + destruct rest; [| discriminate]. destruct w; [| discriminate].
      injection Hput as <-.
      rewrite view_at_cons_dir, find_entry_app, E. cbn [FS.find_entry].
      now rewrite String.eqb_refl.
Qed.

Lemma removelast_cons2 {A : Type} (x y : A) (l : list A) :
  removelast (x :: y :: l) = x :: removelast (y :: l).
Proof. reflexivity. Qed.

Lemma can_put_cons (w : bool) (es : list (string * FS.node)) (name : string)
      (sub : FS.node) (rest : list string) :
  FS.find_entry name es = Some sub ->
  can_put (FS.Dir true w es) (name :: rest) = can_put sub rest.
Proof.
  intros E. unfold can_put. rewrite view_at_cons_dir, E.
  destruct (view_at sub rest) eqn:V; try reflexivity.
  destruct rest as [| c rest].
  - unfold view_at in V. cbn [FS.lookup] in V. destruct sub; discriminate.
  - now rewrite removelast_cons2, view_at_cons_dir, E.
Qed.

(** [put] succeeds exactly where [can_put] allows it. *)
Lemma put_can_put (p : list string) :
  forall (n : FS.node) (content : list byte),
    match FS.put n p content with
    | Some _ => true
    | None => false
    end = can_put n p.
Proof.
  induction p as [| name rest IH]; intros n content.
  - destruct n as [r [|] c | a w es]; reflexivity.
  - destruct n as [r w c | [|] w es].
    + unfold can_put. rewrite view_at_file_cons. cbn [FS.put].
      destruct rest; [reflexivity |]. now rewrite removelast_cons2, view_at_file_cons.
    + cbn [FS.put].
      destruct (FS.find_entry name es) as [sub |] eqn:E.
      * rewrite (can_put_cons _ _ _ _ _ E), <- (IH sub content).
        now destruct (FS.put sub rest content).
      * unfold can_put. rewrite view_at_cons_dir, E.
        destruct rest as [| c rest].
        -- cbn [removelast]. unfold view_at. cbn [FS.lookup]. now destruct w.
        -- now rewrite removelast_cons2, view_at_cons_dir, E.
    + unfold can_put. rewrite view_at_closed. cbn [FS.put].
      destruct rest; [reflexivity |]. now rewrite removelast_cons2, view_at_closed.
Qed.

Lemma can_put_not_dir (n : FS.node) (p : list string) :
  can_put n p = true -> dir_at n p = None.
Proof.
  unfold can_put, dir_at. destruct (view_at n p); [reflexivity | discriminate | reflexivity].
Qed.

(** Resolution only asks which paths are directories and which of
    them are accessible. *)
Lemma walk_path_dirs (fs fs' : FS.node) (comps cur : list string) :
  (forall q, dir_at fs' q = dir_at fs q) ->
  FS.walk_path fs' cur comps = FS.walk_path fs cur comps.
Proof.
  intros H. revert cur. induction comps as [| c comps IH]; intros cur; [reflexivity |].
  cbn [FS.walk_path]. specialize (H cur). unfold dir_at, view_at in H.
  destruct (FS.lookup fs' cur) as [[| ? ? ?] |], (FS.lookup fs cur) as [[| ? ? ?] |];
    try discriminate; try reflexivity.
  injection H as ->. now rewrite IH.
Qed.

Lemma locate_dirs (fs fs' : FS.node) (cwd : list string) (p : string) :
  (forall q, dir_at fs' q = dir_at fs q) ->
  FS.locate fs' cwd p = FS.locate fs cwd p.
Proof.
  intros H. unfold FS.locate. destruct ((p =? "") || FS.has_nul p); [reflexivity |].
  now apply walk_path_dirs.
Qed.
End WriteFacts.

(** ** generate_sha256.py: the candidate list *)

Section ScanFacts.
Local Open Scope string_scope.
Import generate_sha256.

Lemma files_under_nonempty (n : FS.node) (p : list string) (f : FS.node) :
  In (p, f) (FS.files_under n) -> p <> [].
Proof.
  destruct n as [r w c | [|] w es]; cbn [FS.files_under]; try (intros []; fail).
  intros H. apply in_app_or in H as [H | H].
  - apply in_map_iff in H as (e & [= <- _] & _). discriminate.
  - apply in_flat_map in H as ([name sub] & _ & H).
    apply in_map_iff in H as ([q g] & [= <- _] & _). discriminate.
Qed.

Lemma NoDup_map_inj {X Y : Type} (h : X -> Y) (xs : list X) :
  (forall a b, h a = h b -> a = b) -> NoDup xs -> NoDup (map h xs).
Proof.
  intros Hinj Hxs. induction Hxs as [| a xs Ha Hxs IH]; cbn [map]; constructor; [| exact IH].
  intros Hin. apply in_map_iff in Hin as (b & Hb & Hin). apply Hinj in Hb. now subst.
Qed.

(** Dropping elements keeps the images distinct. *)
Lemma NoDup_map_filter {X Y : Type} (h : X -> Y) (keep : X -> bool) (xs : list X) :
  NoDup (map h xs) -> NoDup (map h (filter keep xs)).
Proof.
  induction xs as [| a xs IH]; cbn [map filter]; intros Hnd; [constructor |].
  inversion Hnd as [| ? ? Ha Hxs]; subst.
  destruct (keep a); cbn [map]; [| now apply IH].
  constructor; [| now apply IH].
  intros Hin. apply Ha. apply in_map_iff in Hin as (b & Hb & Hin).
  apply filter_In in Hin as [Hin _]. apply in_map_iff. now exists b.
Qed.

(** In a well-formed tree no two files of the walk share a path. *)
Lemma files_under_NoDup (n : FS.node) :
  FS.wf n = true -> NoDup (map fst (FS.files_under n)).
Proof.
  induction n as [r w c | a w es IH] using FS.node_ind; intros Hwf; [constructor |].
  destruct (wf_dir_inv _ _ _ Hwf) as (_ & Hdist & Hsub).
  apply distinct_NoDup in Hdist.
  destruct a; [| constructor].
  cbn [FS.files_under]. rewrite map_app. apply NoDup_app.
  - assert (E : map fst (map (fun e : string * FS.node => ([fst e], snd e))
                            (filter (fun e => negb (FS.is_dir (snd e))) es))
                = map (fun s : string => [s])
                      (map fst (filter (fun e => negb (FS.is_dir (snd e))) es)))
      by (rewrite !map_map; reflexivity).
    rewrite E. apply NoDup_map_inj; [intros x y [= E']; exact E' |].
    now apply NoDup_map_filter.
  - clear Hwf. induction es as [| [name sub] es IHes]; [constructor |].
    cbn [flat_map]. rewrite map_app. cbn [map fst] in Hdist.
    inversion Hdist as [| ? ? Hname Hdist']; subst.
    inversion IH as [| ? ? IHsub IHrest]; subst.
    inversion Hsub as [| ? ? Hwsub Hwrest]; subst. cbn [snd] in *.
    apply NoDup_app.
    + rewrite map_map.
      assert (E : map (fun x : list string * FS.node => fst (let '(p, f) := x in (name :: p, f)))
                      (FS.files_under sub)
                  = map (cons name) (map fst (FS.files_under sub))).
      { rewrite map_map. apply map_ext. now intros [p f]. }
      rewrite E. apply NoDup_map_inj; [intros x y [= E']; exact E' |]. now apply IHsub.
    + now apply IHes.
    + intros q Hq1 Hq2.
      apply in_map_iff in Hq1 as ([q1 f1] & <- & Hq1).
      apply in_map_iff in Hq1 as ([p1 g1] & [= <- <-] & _).
      apply in_map_iff in Hq2 as ([q2 f2] & Heq & Hq2).
      apply in_flat_map in Hq2 as ([name2 sub2] & Hin2 & Hq2).
      apply in_map_iff in Hq2 as ([p2 g2] & [= <- <-] & _).
      cbn [fst] in Heq. injection Heq as Hn _.
      apply Hname. subst name2. apply (in_map fst) in Hin2. exact Hin2.
  - intros q Hq1 Hq2.
    apply in_map_iff in Hq1 as ([q1 f1] & <- & Hq1).
    apply in_map_iff in Hq1 as (e & [= <- <-] & _).
    apply in_map_iff in Hq2 as ([q2 f2] & Heq & Hq2).
    apply in_flat_map in Hq2 as ([name2 sub2] & Hin2 & Hq2).
    apply in_map_iff in Hq2 as ([p2 g2] & [= <- <-] & Hp2).
    cbn [fst] in Heq. injection Heq as _ Hp.
    apply files_under_nonempty in Hp2. congruence.
Qed.

Lemma dir_at_lookup (fs : FS.node) (d : list string) (a : bool) :
  dir_at fs d = Some a <-> exists w es, FS.lookup fs d = Some (FS.Dir a w es).
Proof.
  unfold dir_at, view_at. destruct (FS.lookup fs d) as [[r w c | a' w es] |]; split;
    try discriminate.
  - intros (? & ? & H). discriminate H.
  - intros [= ->]. eauto.
  - intros (? & ? & H). injection H as -> _ _. reflexivity.
  - intros (? & ? & H). discriminate H.
Qed.

(** The pairs of the walk sit in directories of the tree. *)
Lemma visits_placed (fs : FS.node) (cwd : list string) :
  forall (n : FS.node) (top : string) (d : list string),
    FS.wf n = true ->
    FS.locate fs cwd top = Some d ->
    FS.lookup fs d = Some n ->
    Forall (fun bn => FS.name_ok (snd bn) = true
                      /\ exists d', FS.locate fs cwd (fst bn) = Some d'
                                    /\ dir_at fs d' = Some true)
           (visits top n).
Proof.
  induction n as [r w c | a w es IH] using FS.node_ind; intros top d Hwf Hloc Hlook.
  - constructor.
  - destruct (wf_dir_inv _ _ _ Hwf) as (Hnames & Hdist & Hsub).
    unfold visits. destruct a; [| constructor].
    cbn [FS.walk_tree flat_map]. apply Forall_app. split.
    + apply Forall_forall. intros [base name] Hin.
      apply in_map_iff in Hin as (nm & [= <- <-] & Hnm). cbn [fst snd].
      unfold FS.filenames in Hnm. apply in_map_iff in Hnm as (e & <- & He).
      apply filter_In in He as [He _]. rewrite Forall_forall in Hnames.
      split; [apply (Hnames _ He) |].
      exists d. split; [exact Hloc |]. apply dir_at_lookup. eauto.
    + apply Forall_forall. intros bn Hin.
      apply in_flat_map in Hin as (triple & Htr & Hin).
      apply in_flat_map in Htr as ([name sub] & Hsubin & Htr).
      rewrite Forall_forall in IH, Hnames, Hsub.
      pose proof (Hnames _ Hsubin) as Hok. cbn [fst] in Hok.
      assert (Hl : FS.lookup fs (d ++ [name]) = Some sub).
      { rewrite lookup_app, Hlook. cbn [FS.lookup].
        now rewrite (In_find_entry _ _ _ Hdist Hsubin). }
      pose proof (IH _ Hsubin (posixpath.join top name) (d ++ [name])%list
                     (Hsub _ Hsubin)
                     (locate_join _ _ _ _ _ _ _ Hok Hloc Hlook) Hl) as F.
      rewrite Forall_forall in F. apply F. unfold visits.
      apply in_flat_map. exists triple. split; assumption.
Qed.

Lemma visits_located (fs : FS.node) (cwd : list string) :
  forall (n : FS.node) (top : string) (d : list string),
    FS.wf n = true ->
    FS.locate fs cwd top = Some d ->
    FS.lookup fs d = Some n ->
    map (fun bn => FS.locate fs cwd (posixpath.join (fst bn) (snd bn))) (visits top n)
    = map (fun pf => Some (d ++ fst pf)%list) (FS.files_under n).
Proof.
  induction n as [r w c | a w es IH] using FS.node_ind; intros top d Hwf Hloc Hlook.
  - reflexivity.
  - destruct (wf_dir_inv _ _ _ Hwf) as (Hnames & Hdist & Hsub).
    unfold visits. destruct a; [| reflexivity].
    cbn [FS.walk_tree FS.files_under flat_map].
    rewrite !map_app. f_equal.
    + unfold FS.filenames. rewrite !map_map. apply map_ext_in.
      intros [name f] Hin. cbn [fst snd].
      apply filter_In in Hin as [Hin _].
      rewrite Forall_forall in Hnames. pose proof (Hnames _ Hin) as Hok. cbn [fst] in Hok.
      apply (locate_join _ _ _ _ _ _ _ Hok Hloc Hlook).
    + apply (map_flat_map_pointwise
               (fun bn => FS.locate fs cwd (posixpath.join (fst bn) (snd bn)))
               (fun pf => Some (d ++ fst pf)%list)
               (fun '(base, _, files) => map (pair base) files)
               (fun '(name, sub) => FS.walk_tree (posixpath.join top name) sub)
               (fun '(name, sub) =>
                  map (fun '(p, f) => (name :: p, f)) (FS.files_under sub))).
      intros [name sub] Hin.
      rewrite Forall_forall in IH, Hnames, Hsub.
      pose proof (Hnames _ Hin) as Hok. cbn [fst] in Hok.
      pose proof (IH _ Hin) as IHsub. cbn [snd] in IHsub. unfold visits in IHsub.
      rewrite (IHsub (posixpath.join top name) (d ++ [name])%list).
      * rewrite map_map. apply map_ext. intros [p f]. cbn [fst].
        now rewrite <- app_assoc.
      * apply (Hsub _ Hin).
      * apply (locate_join _ _ _ _ _ _ _ Hok Hloc Hlook).
      * rewrite lookup_app, Hlook. cbn [FS.lookup].
        now rewrite (In_find_entry _ _ _ Hdist Hin).
Qed.

(** The recursive scan keeps, of the pairs of the walk, those whose
    name is no sidecar name. *)
Lemma scan_recursive_visits (fs : FS.node) (cwd : list string) (target_dir : string) :
  scan_recursive fs cwd target_dir
  = if FS.has_nul target_dir then Raise ValueError
    else Ok (map (fun bn => posixpath.join (fst bn) (snd bn))
                 (filter (fun bn => not_sidecar (snd bn))
                         (match FS.stat fs cwd target_dir with
                          | Some n => visits target_dir n
                          | None => []
                          end))).
Proof.
  unfold scan_recursive, FS.walk.
  destruct (FS.has_nul target_dir); [reflexivity |]. cbn [bind]. f_equal.
  destruct (FS.stat fs cwd target_dir) as [n |]; [| reflexivity].
  unfold visits. generalize (FS.walk_tree target_dir n). intros l.
  induction l as [| [[root dirs] names] l IH]; [reflexivity |].
  cbn [flat_map]. rewrite filter_app, map_app, IH. f_equal.
  clear. induction names as [| x names IH]; [reflexivity |].
  cbn [map filter snd]. unfold not_sidecar at 1.
  destruct (negb (Str.endswith x ".sha256")); cbn [map fst snd]; now rewrite IH.
Qed.

Lemma stat_locate (fs : FS.node) (cwd : list string) (p : string) (n : FS.node) :
  FS.stat fs cwd p = Some n ->
  exists d, FS.locate fs cwd p = Some d /\ FS.lookup fs d = Some n.
Proof.
  unfold FS.stat. destruct (FS.locate fs cwd p) as [d |]; [| discriminate].
  intros H. now exists d.
Qed.

Lemma Forall_filter {A : Type} (P : A -> Prop) (p : A -> bool) (l : list A) :
  Forall P l -> Forall (fun x => P x /\ p x = true) (filter p l).
Proof.
  intros H. apply Forall_forall. intros x Hx. apply filter_In in Hx as [Hx Hp].
  rewrite Forall_forall in H. split; [now apply H | exact Hp].
Qed.

Lemma scan_recursive_placed (fs : FS.node) (cwd : list string) (target_dir : string)
      (l : list string) :
  FS.wf fs = true ->
  scan_recursive fs cwd target_dir = Ok l ->
  Forall (placed fs cwd) l /\ NoDup (map (FS.locate fs cwd) l).
Proof.
  intros Hwf. rewrite scan_recursive_visits.
  destruct (FS.has_nul target_dir); [discriminate |]. intros [= <-].
  destruct (FS.stat fs cwd target_dir) as [n |] eqn:Hs; [| split; constructor].
  destruct (stat_locate _ _ _ _ Hs) as (d & Hloc & Hlook).
  pose proof (wf_lookup _ _ _ Hwf Hlook) as Hwfn.
  split.
  - apply Forall_forall. intros f Hf.
    apply in_map_iff in Hf as ([base name] & <- & Hin).
    apply filter_In in Hin as [Hin Hns]. cbn [fst snd] in *.
    pose proof (visits_placed fs cwd n target_dir d Hwfn Hloc Hlook) as F.
    rewrite Forall_forall in F. destruct (F _ Hin) as (Hok & d' & Hd' & Hdir).
    exists base, name, d'. cbn [fst snd] in *.
    repeat split; try assumption. now apply negb_true_iff in Hns.
  - rewrite map_map.
    apply (NoDup_map_filter (fun bn => FS.locate fs cwd (posixpath.join (fst bn) (snd bn)))).
    rewrite (visits_located fs cwd n target_dir d Hwfn Hloc Hlook).
    rewrite <- map_map with (f := fst) (g := fun p => Some (d ++ p)%list).
    apply NoDup_map_inj.
    + intros x y [= E]. now apply app_inv_head in E.
    + now apply files_under_NoDup.
Qed.

(** The flat scan succeeds exactly on a directory that can be listed. *)
Lemma scan_flat_listable (fs : FS.node) (cwd : list string) (target_dir : string)
      (l : list string) :
  scan_flat fs cwd target_dir = Ok l ->
  exists w es, FS.stat fs cwd target_dir = Some (FS.Dir true w es).
Proof.
  unfold scan_flat, FS.listdir. destruct (FS.has_nul target_dir); [discriminate |].
  destruct (FS.stat fs cwd target_dir) as [[| [|] w es] |]; try discriminate. eauto.
Qed.

Lemma scan_flat_placed (fs : FS.node) (cwd : list string) (target_dir : string)
      (l : list string) :
  FS.wf fs = true ->
  scan_flat fs cwd target_dir = Ok l ->
  Forall (placed fs cwd) l /\ NoDup (map (FS.locate fs cwd) l).
Proof.
  intros Hwf Hscan.
  destruct (scan_flat_listable _ _ _ _ Hscan) as (w & es & Hs).
  destruct (stat_locate _ _ _ _ Hs) as (d & Hloc & Hlook).
  destruct (wf_dir_inv _ _ _ (wf_lookup _ _ _ Hwf Hlook)) as (Hnames & Hdist & _).
  unfold scan_flat, FS.listdir in Hscan. rewrite (stat_no_nul _ _ _ _ Hs), Hs in Hscan.
  cbn [bind] in Hscan. injection Hscan as <-.
  assert (Hok : forall name, In name (map fst es) -> FS.name_ok name = true).
  { intros name Hin. apply in_map_iff in Hin as (e & <- & He).
    rewrite Forall_forall in Hnames. apply (Hnames _ He). }
  split.
  - apply Forall_forall. intros f Hf.
    apply in_map_iff in Hf as (name & <- & Hin).
    apply filter_In in Hin as [Hin Hp]. apply andb_true_iff in Hp as [_ Hp].
    exists target_dir, name, d. repeat split; try assumption.
    + now apply Hok.
    + now apply negb_true_iff in Hp.
    + apply dir_at_lookup. eauto.
  - rewrite map_map. apply NoDup_map_filter.
    assert (E : map (fun x => FS.locate fs cwd (posixpath.join target_dir x)) (map fst es)
                = map (fun x => Some (d ++ [x])%list) (map fst es)).
    { apply map_ext_in. intros name Hin.
      apply (locate_join _ _ _ _ _ _ _ (Hok _ Hin) Hloc Hlook). }
    rewrite E. apply NoDup_map_inj.
    + intros x y [= E']. apply app_inv_head in E'. now injection E'.
    + now apply distinct_NoDup.
Qed.
End ScanFacts.

(** ** generate_sha256.py: the tasks *)

Section TaskFacts.
Local Open Scope string_scope.
Import generate_sha256.

Lemma chunk_size_positive : 0 < CHUNK_SIZE.
Proof. apply Nat.ltb_lt. vm_compute. reflexivity. Qed.

(** What hashing a file and writing its sidecar do, by the outcome of
    reading the file and of writing the sidecar. *)
Lemma hash_and_write_cases (cwd : list string) (w : world) (f : string) :
  hash_and_write cwd w f
  = match FS.open_rb (fs w) cwd f with
    | Ok c =>
        match FS.write_text (fs w) cwd (f ++ ".sha256")
                            (sidecar_text (SHA256.hexdigest c) f) with
        | FS.Written fs' =>
            (World fs' (out w) (err w), Ok (Some (Text (msg_done (f ++ ".sha256")))))
        | FS.NotOpened OSError =>
            (w, Ok (Some (TextExn (msg_unwritable (f ++ ".sha256")) OSError)))
        | FS.NotOpened e => (w, Raise e)
        | FS.Truncated fs' e => (World fs' (out w) (err w), Raise e)
        end
    | Raise OSError => (print_err w (TextExn (msg_unreadable f) OSError), Ok None)
    | Raise e => (w, Raise e)
    end.
Proof.
  unfold hash_and_write, calculate_sha256.
  destruct (FS.open_rb (fs w) cwd f) as [c | e]; [| destruct e; reflexivity].
  rewrite (read_loop_whole CHUNK_SIZE c chunk_size_positive).
  unfold hashlib.hexdigest. cbn [hashlib.fed].
  pose proof (hexdigest_not_empty c) as Hne. apply String.eqb_neq in Hne. rewrite Hne.
  reflexivity.
Qed.

Lemma open_rb_view (fs0 : FS.node) (cwd : list string) (f : string) (q : list string) :
  FS.locate fs0 cwd f = Some q ->
  FS.open_rb fs0 cwd f
  = match view_at fs0 q with
    | VFile true _ c => Ok c
    | _ => Raise OSError
    end.
Proof.
  intros H. unfold FS.open_rb, FS.stat, view_at. rewrite (locate_nul _ _ _ _ H), H.
  destruct (FS.lookup fs0 q) as [[[|] w c | a w es] |]; reflexivity.
Qed.

Lemma write_text_put (fs0 : FS.node) (cwd : list string) (p text : string) (q : list string) :
  FS.locate fs0 cwd p = Some q ->
  FS.write_text fs0 cwd p text
  = if Str.well_formed text
    then match FS.put fs0 q (bytes_of text) with
         | Some fs' => FS.Written fs'
         | None => FS.NotOpened OSError
         end
    else match FS.put fs0 q [] with
         | Some fs' => FS.Truncated fs' UnicodeEncodeError
         | None => FS.NotOpened OSError
         end.
Proof. intros H. unfold FS.write_text. now rewrite (locate_nul _ _ _ _ H), H. Qed.

Lemma inv_start (fs0 : FS.node) : inv fs0 fs0 [].
Proof. split; [reflexivity | reflexivity | intros q []]. Qed.

Lemma placed_locations (fs0 : FS.node) (cwd : list string) (f : string) :
  placed fs0 cwd f ->
  exists d name,
    FS.name_ok name = true
    /\ Str.endswith name ".sha256" = false
    /\ dir_at fs0 d = Some true
    /\ posixpath.basename f = name
    /\ forall fs',
        (forall q, dir_at fs' q = dir_at fs0 q) ->
        FS.locate fs' cwd f = Some (d ++ [name])%list
        /\ FS.locate fs' cwd (f ++ ".sha256") = Some (d ++ [(name ++ ".sha256")%string])%list.
Proof.
  intros (base & name & d & -> & Hok & Hns & Hloc & Hdir).
  exists d, name. repeat split; try assumption.
  - now apply basename_join.
  - rewrite <- (H d) in Hdir. apply dir_at_lookup in Hdir as (w & es & Hl).
    apply (locate_join _ _ _ _ _ w es Hok); [| exact Hl].
    now rewrite (locate_dirs fs0 fs' cwd base H).
  - rewrite <- (H d) in Hdir. apply dir_at_lookup in Hdir as (w & es & Hl).
    destruct (name_ok_inv _ Hok) as (Hne & _).
    rewrite <- (join_app base name ".sha256" Hne).
    apply (locate_join _ _ _ _ _ w es); [| | exact Hl].
    + apply name_ok_app; [exact Hok | reflexivity | reflexivity | cbn; lia].
    + now rewrite (locate_dirs fs0 fs' cwd base H).
Qed.

Lemma can_put_views (fs0 fs' : FS.node) (d : list string) (x : string) :
  view_at fs' (d ++ [x]) = view_at fs0 (d ++ [x]) ->
  view_at fs' d = view_at fs0 d ->
  can_put fs' (d ++ [x]) = can_put fs0 (d ++ [x]).
Proof.
  intros H1 H2. unfold can_put. now rewrite removelast_last, H1, H2.
Qed.

(** The write of a text at a path that two trees show alike. *)
Lemma write_text_alike (fs0 fs1 : FS.node) (cwd : list string) (p text : string)
      (d : list string) (x : string) :
  FS.locate fs0 cwd p = Some (d ++ [x])%list ->
  FS.locate fs1 cwd p = Some (d ++ [x])%list ->
  view_at fs1 (d ++ [x]) = view_at fs0 (d ++ [x]) ->
  view_at fs1 d = view_at fs0 d ->
  match FS.write_text fs0 cwd p text, FS.write_text fs1 cwd p text with
  | FS.Written a, FS.Written b =>
      FS.put fs0 (d ++ [x]) (bytes_of text) = Some a
      /\ FS.put fs1 (d ++ [x]) (bytes_of text) = Some b
      /\ view_at b (d ++ [x]) = view_at a (d ++ [x])
  | FS.Truncated a e, FS.Truncated b e' =>
      e = e'
      /\ FS.put fs0 (d ++ [x]) [] = Some a
      /\ FS.put fs1 (d ++ [x]) [] = Some b
      /\ view_at b (d ++ [x]) = view_at a (d ++ [x])
  | FS.NotOpened e, FS.NotOpened e' => e = OSError /\ e' = OSError
  | _, _ => False
  end.
Proof.
  intros H0 H1 Hv Hd.
  rewrite (write_text_put _ _ _ text _ H0), (write_text_put _ _ _ text _ H1).
  pose proof (can_put_views fs0 fs1 d x Hv Hd) as Hcan.
  destruct (Str.well_formed text).
  - pose proof (put_can_put (d ++ [x]) fs1 (bytes_of text)) as P1.
    pose proof (put_can_put (d ++ [x]) fs0 (bytes_of text)) as P0.
    rewrite Hcan, <- P0 in P1.
    destruct (FS.put fs0 (d ++ [x]) (bytes_of text)) as [a |] eqn:Ea;
      destruct (FS.put fs1 (d ++ [x]) (bytes_of text)) as [b |] eqn:Eb;
      try discriminate P1; [| now split].
    repeat split. now rewrite (put_view _ _ _ _ Ea), (put_view _ _ _ _ Eb), Hv.
  - pose proof (put_can_put (d ++ [x]) fs1 []) as P1.
    pose proof (put_can_put (d ++ [x]) fs0 []) as P0.
    rewrite Hcan, <- P0 in P1.
    destruct (FS.put fs0 (d ++ [x]) []) as [a |] eqn:Ea;
      destruct (FS.put fs1 (d ++ [x]) []) as [b |] eqn:Eb;
      try discriminate P1; [| now split].
    repeat split. now rewrite (put_view _ _ _ _ Ea), (put_view _ _ _ _ Eb), Hv.
Qed.

(** A write keeps the invariant and adds its path. *)
Lemma inv_put (fs0 fs1 fs' : FS.node) (written : list (list string)) (sl : list string)
      (content : list byte) :
  inv fs0 fs1 written ->
  FS.put fs1 sl content = Some fs' ->
  dir_at fs0 sl = None ->
  Str.endswith (last sl "") ".sha256" = true ->
  inv fs0 fs' (sl :: written).
Proof.
  intros [Hdirs Hview Hwr] Eput Hnd Hend. constructor.
  - intros q. destruct (list_eq_dec string_dec q sl) as [-> | Hq].
    + unfold dir_at at 1. rewrite (put_view _ _ _ _ Eput). now rewrite Hnd.
    + unfold dir_at at 1. rewrite (put_frame _ _ _ _ _ Eput Hq). apply Hdirs.
  - intros q Hq. rewrite (put_frame _ _ _ _ q Eput).
    + apply Hview. intros Hin. apply Hq. now right.
    + intros ->. apply Hq. now left.
  - intros q [<- | H]; [| now apply Hwr]. now split.
Qed.

(** A task run in the middle of the batch does what it would do alone
    on the file system the batch started from. *)
Lemma work_step (fs0 : FS.node) (cwd : list string) (w : world)
      (written : list (list string)) (f : string) :
  inv fs0 (fs w) written ->
  placed fs0 cwd f ->
  (forall q, FS.locate fs0 cwd (f ++ ".sha256") = Some q -> ~ In q written) ->
  exists written',
    inv fs0 (fs (fst (hash_and_write cwd w f))) written'
    /\ snd (hash_and_write cwd w f) = verdict fs0 cwd f
    /\ out (fst (hash_and_write cwd w f)) = out w
    /\ err (fst (hash_and_write cwd w f)) = (err w ++ complaint fs0 cwd f)%list
    /\ (forall q, FS.locate fs0 cwd (f ++ ".sha256") <> Some q ->
                  view_at (fs (fst (hash_and_write cwd w f))) q = view_at (fs w) q)
    /\ (forall q, In q written' ->
                  In q written \/ FS.locate fs0 cwd (f ++ ".sha256") = Some q)
    /\ (forall q, FS.locate fs0 cwd (f ++ ".sha256") = Some q ->
                  view_at (fs (fst (hash_and_write cwd w f))) q
                  = view_at (fs (fst (solo fs0 cwd f))) q).
Proof.
  intros Hinv Hplaced Hfresh. pose proof Hinv as [Hdirs Hview Hwr].
  destruct (placed_locations _ _ _ Hplaced) as (d & name & Hok & Hns & Hd & _ & Hlocs).
  destruct (Hlocs fs0 (fun q => eq_refl)) as [Hc0 Hs0].
  destruct (Hlocs (fs w) Hdirs) as [Hc Hs].
  set (cl := (d ++ [name])%list) in *.
  assert (Hcl : ~ In cl written).
  { intros Hin. destruct (Hwr _ Hin) as [_ He]. unfold cl in He.
    rewrite last_last in He. congruence. }
  assert (Hsl : ~ In (d ++ [(name ++ ".sha256")%string])%list written) by now apply Hfresh.
  assert (Hdw : ~ In d written).
  { intros Hin. destruct (Hwr _ Hin) as [He _]. congruence. }
  assert (Hopen : FS.open_rb (fs w) cwd f = FS.open_rb fs0 cwd f).
  { rewrite (open_rb_view _ _ _ _ Hc), (open_rb_view _ _ _ _ Hc0). now rewrite (Hview _ Hcl). }
  assert (Hoserr : forall e, FS.open_rb fs0 cwd f = Raise e -> e = OSError).
  { intros e. rewrite (open_rb_view _ _ _ _ Hc0).
    destruct (view_at fs0 cl) as [[|] ? ? | ? ? |]; congruence. }
  unfold verdict, complaint, solo. rewrite !hash_and_write_cases. cbn [fs out err].
  rewrite Hopen.
  destruct (FS.open_rb fs0 cwd f) as [c | e] eqn:Eo.
  2:{ rewrite (Hoserr e eq_refl). cbn [fst snd fs out err print_err].
      exists written. split; [exact Hinv |].
      split; [reflexivity |]. split; [reflexivity |]. split; [reflexivity |].
      split; [reflexivity |]. split; [intros q Hq; now left |].
      intros q Hq. apply Hview. rewrite Hs0 in Hq. now injection Hq as <-. }
  pose proof (write_text_alike fs0 (fs w) cwd (f ++ ".sha256")
                (sidecar_text (SHA256.hexdigest c) f) d (name ++ ".sha256")
                Hs0 Hs (Hview _ Hsl) (Hview _ Hdw)) as A.
  assert (Hend : Str.endswith (last (d ++ [(name ++ ".sha256")%string]) "") ".sha256" = true)
    by (rewrite last_last; apply endswith_app).
  destruct (FS.write_text fs0 cwd (f ++ ".sha256") (sidecar_text (SHA256.hexdigest c) f))
    as [e0 | a e0 | a];
    destruct (FS.write_text (fs w) cwd (f ++ ".sha256") (sidecar_text (SHA256.hexdigest c) f))
    as [e1 | b e1 | b]; try contradiction.
  - destruct A as [-> ->]. cbn [fst snd fs out err].
    exists written. split; [exact Hinv |].
    split; [reflexivity |]. split; [reflexivity |]. split; [now rewrite app_nil_r |].
    split; [reflexivity |]. split; [intros q Hq; now left |].
    intros q Hq. apply Hview. rewrite Hs0 in Hq. now injection Hq as <-.
  - destruct A as (<- & Pa & Pb & Hab). cbn [fst snd fs out err].
    assert (Hnd : dir_at fs0 (d ++ [(name ++ ".sha256")%string]) = None).
    { apply can_put_not_dir. rewrite <- (put_can_put _ fs0 []). now rewrite Pa. }
    exists ((d ++ [(name ++ ".sha256")%string])%list :: written).
    split; [apply (inv_put _ _ _ _ _ _ Hinv Pb Hnd Hend) |].
    split; [reflexivity |]. split; [reflexivity |]. split; [now rewrite app_nil_r |].
    split; [| split].
    + intros q Hq. apply (put_frame _ _ _ _ _ Pb). congruence.
    + intros q [<- | Hq]; [now right | now left].
    + intros q Hq. rewrite Hs0 in Hq. injection Hq as <-. exact Hab.
  - destruct A as (Pa & Pb & Hab). cbn [fst snd fs out err].
    assert (Hnd : dir_at fs0 (d ++ [(name ++ ".sha256")%string]) = None).
    { apply can_put_not_dir.
      rewrite <- (put_can_put _ fs0 (bytes_of (sidecar_text (SHA256.hexdigest c) f))).
      now rewrite Pa. }
    exists ((d ++ [(name ++ ".sha256")%string])%list :: written).
    split; [apply (inv_put _ _ _ _ _ _ Hinv Pb Hnd Hend) |].
    split; [reflexivity |]. split; [reflexivity |]. split; [now rewrite app_nil_r |].
    split; [| split].
    + intros q Hq. apply (put_frame _ _ _ _ _ Pb). congruence.
    + intros q [<- | Hq]; [now right | now left].
    + intros q Hq. rewrite Hs0 in Hq. injection Hq as <-. exact Hab.
Qed.
End TaskFacts.

(** ** generate_sha256.py: the batch *)

Section BatchFacts.
Local Open Scope string_scope.
Import generate_sha256.

Lemma sapp_inv_tail (a b s : string) : a ++ s = b ++ s -> a = b.
Proof.
  revert b. induction a as [| x a IH]; intros [| y b] H; cbn [append] in H.
  - reflexivity.
  - exfalso. apply (f_equal String.length) in H. cbn [String.length] in H.
    rewrite sapp_length in H. lia.
  - exfalso. apply (f_equal String.length) in H. cbn [String.length] in H.
    rewrite sapp_length in H. lia.
  - injection H as -> H. f_equal. now apply IH.
Qed.

(** Two candidates with one sidecar are one file. *)
Lemma sidecar_locations_differ (fs0 : FS.node) (cwd : list string) (f g : string) :
  placed fs0 cwd f -> placed fs0 cwd g ->
  FS.locate fs0 cwd (f ++ ".sha256") = FS.locate fs0 cwd (g ++ ".sha256") ->
  FS.locate fs0 cwd f = FS.locate fs0 cwd g.
Proof.
  intros Hf Hg H.
  destruct (placed_locations _ _ _ Hf) as (d & n & _ & _ & _ & _ & Lf).
  destruct (placed_locations _ _ _ Hg) as (d' & n' & _ & _ & _ & _ & Lg).
  destruct (Lf fs0 (fun q => eq_refl)) as [Hf1 Hf2].
  destruct (Lg fs0 (fun q => eq_refl)) as [Hg1 Hg2].
  rewrite Hf2, Hg2 in H. injection H as H.
  apply app_inj_tail in H as [-> H]. apply sapp_inv_tail in H. subst.
  now rewrite Hf1, Hg1.
Qed.

(** The work of the tasks, in any order: each task does what it would do
    alone on the starting file system; only sidecar paths change. *)
Lemma batch_spec (fs0 : FS.node) (cwd : list string) :
  forall (order : list string) (w : world) (futs : list (string * result (option line)))
         (written : list (list string)),
    inv fs0 (fs w) written ->
    Forall (placed fs0 cwd) order ->
    NoDup (map (FS.locate fs0 cwd) order) ->
    (forall g q, In g order ->
                 FS.locate fs0 cwd (g ++ ".sha256") = Some q -> ~ In q written) ->
    (exists written', inv fs0 (fs (fst (fold_left (work cwd) order (w, futs)))) written')
    /\ out (fst (fold_left (work cwd) order (w, futs))) = out w
    /\ err (fst (fold_left (work cwd) order (w, futs)))
       = (err w ++ flat_map (complaint fs0 cwd) order)%list
    /\ snd (fold_left (work cwd) order (w, futs))
       = (futs ++ map (fun f => (f, verdict fs0 cwd f)) order)%list
    /\ (forall q, (forall g, In g order -> FS.locate fs0 cwd (g ++ ".sha256") <> Some q) ->
                  view_at (fs (fst (fold_left (work cwd) order (w, futs)))) q
                  = view_at (fs w) q)
    /\ (forall f q,
           In f order ->
           FS.locate fs0 cwd (f ++ ".sha256") = Some q ->
           view_at (fs (fst (fold_left (work cwd) order (w, futs)))) q
           = view_at (fs (fst (solo fs0 cwd f))) q).
Proof.
  induction order as [| f order IH]; intros w futs written Hinv Hpl Hnd Hfresh.
  - cbn [fold_left flat_map map fst snd]. rewrite !app_nil_r.
    split; [now exists written |]. repeat split; try reflexivity.
    intros f q [].
  - inversion Hpl as [| ? ? Hf Hrest]; subst.
    cbn [map] in Hnd. inversion Hnd as [| ? ? Hfn Hnd']; subst.
    destruct (work_step fs0 cwd w written f Hinv Hf)
      as (written' & Hinv' & Hres & Hout & Herr & Hframe & Hwr' & Hdone).
    { intros q Hq. apply (Hfresh f q); [now left | exact Hq]. }
    assert (Hother : forall g q, In g order ->
                                 FS.locate fs0 cwd (g ++ ".sha256") = Some q ->
                                 FS.locate fs0 cwd (f ++ ".sha256") <> Some q).
    { intros g q Hg Hq Hfq. apply Hfn.
      rewrite Forall_forall in Hrest.
      rewrite (sidecar_locations_differ fs0 cwd f g Hf (Hrest _ Hg)) by congruence.
      now apply in_map. }
    cbn [fold_left].
    change (work cwd (w, futs) f)
      with (fst (hash_and_write cwd w f), (futs ++ [(f, snd (hash_and_write cwd w f))])%list).
    destruct (IH (fst (hash_and_write cwd w f))
                 (futs ++ [(f, snd (hash_and_write cwd w f))])%list
                 written' Hinv' Hrest Hnd') as (Hi & Ho & He & Hfu & Hfr & Hd).
    { intros g q Hg Hq Hin. destruct (Hwr' _ Hin) as [Hin' | Hin'].
      - apply (Hfresh g q); [now right | exact Hq | exact Hin'].
      - apply (Hother g q Hg Hq Hin'). }
    split; [exact Hi |].
    split; [now rewrite Ho, Hout |].
    split; [rewrite He, Herr; cbn [flat_map]; now rewrite <- app_assoc |].
    split; [rewrite Hfu, Hres; cbn [map]; now rewrite <- app_assoc |].
    split.
    + intros q Hq. rewrite Hfr by (intros g Hg; apply Hq; now right).
      apply Hframe. apply Hq. now left.
    + intros g q [<- | Hg] Hq.
      * rewrite Hfr; [now apply Hdone |].
        intros g Hg Hgq. apply (Hother g q Hg Hgq Hq).
      * now apply Hd.
Qed.

(** The events of the main thread and the first prints of the tasks
    leave the file system, standard error and the futures alone. *)
Lemma step_work (cwd : list string) (evs : list event) :
  forall (s : pool) (st : world * list (string * result (option line))),
    fs (fst st) = fs (now s) -> err (fst st) = err (now s) -> snd st = futures s ->
    fs (fst (fold_left (work cwd) (works evs) st)) = fs (now (fold_left (step cwd) evs s))
    /\ err (fst (fold_left (work cwd) (works evs) st))
       = err (now (fold_left (step cwd) evs s))
    /\ snd (fold_left (work cwd) (works evs) st) = futures (fold_left (step cwd) evs s).
Proof.
  induction evs as [| e evs IH]; intros s st Hfs Herr Hfut; [now repeat split |].
  destruct e as [f | f | f]; cbn [works flat_map app fold_left].
  - apply IH; assumption.
  - apply IH; unfold work, step; cbn [fst snd];
      destruct (hash_and_write cwd (now s) f) as [w' r] eqn:E; cbn [now futures];
      rewrite (hash_and_write_cases cwd (fst st) f);
      rewrite (hash_and_write_cases cwd (now s) f) in E;
      rewrite Hfs;
      destruct (FS.open_rb (fs (now s)) cwd f) as [c | ex].
    all: try (destruct (FS.write_text (fs (now s)) cwd (f ++ ".sha256")
                                      (sidecar_text (SHA256.hexdigest c) f))
               as [e0 | a e0 | a]; [destruct e0 | |]).
    all: try destruct ex.
    all: injection E as <- <-; cbn [fst snd fs err out print_err]; congruence.
  - apply IH; unfold step; destruct (raised s); try assumption;
      destruct (future_of f (futures s)) as [[[l |] | ex] |]; assumption.
Qed.

Lemma candidates_placed (fs0 : FS.node) (cwd : list string) (a : args) :
  FS.wf fs0 = true ->
  Forall (placed fs0 cwd) (candidates fs0 cwd a)
  /\ NoDup (map (FS.locate fs0 cwd) (candidates fs0 cwd a)).
Proof.
  intros Hwf. unfold candidates, scan. destruct (recursive a).
  - destruct (scan_recursive fs0 cwd (directory a)) as [l | e] eqn:E.
    + now apply (scan_recursive_placed fs0 cwd (directory a)).
    + split; constructor.
  - destruct (scan_flat fs0 cwd (directory a)) as [l | e] eqn:E.
    + now apply (scan_flat_placed fs0 cwd (directory a)).
    + split; constructor.
Qed.

Lemma scan_ok_candidates (fs0 : FS.node) (cwd : list string) (a : args) :
  scan_ok fs0 cwd a = true -> scan fs0 cwd a = Ok (candidates fs0 cwd a).
Proof. unfold scan_ok, candidates. now destruct (scan fs0 cwd a). Qed.

(** The shape of a run on a directory whose scan completes, with a
    positive worker count. *)
Lemma main_shape (sched : list string -> list event) (fs0 : FS.node)
      (cwd : list string) (a : args) :
  FS.isdir fs0 cwd (directory a) = true ->
  scan_ok fs0 cwd a = true ->
  (0 < workers a)%Z ->
  main sched fs0 cwd a
  = match candidates fs0 cwd a with
    | [] => Run (World fs0 [scan_line a; Text msg_none] []) 0
    | _ =>
        match raised (pool_end sched fs0 cwd a) with
        | Some e => Run (print_err (now (pool_end sched fs0 cwd a)) (Traceback e)) 1
        | None => Run (print (now (pool_end sched fs0 cwd a)) (Text msg_all_done)) 0
        end
    end.
Proof.
  intros Hdir Hscan Hw. unfold pool_end, announced.
  pose proof (scan_ok_candidates _ _ _ Hscan) as Hc.
  unfold main, scan_line. rewrite Hdir. cbn [negb].
  apply Z.leb_gt in Hw. unfold scan in Hc.
  destruct (recursive a); rewrite Hc; unfold print; cbn [fs out err app];
    (destruct (candidates fs0 cwd a) as [| f l]; [reflexivity |]);
    now rewrite Hw.
Qed.
End BatchFacts.

(** ** generate_sha256.py: the run *)

Section RunFacts.
Local Open Scope string_scope.
Import generate_sha256.

Lemma prefix_append (p s : string) : String.prefix p (p ++ s) = true.
Proof.
  induction p as [| c p IH]; cbn [append String.prefix].
  - now destruct s.
  - destruct (ascii_dec c c) as [_ | N]; [exact IH | congruence].
Qed.

Lemma plain_scan_line (a : args) : plain (scan_line a).
Proof. unfold scan_line. destruct (recursive a); repeat split. Qed.

Lemma plain_none : plain (Text msg_none).
Proof. repeat split. Qed.

Lemma plain_found (n : nat) (w : Z) : plain (Text (msg_found n w)).
Proof. repeat split. Qed.

Lemma plain_all_done : plain (Text msg_all_done).
Proof. repeat split. Qed.

Lemma processing_line (f : string) : is_processing (Text (msg_processing f)) = true.
Proof. apply prefix_append. Qed.

Lemma done_line (p : string) : is_done (Text (msg_done p)) = true.
Proof. apply prefix_append. Qed.

Lemma hash_and_write_out (cwd : list string) (w : world) (f : string) :
  out (fst (hash_and_write cwd w f)) = out w.
Proof.
  rewrite hash_and_write_cases.
  destruct (FS.open_rb (fs w) cwd f) as [c | e]; [| destruct e; reflexivity].
  destruct (FS.write_text (fs w) cwd (f ++ ".sha256") (sidecar_text (SHA256.hexdigest c) f))
    as [e0 | a e0 | a]; [destruct e0 | |]; reflexivity.
Qed.

(** The future and the complaint of a task, by the outcome of reading
    the file and of writing the sidecar on the starting file system. *)
Lemma verdict_cases (fs0 : FS.node) (cwd : list string) (f : string) :
  verdict fs0 cwd f
  = match FS.open_rb fs0 cwd f with
    | Ok c =>
        match FS.write_text fs0 cwd (f ++ ".sha256")
                            (sidecar_text (SHA256.hexdigest c) f) with
        | FS.Written _ => Ok (Some (Text (msg_done (f ++ ".sha256"))))
        | FS.NotOpened OSError => Ok (Some (TextExn (msg_unwritable (f ++ ".sha256")) OSError))
        | FS.NotOpened e => Raise e
        | FS.Truncated _ e => Raise e
        end
    | Raise OSError => Ok None
    | Raise e => Raise e
    end.
Proof.
  unfold verdict, solo. rewrite hash_and_write_cases. cbn [fs].
  destruct (FS.open_rb fs0 cwd f) as [c | e]; [| destruct e; reflexivity].
  destruct (FS.write_text fs0 cwd (f ++ ".sha256") (sidecar_text (SHA256.hexdigest c) f))
    as [e0 | a e0 | a]; [destruct e0 | |]; reflexivity.
Qed.

Lemma complaint_cases (fs0 : FS.node) (cwd : list string) (f : string) :
  complaint fs0 cwd f
  = match FS.open_rb fs0 cwd f with
    | Raise OSError => [TextExn (msg_unreadable f) OSError]
    | _ => []
    end.
Proof.
  unfold complaint, solo. rewrite hash_and_write_cases. cbn [fs].
  destruct (FS.open_rb fs0 cwd f) as [c | e]; [| destruct e; reflexivity].
  destruct (FS.write_text fs0 cwd (f ++ ".sha256") (sidecar_text (SHA256.hexdigest c) f))
    as [e0 | a e0 | a]; [destruct e0 | |]; reflexivity.
Qed.

(** No result is the first line of a task. *)
Lemma verdict_not_processing (fs0 : FS.node) (cwd : list string) (f : string) (l : line) :
  verdict fs0 cwd f = Ok (Some l) -> is_processing l = false.
Proof.
  rewrite verdict_cases.
  destruct (FS.open_rb fs0 cwd f) as [c | e]; [| destruct e; discriminate].
  destruct (FS.write_text fs0 cwd (f ++ ".sha256") (sidecar_text (SHA256.hexdigest c) f))
    as [e0 | a e0 | a]; [destruct e0 | |]; try discriminate; intros [= <-]; reflexivity.
Qed.

(** For a candidate, reading fails with [OSError] only, and the only
    exception a task lets escape is that of a name that is no text. *)
Lemma placed_open_rb (fs0 : FS.node) (cwd : list string) (f : string) (e : exn) :
  placed fs0 cwd f -> FS.open_rb fs0 cwd f = Raise e -> e = OSError.
Proof.
  intros Hp. destruct (placed_locations _ _ _ Hp) as (d & name & _ & _ & _ & _ & Hlocs).
  destruct (Hlocs fs0 (fun q => eq_refl)) as [Hc _].
  rewrite (open_rb_view _ _ _ _ Hc).
  destruct (view_at fs0 (d ++ [name])) as [[|] ? ? | ? ? |]; congruence.
Qed.

Lemma sidecar_text_well_formed (c : list byte) (f : string) :
  Str.well_formed (sidecar_text (SHA256.hexdigest c) f)
  = Str.well_formed (posixpath.basename f).
Proof. apply digest_line_well_formed. Qed.

Lemma placed_verdict (fs0 : FS.node) (cwd : list string) (f : string) :
  placed fs0 cwd f ->
  match verdict fs0 cwd f with
  | Raise e =>
      e = UnicodeEncodeError /\ Str.well_formed (posixpath.basename f) = false
      /\ exists c, FS.open_rb fs0 cwd f = Ok c
  | Ok _ => True
  end.
Proof.
  intros Hp. rewrite verdict_cases.
  pose proof (placed_open_rb fs0 cwd f) as Ho.
  destruct (placed_locations _ _ _ Hp) as (d & name & _ & _ & _ & _ & Hlocs).
  destruct (Hlocs fs0 (fun q => eq_refl)) as [_ Hs].
  destruct (FS.open_rb fs0 cwd f) as [c | e].
  2:{ rewrite (Ho e Hp eq_refl). exact I. }
  rewrite (write_text_put _ _ _ _ _ Hs), sidecar_text_well_formed.
  destruct (Str.well_formed (posixpath.basename f)).
  - now destruct (FS.put fs0 _ (bytes_of _)).
  - destruct (FS.put fs0 _ []); [| exact I]. repeat split. now exists c.
Qed.

Lemma works_app (l1 l2 : list event) : works (l1 ++ l2) = (works l1 ++ works l2)%list.
Proof. apply flat_map_app. Qed.

Lemma future_of_map (v : string -> result (option line)) (f : string) (l : list string) :
  In f l -> future_of f (map (fun g => (g, v g)) l) = Some (v f).
Proof.
  induction l as [| g l IH]; intros Hin; [destruct Hin |].
  cbn [map future_of]. destruct (String.eqb_spec g f) as [-> | E]; [reflexivity |].
  destruct Hin as [-> | Hin]; [congruence | now apply IH].
Qed.

(** The pool after any events whose work is that of distinct
    candidates: futures, standard error and the file system are those
    of the tasks run alone. *)
Lemma pool_core (fs0 : FS.node) (cwd : list string) (w0 : world) (evs : list event) :
  fs w0 = fs0 ->
  Forall (placed fs0 cwd) (works evs) ->
  NoDup (map (FS.locate fs0 cwd) (works evs)) ->
  futures (fold_left (step cwd) evs (Pool w0 [] None))
  = map (fun f => (f, verdict fs0 cwd f)) (works evs)
  /\ err (now (fold_left (step cwd) evs (Pool w0 [] None)))
     = (err w0 ++ flat_map (complaint fs0 cwd) (works evs))%list
  /\ (forall q, dir_at (fs (now (fold_left (step cwd) evs (Pool w0 [] None)))) q
                = dir_at fs0 q)
  /\ (forall q, (forall g, In g (works evs) ->
                           FS.locate fs0 cwd (g ++ ".sha256") <> Some q) ->
                view_at (fs (now (fold_left (step cwd) evs (Pool w0 [] None)))) q
                = view_at fs0 q)
  /\ (forall f q,
         In f (works evs) ->
         FS.locate fs0 cwd (f ++ ".sha256") = Some q ->
         view_at (fs (now (fold_left (step cwd) evs (Pool w0 [] None)))) q
         = view_at (fs (fst (solo fs0 cwd f))) q).
Proof.
  intros Hfs Hpl Hnd.
  destruct (step_work cwd evs (Pool w0 [] None) (w0, []) eq_refl eq_refl eq_refl)
    as (E1 & E2 & E3).
  assert (Hinv : inv fs0 (fs w0) []) by (rewrite Hfs; apply inv_start).
  destruct (batch_spec fs0 cwd (works evs) w0 [] [] Hinv Hpl Hnd)
    as ((written' & Hi) & _ & He & Hfu & Hfr & Hd).
  { intros g q _ _ []. }
  rewrite <- E1, <- E2, <- E3.
  split; [exact Hfu |]. split; [exact He |].
  split; [apply (inv_dirs _ _ _ Hi) |].
  split; [| exact Hd].
  intros q Hq. rewrite (Hfr q Hq). now rewrite Hfs.
Qed.

(** Standard output and the exception of the main thread, event by
    event. *)
Lemma pool_console (fs0 : FS.node) (cwd : list string) (w0 : world) :
  fs w0 = fs0 ->
  forall (evs pre : list event) (begun worked : list string),
    Forall (placed fs0 cwd) (works (pre ++ evs)) ->
    NoDup (map (FS.locate fs0 cwd) (works (pre ++ evs))) ->
    in_thread_order begun worked evs = true ->
    (forall f, existsb (String.eqb f) worked = true -> In f (works pre)) ->
    out (now (fold_left (step cwd) (pre ++ evs) (Pool w0 [] None)))
    = (out (now (fold_left (step cwd) pre (Pool w0 [] None)))
       ++ match raised (fold_left (step cwd) pre (Pool w0 [] None)) with
          | Some _ => map (fun g => Text (msg_processing g)) (begins evs)
          | None => shown (verdict fs0 cwd) evs
          end)%list
    /\ raised (fold_left (step cwd) (pre ++ evs) (Pool w0 [] None))
       = match raised (fold_left (step cwd) pre (Pool w0 [] None)) with
         | Some e => Some e
         | None => escaped (verdict fs0 cwd) evs
         end.
Proof.
  intros Hfs. induction evs as [| e evs IH]; intros pre begun worked Hpl Hnd Hord Hw.
  - rewrite app_nil_r. cbn [begins flat_map map shown escaped].
    destruct (raised _); now rewrite app_nil_r.
  - assert (Eapp : (pre ++ e :: evs = (pre ++ [e]) ++ evs)%list)
      by now rewrite <- app_assoc.
    rewrite Eapp in Hpl, Hnd |- *.
    assert (Estep : fold_left (step cwd) (pre ++ [e]) (Pool w0 [] None)
                    = step cwd (fold_left (step cwd) pre (Pool w0 [] None)) e)
      by now rewrite fold_left_app.
    set (s := fold_left (step cwd) pre (Pool w0 [] None)) in *.
    destruct e as [f | f | f]; cbn [in_thread_order] in Hord.
    + destruct (IH (pre ++ [Begin f])%list (f :: begun) worked Hpl Hnd Hord) as [Ho Hr].
      { intros g Hg. rewrite works_app. cbn [works flat_map]. rewrite app_nil_r. now apply Hw. }
      rewrite Ho, Hr, Estep. unfold step, print. cbn [now raised out begins flat_map app map
                                                          shown escaped].
      rewrite <- app_assoc. cbn [app]. destruct (raised s); now split.
    + apply andb_true_iff in Hord as [_ Hord].
      destruct (IH (pre ++ [Work f])%list begun (f :: worked) Hpl Hnd Hord) as [Ho Hr].
      { intros g Hg. rewrite works_app. cbn [works flat_map app]. apply in_or_app.
        cbn [existsb] in Hg. apply orb_true_iff in Hg as [Hg | Hg].
        - right. left. symmetry. now apply String.eqb_eq.
        - left. now apply Hw. }
      rewrite Ho, Hr, Estep. unfold step.
      pose proof (hash_and_write_out cwd (now s) f) as Hout.
      destruct (hash_and_write cwd (now s) f) as [w' r]. cbn [fst] in Hout.
      cbn [now raised begins flat_map app shown escaped]. rewrite Hout.
      destruct (raised s); now split.
    + apply andb_true_iff in Hord as [Hf Hord].
      destruct (IH (pre ++ [Report f])%list begun worked Hpl Hnd Hord) as [Ho Hr].
      { intros g Hg. rewrite works_app. cbn [works flat_map]. rewrite app_nil_r. now apply Hw. }
      rewrite Ho, Hr, Estep. unfold step.
      cbn [begins flat_map app shown escaped].
      destruct (raised s) as [e |] eqn:Er; [rewrite Er; now split |].
      assert (Hfut : future_of f (futures s) = Some (verdict fs0 cwd f)).
      { rewrite !works_app in Hpl, Hnd. rewrite map_app in Hnd.
        apply Forall_app in Hpl as [Hpl _]. apply NoDup_app_remove_r in Hnd.
        apply Forall_app in Hpl as [Hpl _]. rewrite map_app in Hnd.
        apply NoDup_app_remove_r in Hnd.
        destruct (pool_core fs0 cwd w0 pre Hfs Hpl Hnd) as (Hfu & _).
        unfold s. rewrite Hfu. apply future_of_map. now apply Hw. }
      rewrite Hfut.
      destruct (verdict fs0 cwd f) as [[l |] | ex]; cbn [now raised out print];
        rewrite ?Er; try (now split).
      rewrite <- app_assoc. now split.
Qed.
End RunFacts.

(** ** generate_sha256.py: what a run leaves *)

Section RunShape.
Local Open Scope string_scope.
Import generate_sha256.

Lemma filter_flat_map {A B : Type} (p : B -> bool) (g : A -> list B) (l : list A) :
  filter p (flat_map g l) = flat_map (fun x => filter p (g x)) l.
Proof.
  induction l as [| x l IH]; [reflexivity |].
  cbn [flat_map]. now rewrite filter_app, IH.
Qed.

Lemma length_flat_map_indicator {A B : Type} (g : A -> list B) (t : A -> bool) (l : list A) :
  (forall x, In x l -> List.length (g x) = if t x then 1 else 0) ->
  List.length (flat_map g l) = List.length (filter t l).
Proof.
  induction l as [| x l IH]; intros H; [reflexivity |].
  cbn [flat_map filter]. rewrite length_app, (H x) by now left.
  rewrite IH by (intros y Hy; apply H; now right).
  now destruct (t x).
Qed.

Lemma length_filter_negb {A : Type} (t : A -> bool) (l : list A) :
  List.length (filter t l) + List.length (filter (fun x => negb (t x)) l) = List.length l.
Proof.
  induction l as [| x l IH]; [reflexivity |].
  cbn [filter]. destruct (t x); cbn [negb List.length]; lia.
Qed.

Lemma filter_plain (p : line -> bool) (l : list line) :
  (forall x, In x l -> p x = false) -> filter p l = [].
Proof.
  induction l as [| x l IH]; intros H; [reflexivity |].
  cbn [filter]. rewrite (H x) by now left. apply IH. intros y Hy. apply H. now right.
Qed.

Lemma view_file_lookup (n : FS.node) (q : list string) (r w : bool) (c : list byte) :
  view_at n q = VFile r w c <-> FS.lookup n q = Some (FS.File r w c).
Proof.
  unfold view_at. destruct (FS.lookup n q) as [[r' w' c' | a' w' es] |]; split;
    intros H; try discriminate H; now injection H as -> -> ->.
Qed.

Lemma stat_of_view (fs0 fs' : FS.node) (cwd : list string) (p : string) (q : list string)
      (r w : bool) (c : list byte) :
  (forall x, dir_at fs' x = dir_at fs0 x) ->
  FS.locate fs0 cwd p = Some q ->
  view_at fs' q = VFile r w c ->
  FS.stat fs' cwd p = Some (FS.File r w c).
Proof.
  intros Hd Hq Hv. unfold FS.stat. rewrite (locate_dirs fs0 fs' cwd p Hd), Hq.
  now apply view_file_lookup.
Qed.

(** Every event is the beginning, the work or the report of a task. *)
Lemma schedule_nil (evs : list event) : schedule_of [] evs -> evs = [].
Proof.
  intros (Hb & Hw & Hr & _). destruct evs as [| [f | f | f] evs]; [reflexivity | | |];
    exfalso.
  - apply Permutation_sym, Permutation_nil in Hb. discriminate Hb.
  - apply Permutation_sym, Permutation_nil in Hw. discriminate Hw.
  - apply Permutation_sym, Permutation_nil in Hr. discriminate Hr.
Qed.

(** The first lines of the tasks are on standard output whatever the
    futures hold. *)
Lemma shown_processing (v : string -> result (option line)) (evs : list event) :
  (forall f l, v f = Ok (Some l) -> is_processing l = false) ->
  filter is_processing (shown v evs) = map (fun g => Text (msg_processing g)) (begins evs).
Proof.
  intros Hv.
  assert (Hb : forall l, filter is_processing (map (fun g => Text (msg_processing g)) l)
                         = map (fun g => Text (msg_processing g)) l).
  { induction l as [| g l IH]; [reflexivity |].
    cbn [map filter]. now rewrite processing_line, IH. }
  induction evs as [| [f | f | f] evs IH]; cbn [shown begins flat_map app filter map].
  - reflexivity.
  - now rewrite processing_line, IH.
  - exact IH.
  - destruct (v f) as [[l |] | e] eqn:E; [| exact IH | apply Hb].
    cbn [filter]. now rewrite (Hv f l E).
Qed.

(** When no future raises, the other lines are the results, in the
    order of the reports. *)
Lemma shown_reports (v : string -> result (option line)) (p : line -> bool)
      (evs : list event) :
  (forall f, p (Text (msg_processing f)) = false) ->
  escaped v evs = None ->
  filter p (shown v evs) = flat_map (fun f => filter p (said (v f))) (reports evs).
Proof.
  intros Hp. induction evs as [| [f | f | f] evs IH]; cbn [shown escaped reports flat_map app];
    intros He.
  - reflexivity.
  - cbn [filter]. rewrite Hp. now apply IH.
  - now apply IH.
  - destruct (v f) as [[l |] | e]; cbn [said filter app]; [| | discriminate].
    + destruct (p l); cbn [app]; now rewrite IH.
    + now apply IH.
Qed.

Lemma escaped_reports (v : string -> result (option line)) (evs : list event) :
  match escaped v evs with
  | Some e => exists f, In f (reports evs) /\ v f = Raise e
  | None => forall f, In f (reports evs) -> exists r, v f = Ok r
  end.
Proof.
  induction evs as [| [f | f | f] evs IH]; cbn [escaped reports flat_map app].
  - intros f [].
  - exact IH.
  - exact IH.
  - destruct (v f) as [r | e] eqn:E.
    + destruct (escaped v evs) as [e |].
      * destruct IH as (g & Hg & Hv). exists g. split; [now right | exact Hv].
      * intros g [<- | Hg]; [now exists r | now apply IH].
    + exists f. split; [now left | exact E].
Qed.

Lemma plain_headline (fs0 : FS.node) (cwd : list string) (a : args) :
  plain (headline fs0 cwd a).
Proof. unfold headline. destruct (candidates fs0 cwd a); repeat split. Qed.

(** A run on a directory whose scan completes, with a positive worker
    count, under any schedule.  The status tells whether a future
    raised.  Standard output is the scan line, the headline, what the
    pool shows and, when no future raised, the closing line; standard
    error holds the complaints of the tasks in the order of their work,
    then the traceback if there is one; directories stay what they
    were, only sidecar paths of candidates change, and each of them
    shows what the task of its candidate, run alone, leaves there. *)
Lemma main_facts (sched : list string -> list event) (fs0 : FS.node)
      (cwd : list string) (a : args) :
  FS.wf fs0 = true ->
  (forall l, schedule_of l (sched l)) ->
  FS.isdir fs0 cwd (directory a) = true ->
  scan_ok fs0 cwd a = true ->
  (0 < workers a)%Z ->
  status (main sched fs0 cwd a)
  = match escaped (verdict fs0 cwd) (sched (candidates fs0 cwd a)) with
    | Some _ => 1
    | None => 0
    end
  /\ (exists tail,
         Forall plain tail
         /\ out (final (main sched fs0 cwd a))
            = scan_line a :: headline fs0 cwd a
                :: (shown (verdict fs0 cwd) (sched (candidates fs0 cwd a)) ++ tail)%list)
  /\ err (final (main sched fs0 cwd a))
     = (flat_map (complaint fs0 cwd) (works (sched (candidates fs0 cwd a)))
        ++ match escaped (verdict fs0 cwd) (sched (candidates fs0 cwd a)) with
           | Some e => [Traceback e]
           | None => []
           end)%list
  /\ (forall q, dir_at (fs (final (main sched fs0 cwd a))) q = dir_at fs0 q)
  /\ (forall q,
         (forall g, In g (candidates fs0 cwd a) ->
                    FS.locate fs0 cwd (g ++ ".sha256") <> Some q) ->
         view_at (fs (final (main sched fs0 cwd a))) q = view_at fs0 q)
  /\ (forall f q,
         In f (candidates fs0 cwd a) ->
         FS.locate fs0 cwd (f ++ ".sha256") = Some q ->
         view_at (fs (final (main sched fs0 cwd a))) q
         = view_at (fs (fst (solo fs0 cwd f))) q).
Proof.
  intros Hwf Hsched Hdir Hscan Hw. rewrite (main_shape sched fs0 cwd a Hdir Hscan Hw).
  destruct (candidates_placed fs0 cwd a Hwf) as [Hpl Hnd].
  unfold headline, pool_end, announced.
  pose proof (Hsched (candidates fs0 cwd a)) as Hs.
  destruct (candidates fs0 cwd a) as [| f0 files] eqn:Ec.
  - rewrite (schedule_nil _ Hs). cbn [status final fs out err shown escaped works flat_map app].
    split; [reflexivity |]. split; [exists []; split; [constructor | reflexivity] |].
    repeat split. intros f q [].
  - set (cands := f0 :: files) in *.
    destruct Hs as (Hb & Hwk & Hr & Hord).
    assert (Hpl' : Forall (placed fs0 cwd) (works (sched cands))).
    { apply Forall_forall. intros g Hg. rewrite Forall_forall in Hpl. apply Hpl.
      apply (Permutation_in _ Hwk Hg). }
    assert (Hnd' : NoDup (map (FS.locate fs0 cwd) (works (sched cands)))).
    { apply (Permutation_NoDup (l := map (FS.locate fs0 cwd) cands)); [| exact Hnd].
      apply Permutation_map, Permutation_sym, Hwk. }
    set (w0 := World fs0 [scan_line a; Text (msg_found (List.length cands) (workers a))] []).
    destruct (pool_core fs0 cwd w0 (sched cands) eq_refl Hpl' Hnd')
      as (_ & Herr & Hdirs & Hframe & Hdone).
    destruct (pool_console fs0 cwd w0 eq_refl (sched cands) [] [] [] Hpl' Hnd' Hord)
      as [Hout Hraised].
    { intros g Hg. discriminate Hg. }
    cbn [app fold_left raised now out] in Hout, Hraised.
    set (s := fold_left (step cwd) (sched cands) (Pool w0 [] None)) in *.
    rewrite Hraised.
    assert (Hfr : forall q,
               (forall g, In g cands -> FS.locate fs0 cwd (g ++ ".sha256") <> Some q) ->
               view_at (fs (now s)) q = view_at fs0 q).
    { intros q Hq. apply Hframe. intros g Hg. apply Hq. apply (Permutation_in _ Hwk Hg). }
    assert (Hdn : forall f q,
               In f cands -> FS.locate fs0 cwd (f ++ ".sha256") = Some q ->
               view_at (fs (now s)) q = view_at (fs (fst (solo fs0 cwd f))) q).
    { intros f q Hf. apply Hdone. apply (Permutation_in _ (Permutation_sym Hwk) Hf). }
    destruct (escaped (verdict fs0 cwd) (sched cands)) as [e |];
      cbn [status final print print_err fs out err]; rewrite Hout, Herr.
    + split; [reflexivity |]. split; [exists []; split; [constructor |] |].
      * unfold w0. cbn [out app]. now rewrite app_nil_r.
      * unfold w0. cbn [err app]. repeat split; assumption.
    + split; [reflexivity |].
      split; [exists [Text msg_all_done]; split; [repeat constructor |] |].
      * unfold w0. cbn [out app]. reflexivity.
      * unfold w0. cbn [err app]. rewrite app_nil_r. repeat split; assumption.
Qed.

(** A candidate list that is not empty comes from a completed scan of
    a directory. *)
Lemma candidates_scanned (fs0 : FS.node) (cwd : list string) (a : args) (f : string) :
  In f (candidates fs0 cwd a) ->
  FS.isdir fs0 cwd (directory a) = true /\ scan_ok fs0 cwd a = true.
Proof.
  unfold candidates, scan_ok, scan, FS.isdir. destruct (recursive a).
  - rewrite scan_recursive_visits. destruct (FS.has_nul (directory a)); [intros [] |].
    destruct (FS.stat fs0 cwd (directory a)) as [[r w c | x w es] |]; cbn [visits FS.walk_tree];
      try (intros []; fail).
    now split.
  - destruct (scan_flat fs0 cwd (directory a)) as [l | e] eqn:E; [| intros []].
    destruct (scan_flat_listable _ _ _ _ E) as (w & es & ->). now split.
Qed.

(** What the task of a file that is hashed leaves at its sidecar. *)
Lemma solo_written (fs0 fs1 : FS.node) (cwd : list string) (f : string) (c : list byte) :
  FS.open_rb fs0 cwd f = Ok c ->
  FS.write_text fs0 cwd (f ++ ".sha256") (sidecar_text (SHA256.hexdigest c) f)
  = FS.Written fs1 ->
  fs (fst (solo fs0 cwd f)) = fs1.
Proof.
  intros Ho Hw. unfold solo. rewrite hash_and_write_cases. cbn [fs]. now rewrite Ho, Hw.
Qed.

Lemma written_view (fs0 fs1 : FS.node) (cwd : list string) (p text : string)
      (q : list string) :
  FS.locate fs0 cwd p = Some q ->
  FS.write_text fs0 cwd p text = FS.Written fs1 ->
  exists r, view_at fs1 q = VFile r true (bytes_of text).
Proof.
  intros Hq. rewrite (write_text_put _ _ _ _ _ Hq).
  destruct (Str.well_formed text).
  - destruct (FS.put fs0 q (bytes_of text)) as [fs' |] eqn:E; [| discriminate].
    intros [= <-]. eexists. apply (put_view _ _ _ _ E).
  - destruct (FS.put fs0 q []); discriminate.
Qed.

Lemma candidate_sidecar (fs0 : FS.node) (cwd : list string) (a : args) (f : string) :
  FS.wf fs0 = true ->
  In f (candidates fs0 cwd a) ->
  exists q, FS.locate fs0 cwd (f ++ ".sha256") = Some q.
Proof.
  intros Hwf Hf. destruct (candidates_placed fs0 cwd a Hwf) as [Hpl _].
  rewrite Forall_forall in Hpl.
  destruct (placed_locations _ _ _ (Hpl f Hf)) as (d & name & _ & _ & _ & _ & Hlocs).
  destruct (Hlocs fs0 (fun q => eq_refl)) as [_ Hs]. eauto.
Qed.

(** After the run the sidecar of a candidate that is hashed and whose
    sidecar can be written holds its text. *)
Lemma main_sidecar (sched : list string -> list event) (fs0 fs1 : FS.node)
      (cwd : list string) (a : args) (f : string) (c : list byte) :
  FS.wf fs0 = true ->
  (forall l, schedule_of l (sched l)) ->
  (0 < workers a)%Z ->
  In f (candidates fs0 cwd a) ->
  FS.open_rb fs0 cwd f = Ok c ->
  FS.write_text fs0 cwd (f ++ ".sha256") (sidecar_text (SHA256.hexdigest c) f)
  = FS.Written fs1 ->
  exists r,
    FS.stat (fs (final (main sched fs0 cwd a))) cwd (f ++ ".sha256")
    = Some (FS.File r true (bytes_of (sidecar_text (SHA256.hexdigest c) f))).
Proof.
  intros Hwf Hsched Hw Hf Ho Hwt.
  destruct (candidates_scanned _ _ _ _ Hf) as [Hdir Hscan].
  destruct (main_facts sched fs0 cwd a Hwf Hsched Hdir Hscan Hw)
    as (_ & _ & _ & Hdirs & _ & Hdone).
  destruct (candidate_sidecar fs0 cwd a f Hwf Hf) as [q Hq].
  destruct (written_view _ _ _ _ _ _ Hq Hwt) as [r Hv].
  exists r. apply (stat_of_view fs0 _ cwd _ q); [exact Hdirs | exact Hq |].
  rewrite (Hdone f q Hf Hq), (solo_written _ _ _ _ _ Ho Hwt). exact Hv.
Qed.
(** The runs that do not reach the pool. *)
Lemma main_without_pool (sched : list string -> list event) (fs0 : FS.node)
      (cwd : list string) (a : args) :
  (FS.isdir fs0 cwd (directory a) = false ->
   main sched fs0 cwd a = Run (World fs0 [] [Text (msg_not_dir (directory a))]) 1)
  /\ (FS.isdir fs0 cwd (directory a) = true ->
      forall e, scan fs0 cwd a = Raise e ->
                main sched fs0 cwd a = Run (World fs0 [scan_line a] [Traceback e]) 1)
  /\ (FS.isdir fs0 cwd (directory a) = true -> scan fs0 cwd a = Ok [] ->
      main sched fs0 cwd a = Run (World fs0 [scan_line a; Text msg_none] []) 0)
  /\ (FS.isdir fs0 cwd (directory a) = true -> scan_ok fs0 cwd a = true ->
      candidates fs0 cwd a <> [] -> (workers a <= 0)%Z ->
      main sched fs0 cwd a
      = Run (World fs0 [scan_line a; headline fs0 cwd a] [Traceback ValueError]) 1).
Proof.
  split; [| split; [| split]].
  - unfold main. intros ->. reflexivity.
  - unfold main, scan, scan_line. intros -> e He. cbn [negb].
    destruct (recursive a); rewrite He; reflexivity.
  - unfold main, scan, scan_line. intros -> He. cbn [negb].
    destruct (recursive a); rewrite He; reflexivity.
  - intros Hdir Hs Hc Hw. pose proof (scan_ok_candidates _ _ _ Hs) as E.
    unfold headline. destruct (candidates fs0 cwd a) as [| f l]; [congruence |].
    unfold main, scan_line. rewrite Hdir. cbn [negb]. unfold scan in E.
    apply Z.leb_le in Hw.
    destruct (recursive a); rewrite E; unfold print; cbn [fs out err]; now rewrite Hw.
Qed.

Lemma location_dec (x y : option (list string)) : {x = y} + {x <> y}.
Proof. repeat decide equality. Defined.

(** What any run leaves at a path: what was there, or what the task of
    the candidate whose sidecar path it is leaves there. *)
Lemma main_views (sched : list string -> list event) (fs0 : FS.node)
      (cwd : list string) (a : args) :
  FS.wf fs0 = true ->
  (forall l, schedule_of l (sched l)) ->
  (forall q, dir_at (fs (final (main sched fs0 cwd a))) q = dir_at fs0 q)
  /\ (forall q,
         view_at (fs (final (main sched fs0 cwd a))) q = view_at fs0 q
         \/ exists f,
             In f (candidates fs0 cwd a)
             /\ FS.locate fs0 cwd (f ++ ".sha256") = Some q
             /\ view_at (fs (final (main sched fs0 cwd a))) q
                = view_at (fs (fst (solo fs0 cwd f))) q).
Proof.
  intros Hwf Hsched.
  destruct (main_without_pool sched fs0 cwd a) as (H1 & H2 & H3 & H4).
  destruct (FS.isdir fs0 cwd (directory a)) eqn:Hdir; [| rewrite H1; split; [reflexivity | intros; now left]].
  destruct (scan_ok fs0 cwd a) eqn:Hscan.
  2:{ unfold scan_ok in Hscan. destruct (scan fs0 cwd a) as [l | e] eqn:E; [discriminate |].
      rewrite (H2 eq_refl e); split; [reflexivity | intros; now left]. }
  pose proof (scan_ok_candidates _ _ _ Hscan) as Hc.
  destruct (candidates fs0 cwd a) as [| f0 l] eqn:Ec.
  { rewrite (H3 eq_refl Hc). split; [reflexivity | intros; now left]. }
  destruct (Z.leb_spec (workers a) 0) as [Hw | Hw].
  { rewrite H4; [split; [reflexivity | intros; now left] | reflexivity | reflexivity | congruence | exact Hw]. }
  destruct (main_facts sched fs0 cwd a Hwf Hsched Hdir Hscan Hw)
    as (_ & _ & _ & Hdirs & Hframe & Hdone).
  rewrite Ec in Hframe, Hdone. split; [exact Hdirs |]. intros q.
  destruct (Exists_dec (fun g => FS.locate fs0 cwd (g ++ ".sha256") = Some q) (f0 :: l)
                       (fun g => location_dec _ _)) as [Hex | Hno].
  - apply Exists_exists in Hex as (g & Hg & Hq). right. exists g. auto.
  - left. apply Hframe. intros g Hg Hq. apply Hno. apply Exists_exists. now exists g.
Qed.
End RunShape.

(** ** generate_sha256.py: the claims *)

Section SidecarClaims.
Local Open Scope string_scope.
Import generate_sha256.

Lemma filter_around (p : line -> bool) (a b : line) (mid tail : list line) :
  p a = false -> p b = false -> Forall (fun x => p x = false) tail ->
  filter p (a :: b :: mid ++ tail) = filter p mid.
Proof.
  intros Ha Hb Ht. cbn [filter]. rewrite Ha, Hb, filter_app.
  rewrite (filter_plain p tail) by (now apply Forall_forall). apply app_nil_r.
Qed.

Lemma length_flat_map_pair {A B : Type} (g h : A -> list B) (l : list A) :
  List.length (flat_map g l) + List.length (flat_map h l)
  = List.length (flat_map (fun x => g x ++ h x)%list l).
Proof.
  induction l as [| x l IH]; [reflexivity |].
  cbn [flat_map]. rewrite !length_app, <- IH. lia.
Qed.

Lemma NoDup_map_eq {A B : Type} (h : A -> B) (l : list A) (x y : A) :
  NoDup (map h l) -> In x l -> In y l -> h x = h y -> x = y.
Proof.
  induction l as [| a l IH]; cbn [map]; intros Hnd Hx Hy E; [destruct Hx |].
  inversion Hnd as [| ? ? Ha Hnd']; subst.
  destruct Hx as [-> | Hx], Hy as [-> | Hy].
  - reflexivity.
  - exfalso. apply Ha. rewrite E. now apply in_map.
  - exfalso. apply Ha. rewrite <- E. now apply in_map.
  - now apply IH.
Qed.

(** One success line for a task that succeeds, none otherwise. *)
Lemma done_indicator (fs0 : FS.node) (cwd : list string) (f : string) :
  List.length (filter is_done (said (verdict fs0 cwd f)))
  = if succeeds fs0 cwd f then 1 else 0.
Proof.
  rewrite verdict_cases. unfold succeeds.
  destruct (FS.open_rb fs0 cwd f) as [c | e]; [| destruct e; reflexivity].
  destruct (FS.write_text fs0 cwd (f ++ ".sha256") (sidecar_text (SHA256.hexdigest c) f))
    as [e0 | x e0 | x]; [destruct e0 | |]; try reflexivity.
  cbn [said filter]. now rewrite done_line.
Qed.

(** One error line, on either stream, for a task that fails without
    raising. *)
Lemma error_indicator (fs0 : FS.node) (cwd : list string) (f : string)
      (r : option line) :
  verdict fs0 cwd f = Ok r ->
  List.length (filter is_error (complaint fs0 cwd f)
               ++ filter is_error (said (verdict fs0 cwd f)))
  = if succeeds fs0 cwd f then 0 else 1.
Proof.
  rewrite verdict_cases, complaint_cases. unfold succeeds.
  destruct (FS.open_rb fs0 cwd f) as [c | e]; [| destruct e; try discriminate; reflexivity].
  destruct (FS.write_text fs0 cwd (f ++ ".sha256") (sidecar_text (SHA256.hexdigest c) f))
    as [e0 | x e0 | x]; [destruct e0 | |]; try discriminate; reflexivity.
Qed.

(** Candidates whose names are texts raise nothing. *)
Lemma texts_raise_nothing (fs0 : FS.node) (cwd : list string) (a : args) (f : string) :
  FS.wf fs0 = true ->
  Forall (fun g => Str.well_formed (posixpath.basename g) = true) (candidates fs0 cwd a) ->
  In f (candidates fs0 cwd a) ->
  exists r, verdict fs0 cwd f = Ok r.
Proof.
  intros Hwf Htext Hf. destruct (candidates_placed fs0 cwd a Hwf) as [Hpl _].
  rewrite Forall_forall in Hpl, Htext.
  pose proof (placed_verdict fs0 cwd f (Hpl f Hf)) as H.
  destruct (verdict fs0 cwd f) as [r | e]; [now exists r |].
  destruct H as (_ & H & _). rewrite (Htext f Hf) in H. discriminate H.
Qed.

(** C6 (amended).  A run of SidecarChecksumWriter on a directory that
    it can scan, with a positive worker count, over a candidate list of
    n files whose names are texts (well-formed UTF-8), of which k cannot
    be read or cannot have their sidecar opened, completes with status 0
    whatever the schedule of the pool: it processes all n files, reports
    n-k sidecars written and k errors, one for each failed file, and
    every one of the n-k other files has its sidecar. *)
Theorem sidecar_failures_not_fatal
        (sched : list string -> list event) (fs0 : FS.node) (cwd : list string) (a : args) :
  FS.wf fs0 = true ->
  (forall l, schedule_of l (sched l)) ->
  FS.isdir fs0 cwd (directory a) = true ->
  scan_ok fs0 cwd a = true ->
  (0 < workers a)%Z ->
  Forall (fun f => Str.well_formed (posixpath.basename f) = true) (candidates fs0 cwd a) ->
  status (main sched fs0 cwd a) = 0
  /\ count is_processing (out (final (main sched fs0 cwd a)))
     = List.length (candidates fs0 cwd a)
  /\ count is_done (out (final (main sched fs0 cwd a)))
     = List.length (candidates fs0 cwd a)
       - List.length (filter (fun f => negb (succeeds fs0 cwd f)) (candidates fs0 cwd a))
  /\ count is_error (err (final (main sched fs0 cwd a)) ++ out (final (main sched fs0 cwd a)))
     = List.length (filter (fun f => negb (succeeds fs0 cwd f)) (candidates fs0 cwd a))
  /\ (forall f,
         In f (candidates fs0 cwd a) -> succeeds fs0 cwd f = true ->
         exists c r,
           FS.open_rb fs0 cwd f = Ok c
           /\ FS.stat (fs (final (main sched fs0 cwd a))) cwd (f ++ ".sha256")
              = Some (FS.File r true (bytes_of (sidecar_text (SHA256.hexdigest c) f)))).
Proof.
  intros Hwf Hsched Hdir Hscan Hw Htext.
  destruct (main_facts sched fs0 cwd a Hwf Hsched Hdir Hscan Hw)
    as (Hst & (tail & Htail & Hout) & Herr & _).
  pose proof (Hsched (candidates fs0 cwd a)) as (Hb & Hwk & Hr & _).
  set (cands := candidates fs0 cwd a) in *.
  set (v := verdict fs0 cwd) in *.
  pose proof (plain_scan_line a) as Hscanl.
  pose proof (plain_headline fs0 cwd a) as Hhead.
  assert (Hnone : escaped v (sched cands) = None).
  { pose proof (escaped_reports v (sched cands)) as H.
    destruct (escaped v (sched cands)) as [e |]; [| reflexivity].
    destruct H as (f & Hf & Hv). apply (Permutation_in _ Hr) in Hf.
    destruct (texts_raise_nothing fs0 cwd a f Hwf Htext Hf) as [r Hr'].
    unfold v in Hv. congruence. }
  rewrite Hnone in Hst, Herr. rewrite app_nil_r in Herr.
  split; [exact Hst |]. unfold count. rewrite Herr, Hout.
  split; [| split; [| split]].
  - rewrite filter_around;
      [| apply Hscanl | apply Hhead | apply Forall_forall; intros x Hx;
                                      rewrite Forall_forall in Htail; apply (Htail x Hx)].
    rewrite shown_processing by apply verdict_not_processing.
    rewrite length_map. apply Permutation_length, Hb.
  - rewrite filter_around;
      [| apply Hscanl | apply Hhead | apply Forall_forall; intros x Hx;
                                      rewrite Forall_forall in Htail; apply (Htail x Hx)].
    rewrite (shown_reports v is_done) by (reflexivity || exact Hnone).
    rewrite (length_flat_map_indicator _ (succeeds fs0 cwd))
      by (intros f _; apply done_indicator).
    rewrite (Permutation_length (filter_Permutation (succeeds fs0 cwd) _ _ Hr)).
    pose proof (length_filter_negb (succeeds fs0 cwd) cands). lia.
  - rewrite filter_app, length_app.
    rewrite filter_around;
      [| apply Hscanl | apply Hhead | apply Forall_forall; intros x Hx;
                                      rewrite Forall_forall in Htail; apply (Htail x Hx)].
    rewrite (shown_reports v is_error) by (reflexivity || exact Hnone).
    rewrite filter_flat_map.
    rewrite (Permutation_length
               (Permutation_flat_map (fun x => filter is_error (complaint fs0 cwd x)) Hwk)).
    rewrite (Permutation_length
               (Permutation_flat_map (fun f => filter is_error (said (v f))) Hr)).
    rewrite length_flat_map_pair.
    apply (length_flat_map_indicator _ (fun f => negb (succeeds fs0 cwd f))).
    intros f Hf. destruct (texts_raise_nothing fs0 cwd a f Hwf Htext Hf) as [r Hr'].
    unfold v. rewrite (error_indicator fs0 cwd f r Hr').
    now destruct (succeeds fs0 cwd f).
  - intros f Hf Hs. unfold succeeds in Hs.
    destruct (FS.open_rb fs0 cwd f) as [c |] eqn:Eo; [| discriminate].
    destruct (FS.write_text fs0 cwd (f ++ ".sha256") (sidecar_text (SHA256.hexdigest c) f))
      as [e0 | x e0 | fs1] eqn:Ew; try discriminate.
    destruct (main_sidecar sched fs0 fs1 cwd a f c Hwf Hsched Hw Hf Eo Ew) as [r H].
    now exists c, r.
Qed.

(** C7 (amended).  For every candidate that is hashed and whose sidecar
    can be opened and written (the name of the file is a text), the run
    (positive worker count, any schedule of the pool, whatever becomes
    of the other tasks) leaves at the path of the file with .sha256
    appended a regular file whose whole content is the digest, two
    spaces, the basename and a newline; that path is the sidecar of no
    other candidate. *)
Theorem sidecar_of_hashed_file
        (sched : list string -> list event) (fs0 : FS.node) (cwd : list string) (a : args)
        (f : string) (c : list byte) (fs1 : FS.node) :
  FS.wf fs0 = true ->
  (forall l, schedule_of l (sched l)) ->
  (0 < workers a)%Z ->
  In f (candidates fs0 cwd a) ->
  FS.open_rb fs0 cwd f = Ok c ->
  FS.write_text fs0 cwd (f ++ ".sha256")
                (SHA256.hexdigest c ++ "  " ++ posixpath.basename f ++ Str.newline)
  = FS.Written fs1 ->
  (exists r,
      FS.stat (fs (final (main sched fs0 cwd a))) cwd (f ++ ".sha256")
      = Some (FS.File r true
                (bytes_of (SHA256.hexdigest c ++ "  " ++ posixpath.basename f ++ Str.newline))))
  /\ (forall g, In g (candidates fs0 cwd a) ->
                FS.locate fs0 cwd (g ++ ".sha256") = FS.locate fs0 cwd (f ++ ".sha256") ->
                g = f).
Proof.
  intros Hwf Hsched Hw Hf Ho Hwt.
  destruct (candidates_placed fs0 cwd a Hwf) as [Hpl Hnd].
  split.
  - apply (main_sidecar sched fs0 fs1 cwd a f c Hwf Hsched Hw Hf Ho Hwt).
  - intros g Hg E. rewrite Forall_forall in Hpl.
    apply (NoDup_map_eq (FS.locate fs0 cwd) _ g f Hnd Hg Hf).
    apply sidecar_locations_differ; auto.
Qed.

(** C8 (amended).  In both modes the candidate list holds no file whose
    name ends with .sha256, and whatever the run does, a regular file
    that is not the sidecar path of a candidate (whatever its name) is
    left as it was.  When the run reaches the pool (the target is a
    directory that can be scanned, the worker count is positive), the
    list has been built from the file system as the run found it before
    any task starts: the headline with the length of the list is printed
    before the first line of a task, and the files processed are exactly
    the candidates. *)
Theorem sidecar_candidates_fixed
        (sched : list string -> list event) (fs0 : FS.node) (cwd : list string) (a : args) :
  FS.wf fs0 = true ->
  (forall l, schedule_of l (sched l)) ->
  (forall f, In f (candidates fs0 cwd a) ->
             Str.endswith (posixpath.basename f) ".sha256" = false)
  /\ (forall p r w c,
         FS.stat fs0 cwd p = Some (FS.File r w c) ->
         (forall g, In g (candidates fs0 cwd a) ->
                    FS.locate fs0 cwd (g ++ ".sha256") <> FS.locate fs0 cwd p) ->
         FS.stat (fs (final (main sched fs0 cwd a))) cwd p = Some (FS.File r w c))
  /\ (FS.isdir fs0 cwd (directory a) = true ->
      scan_ok fs0 cwd a = true ->
      (0 < workers a)%Z ->
      exists rest,
        out (final (main sched fs0 cwd a)) = scan_line a :: headline fs0 cwd a :: rest
        /\ Permutation (filter is_processing rest)
                       (map (fun f => Text (msg_processing f)) (candidates fs0 cwd a))).
Proof.
  intros Hwf Hsched.
  destruct (candidates_placed fs0 cwd a Hwf) as [Hpl _].
  split; [| split].
  - intros f Hf. rewrite Forall_forall in Hpl.
    destruct (placed_locations _ _ _ (Hpl f Hf)) as (d & name & _ & Hns & _ & Hbn & _).
    now rewrite Hbn.
  - intros p r w c Hs Hother.
    destruct (main_views sched fs0 cwd a Hwf Hsched) as [Hdirs Hviews].
    destruct (stat_locate _ _ _ _ Hs) as (q & Hq & Hl).
    apply (stat_of_view fs0 _ cwd p q); [exact Hdirs | exact Hq |].
    destruct (Hviews q) as [E | (g & Hg & Hgq & _)].
    + rewrite E. now apply view_file_lookup.
    + exfalso. apply (Hother g Hg). now rewrite Hgq, Hq.
  - intros Hdir Hscan Hw.
    destruct (main_facts sched fs0 cwd a Hwf Hsched Hdir Hscan Hw)
      as (_ & (tail & Htail & Hout) & _).
    pose proof (Hsched (candidates fs0 cwd a)) as (Hb & _).
    eexists. split; [exact Hout |].
    rewrite filter_app, (filter_plain is_processing tail), app_nil_r.
    + rewrite shown_processing by apply verdict_not_processing.
      now apply Permutation_map.
    + intros x Hx. rewrite Forall_forall in Htail. apply (Htail x Hx).
Qed.
End SidecarClaims.

(** ** generate_sha256.py: schedules and runs *)

Section SidecarRuns.
Local Open Scope string_scope.
Import generate_sha256.

Lemma in_order_threads (l : list string) :
  forall begun worked, in_thread_order begun worked (in_order l) = true.
Proof.
  induction l as [| f l IH]; intros begun worked; [reflexivity |].
  cbn [in_order flat_map app in_thread_order existsb].
  rewrite String.eqb_refl. cbn [orb andb]. apply IH.
Qed.

Lemma in_order_events (l : list string) :
  begins (in_order l) = l /\ works (in_order l) = l /\ reports (in_order l) = l.
Proof.
  unfold begins, works, reports, in_order.
  induction l as [| f l (IH1 & IH2 & IH3)]; [now repeat split |].
  cbn [flat_map app]. now rewrite IH1, IH2, IH3.
Qed.

Lemma in_order_schedule (l : list string) : schedule_of l (in_order l).
Proof.
  destruct (in_order_events l) as (E1 & E2 & E3).
  unfold schedule_of. rewrite E1, E2, E3.
  repeat split; try apply Permutation_refl. apply in_order_threads.
Qed.

Lemma eager_threads_begin (l : list string) (evs : list event) :
  forall begun worked,
    in_thread_order begun worked (map Begin l ++ evs)
    = in_thread_order (rev l ++ begun) worked evs.
Proof.
  induction l as [| f l IH]; intros begun worked; [reflexivity |].
  cbn [map app in_thread_order rev]. rewrite IH. now rewrite <- app_assoc.
Qed.

Lemma eager_threads_work (m : list string) :
  forall begun worked,
    (forall f, In f m -> existsb (String.eqb f) begun = true) ->
    in_thread_order begun worked (flat_map (fun f => [Work f; Report f]) m) = true.
Proof.
  induction m as [| f m IH]; intros begun worked H; [reflexivity |].
  cbn [flat_map app in_thread_order existsb].
  rewrite (H f) by now left. rewrite String.eqb_refl. cbn [orb andb].
  apply IH. intros g Hg. apply H. now right.
Qed.

Lemma eager_schedule (l : list string) : schedule_of l (eager l).
Proof.
  assert (Eb : forall m evs, begins (map Begin m ++ evs) = (m ++ begins evs)%list).
  { induction m as [| f m IH]; intros evs; [reflexivity |].
    cbn [map app begins flat_map]. f_equal. apply IH. }
  assert (Ew : forall m evs, works (map Begin m ++ evs) = works evs).
  { induction m as [| f m IH]; intros evs; [reflexivity |]. apply IH. }
  assert (Er : forall m evs, reports (map Begin m ++ evs) = reports evs).
  { induction m as [| f m IH]; intros evs; [reflexivity |]. apply IH. }
  assert (Et1 : forall m, begins (flat_map (fun f => [Work f; Report f]) m) = []).
  { unfold begins. induction m as [| f m IH]; [reflexivity |].
    cbn [flat_map app]. exact IH. }
  assert (Et2 : forall m, works (flat_map (fun f => [Work f; Report f]) m) = m).
  { unfold works. induction m as [| f m IH]; [reflexivity |].
    cbn [flat_map app]. now f_equal. }
  assert (Et3 : forall m, reports (flat_map (fun f => [Work f; Report f]) m) = m).
  { unfold reports. induction m as [| f m IH]; [reflexivity |].
    cbn [flat_map app]. now f_equal. }
  unfold schedule_of, eager. rewrite Eb, Ew, Er, Et1, Et2, Et3, app_nil_r.
  repeat split; try apply Permutation_refl; try apply Permutation_sym, Permutation_rev.
  rewrite eager_threads_begin. apply eager_threads_work.
  intros f Hf. apply existsb_exists. exists f. split; [| apply String.eqb_refl].
  apply in_or_app. now left.
Qed.

Example sidecar_scenario :
  main eager side_fs [] side_args
  = Run
      (World
         (FS.Dir true true
            [("d", FS.Dir true true
                     [("f.bin", FS.File true true (bytes_of "x"));
                      ("g.bin", FS.File false true (bytes_of "y"));
                      ("h.bin", FS.File true true (bytes_of "z"));
                      ("h.bin.sha256", FS.File true false (bytes_of "old"));
                      ("old.sha256", FS.File true true (bytes_of "zz"));
                      ("sub",
                       FS.Dir true true
                         [("k.bin", FS.File true true (bytes_of "x"));
                          ("k.bin.sha256",
                           FS.File true true
                             (bytes_of
                                ("2d711642b726b04401627ca9fbac32f5c8530fb1903cc4db02258717921a4881"
                                   ++ "  k.bin" ++ Str.newline)))]);
                      ("locked",
                       FS.Dir false true [("m.bin", FS.File true true (bytes_of "x"))]);
                      ("f.bin.sha256",
                       FS.File true true
                         (bytes_of
                            ("2d711642b726b04401627ca9fbac32f5c8530fb1903cc4db02258717921a4881"
                               ++ "  f.bin" ++ Str.newline)))])])
         [Text (msg_scan_rec "d"); Text (msg_found 4 4);
          Text (msg_processing "d/f.bin"); Text (msg_processing "d/g.bin");
          Text (msg_processing "d/h.bin"); Text (msg_processing "d/sub/k.bin");
          Text (msg_done "d/sub/k.bin.sha256");
          TextExn (msg_unwritable "d/h.bin.sha256") OSError;
          Text (msg_done "d/f.bin.sha256");
          Text msg_all_done]
         [TextExn (msg_unreadable "d/g.bin") OSError])
      0.
Proof. vm_compute. reflexivity. Qed.

Lemma sidecar_failures_not_fatal_witness :
  status (main eager side_fs [] side_args) = 0
  /\ count is_processing (out (final (main eager side_fs [] side_args)))
     = List.length (candidates side_fs [] side_args)
  /\ count is_done (out (final (main eager side_fs [] side_args)))
     = List.length (candidates side_fs [] side_args)
       - List.length (filter (fun f => negb (succeeds side_fs [] f))
                             (candidates side_fs [] side_args))
  /\ count is_error (err (final (main eager side_fs [] side_args))
                     ++ out (final (main eager side_fs [] side_args)))
     = List.length (filter (fun f => negb (succeeds side_fs [] f))
                           (candidates side_fs [] side_args))
  /\ (forall f,
         In f (candidates side_fs [] side_args) -> succeeds side_fs [] f = true ->
         exists c r,
           FS.open_rb side_fs [] f = Ok c
           /\ FS.stat (fs (final (main eager side_fs [] side_args))) [] (f ++ ".sha256")
              = Some (FS.File r true (bytes_of (sidecar_text (SHA256.hexdigest c) f)))).
Proof.
  apply (sidecar_failures_not_fatal eager side_fs [] side_args).
  - reflexivity.
  - apply eager_schedule.
  - reflexivity.
  - reflexivity.
  - reflexivity.
  - vm_compute. repeat constructor.
Defined.

(** C6 as stated fails, in two ways.  With a worker count of 0 the pool
    cannot be made: the run over four candidates ends with status 1 and
    has processed no file and written no sidecar.  With a candidate whose
    name is no text the write of its sidecar raises an exception that
    [process_file] does not catch: every file can be read and every
    sidecar opened, and the run ends with a traceback and status 1. *)
Lemma sidecar_fatal_counterexample :
  (List.length (candidates side_fs [] (Args "d" true 0)) = 4
   /\ status (main in_order side_fs [] (Args "d" true 0)) = 1
   /\ count is_processing (out (final (main in_order side_fs [] (Args "d" true 0)))) = 0
   /\ err (final (main in_order side_fs [] (Args "d" true 0))) = [Traceback ValueError]
   /\ fs (final (main in_order side_fs [] (Args "d" true 0))) = side_fs)
  /\ (candidates raw_fs [] (Args "d" false 4)
      = ["d/a.bin"; "d/" ++ raw_name; "d/z.bin"]
      /\ status (main in_order raw_fs [] (Args "d" false 4)) = 1
      /\ out (final (main in_order raw_fs [] (Args "d" false 4)))
         = [Text (msg_scan "d"); Text (msg_found 3 4);
            Text (msg_processing "d/a.bin"); Text (msg_done "d/a.bin.sha256");
            Text (msg_processing ("d/" ++ raw_name));
            Text (msg_processing "d/z.bin")]
      /\ err (final (main in_order raw_fs [] (Args "d" false 4)))
         = [Traceback UnicodeEncodeError]).
Proof. repeat split; vm_compute; reflexivity. Qed.

Lemma sidecar_of_hashed_file_witness :
  (exists r,
      FS.stat (fs (final (main eager side_fs [] side_args))) [] ("d/sub/k.bin" ++ ".sha256")
      = Some (FS.File r true
                (bytes_of (SHA256.hexdigest (bytes_of "x") ++ "  "
                             ++ posixpath.basename "d/sub/k.bin" ++ Str.newline))))
  /\ (forall g, In g (candidates side_fs [] side_args) ->
                FS.locate side_fs [] (g ++ ".sha256")
                = FS.locate side_fs [] ("d/sub/k.bin" ++ ".sha256") ->
                g = "d/sub/k.bin").
Proof.
  apply (sidecar_of_hashed_file
           eager side_fs [] side_args "d/sub/k.bin" (bytes_of "x")
           match FS.write_text side_fs [] ("d/sub/k.bin" ++ ".sha256")
                   (SHA256.hexdigest (bytes_of "x") ++ "  "
                      ++ posixpath.basename "d/sub/k.bin" ++ Str.newline) with
           | FS.Written fs1 => fs1
           | _ => side_fs
           end).
  - reflexivity.
  - apply eager_schedule.
  - reflexivity.
  - vm_compute. right. right. right. left. reflexivity.
  - reflexivity.
  - vm_compute. reflexivity.
Defined.

(** C7 as stated fails, in two ways.  The candidate [d/h.bin] is hashed,
    and after the run its sidecar path still holds the content of the
    read-only file that was there.  The candidate of [raw_fs] whose name
    is no text is hashed, and its sidecar is left empty. *)
Lemma sidecar_unwritable_counterexample :
  (In "d/h.bin" (candidates side_fs [] side_args)
   /\ FS.open_rb side_fs [] "d/h.bin" = Ok (bytes_of "z")
   /\ status (main in_order side_fs [] side_args) = 0
   /\ FS.stat (fs (final (main in_order side_fs [] side_args))) [] "d/h.bin.sha256"
      = Some (FS.File true false (bytes_of "old")))
  /\ (In ("d/" ++ raw_name) (candidates raw_fs [] (Args "d" false 4))
      /\ FS.open_rb raw_fs [] ("d/" ++ raw_name) = Ok (bytes_of "y")
      /\ FS.stat (fs (final (main in_order raw_fs [] (Args "d" false 4)))) []
                 ("d/" ++ raw_name ++ ".sha256")
         = Some (FS.File true true [])).
Proof.
  split; (split; [vm_compute; tauto |]); repeat split; vm_compute; reflexivity.
Qed.

Lemma sidecar_candidates_fixed_witness :
  (forall f, In f (candidates side_fs [] side_args) ->
             Str.endswith (posixpath.basename f) ".sha256" = false)
  /\ (forall p r w c,
         FS.stat side_fs [] p = Some (FS.File r w c) ->
         (forall g, In g (candidates side_fs [] side_args) ->
                    FS.locate side_fs [] (g ++ ".sha256") <> FS.locate side_fs [] p) ->
         FS.stat (fs (final (main eager side_fs [] side_args))) [] p
         = Some (FS.File r w c))
  /\ (FS.isdir side_fs [] (directory side_args) = true ->
      scan_ok side_fs [] side_args = true ->
      (0 < workers side_args)%Z ->
      exists rest,
        out (final (main eager side_fs [] side_args))
        = scan_line side_args :: headline side_fs [] side_args :: rest
        /\ Permutation (filter is_processing rest)
                       (map (fun f => Text (msg_processing f))
                            (candidates side_fs [] side_args))).
Proof.
  apply (sidecar_candidates_fixed eager side_fs [] side_args).
  - reflexivity.
  - apply eager_schedule.
Defined.

(** C8 as stated fails: [d/f.bin.sha256] ends with .sha256 and is no
    candidate, in either mode, and the run writes over it. *)
Lemma sidecar_overwritten_counterexample :
  Str.endswith (posixpath.basename "d/f.bin.sha256") ".sha256" = true
  /\ candidates stale_fs [] (Args "d" false 4) = ["d/f.bin"]
  /\ candidates stale_fs [] (Args "d" true 4) = ["d/f.bin"]
  /\ FS.stat stale_fs [] "d/f.bin.sha256" = Some (FS.File true true (bytes_of "stale"))
  /\ FS.stat (fs (final (main in_order stale_fs [] (Args "d" false 4)))) [] "d/f.bin.sha256"
     = Some (FS.File true true
               (bytes_of ("2d711642b726b04401627ca9fbac32f5c8530fb1903cc4db02258717921a4881"
                            ++ "  f.bin" ++ Str.newline)))
  /\ FS.stat (fs (final (main in_order stale_fs [] (Args "d" true 4)))) [] "d/f.bin.sha256"
     = Some (FS.File true true
               (bytes_of ("2d711642b726b04401627ca9fbac32f5c8530fb1903cc4db02258717921a4881"
                            ++ "  f.bin" ++ Str.newline))).
Proof. repeat split; vm_compute; reflexivity. Qed.
End SidecarRuns.

(** ** Hashing one file *)

Section HashingOneFile.
Local Open Scope string_scope.
Import generate_sha256.

(** X1.  [sha256_file] returns the SHA-256 digest of the whole content
    of a readable regular file, however the content falls into chunks
    of 8192 bytes, and the digest is 64 lower-case hexadecimal
    characters.  For a path with a NUL character [open] raises
    [ValueError]; for any other path that names no readable regular file
    the [OSError] of [open] escapes. *)
Theorem sha256_file_whole_content (fs0 : FS.node) (cwd : list string) (path : string) :
  gen_sha256.sha256_file fs0 cwd path
  = (if Str.contains Str.nul path then Raise ValueError
     else match FS.stat fs0 cwd path with
          | Some (FS.File true _ content) => Ok (SHA256.hexdigest content)
          | _ => Raise OSError
          end)
  /\ match gen_sha256.sha256_file fs0 cwd path with
     | Ok digest =>
         String.length digest = 64
         /\ forallb is_lower_hex (list_ascii_of_string digest) = true
     | Raise e => e = if Str.contains Str.nul path then ValueError else OSError
     end.
Proof.
  rewrite sha256_file_stat. unfold FS.has_nul. split; [reflexivity |].
  destruct (Str.contains Str.nul path); [reflexivity |].
  destruct (FS.stat fs0 cwd path) as [[[|] w c | a w es] |]; try reflexivity.
  split; [apply hexdigest_length | apply hexdigest_lower].
Qed.

(** X2.  [calculate_sha256] of the sidecar tool computes what
    [sha256_file] of the mapping tool computes.  Where that one raises
    [OSError] it writes one line on standard error and returns [None];
    any other exception (the [ValueError] of a path with a NUL
    character) escapes.  It never changes the file system or standard
    output. *)
Theorem calculate_sha256_catches_oserror (cwd : list string) (w : world) (filepath : string) :
  calculate_sha256 cwd w filepath
  = match gen_sha256.sha256_file (fs w) cwd filepath with
    | Ok digest => (w, Ok (Some digest))
    | Raise OSError =>
        (World (fs w) (out w) (err w ++ [TextExn (msg_unreadable filepath) OSError]), Ok None)
    | Raise e => (w, Raise e)
    end.
Proof.
  unfold calculate_sha256, gen_sha256.sha256_file.
  destruct (FS.open_rb (fs w) cwd filepath) as [content | e]; cbn [bind];
    [| destruct e; reflexivity].
  rewrite (read_loop_whole CHUNK_SIZE content chunk_size_positive).
  rewrite (read_loop_whole 8192 content chunk_positive). reflexivity.
Qed.

Example calculate_sha256_nul :
  calculate_sha256 [] (World side_fs [] []) ("d/f" ++ String Str.nul ".bin")
  = (World side_fs [] [], Raise ValueError).
Proof. vm_compute. reflexivity. Qed.
End HashingOneFile.

(** ** gen_sha256.py: what the mapping holds *)

Section MappingFacts.
Local Open Scope string_scope.

Lemma contains_replace (a b : ascii) (s : string) :
  a <> b -> Str.contains a (Str.replace a b s) = false.
Proof.
  intros Hab. induction s as [| c s IH]; cbn [Str.replace Str.contains]; [reflexivity |].
  rewrite IH, orb_false_r.
  destruct (Ascii.eqb_spec c a) as [-> | Hc].
  - apply Ascii.eqb_neq. congruence.
  - now apply Ascii.eqb_neq.
Qed.

Lemma assign_all_keys_inv (l : list (string * string)) :
  forall (d : Dict.t) (k : string),
    In k (Dict.keys (assign_all l d)) -> In k (Dict.keys d) \/ In k (map fst l).
Proof.
  induction l as [| [k0 v0] l IH]; intros d k Hin; [now left |].
  cbn [assign_all fold_left fst snd] in Hin. apply IH in Hin as [Hin | Hin].
  - rewrite dict_keys_set in Hin.
    destruct (existsb (String.eqb k0) (Dict.keys d)); [now left |].
    apply in_app_or in Hin as [Hin | [<- | []]]; [now left | right; now left].
  - right. now right.
Qed.

Lemma dict_set_length (d : Dict.t) (k v : string) :
  List.length (Dict.set d k v) <= S (List.length d).
Proof.
  induction d as [| [k' v'] d IH]; cbn [Dict.set List.length]; [lia |].
  destruct (k' =? k); cbn [List.length]; lia.
Qed.

Lemma assign_all_length (l : list (string * string)) :
  forall d : Dict.t, List.length (assign_all l d) <= List.length d + List.length l.
Proof.
  induction l as [| [k v] l IH]; intros d; cbn [assign_all fold_left List.length fst snd]; [lia |].
  specialize (IH (Dict.set d k v)). unfold assign_all in IH.
  pose proof (dict_set_length d k v). lia.
Qed.

(** X3.  Every entry of the mapping comes from a file: its key is the
    key of a readable regular file below the root and its value is the
    SHA-256 digest of that file's content.  Directories, and anything
    outside the root, have no entry. *)
Theorem gen_sha256_entries_are_files
        (fs : FS.node) (cwd : list string) (directory : string) (m : Dict.t)
        (k v : string) :
  FS.wf fs = true ->
  gen_sha256.generate_sha256_map fs cwd directory = Ok m ->
  Dict.get m k = Some v ->
  exists root p w content,
    FS.stat fs cwd (posixpath.abspath cwd directory) = Some root
    /\ p <> []
    /\ FS.lookup root p = Some (FS.File true w content)
    /\ k = key_of p
    /\ v = SHA256.hexdigest content.
Proof.
  intros Hwf Hm Hget. rewrite (generate_sha256_map_cases _ _ _ Hwf) in Hm.
  destruct (FS.has_nul (posixpath.abspath cwd directory)); [discriminate Hm |].
  destruct (forallb readable (files_below fs cwd directory)) eqn:R; [| discriminate Hm].
  injection Hm as <-.
  apply assign_all_get_inv in Hget as [Hin | Hd]; [| discriminate Hd].
  apply in_map_iff in Hin as ([p f] & E & Hin).
  rewrite forallb_forall in R. specialize (R _ Hin).
  unfold files_below in Hin.
  destruct (FS.stat fs cwd (posixpath.abspath cwd directory)) as [root |] eqn:S; [| destruct Hin].
  destruct (stat_locate _ _ _ _ S) as (d & _ & Hroot).
  apply files_under_lookup in Hin as (Hp & Hl & _); [| exact (wf_lookup _ _ _ Hwf Hroot)].
  unfold readable in R. cbn [snd] in R.
  destruct f as [[|] w content | a w es]; try discriminate R.
  unfold digest_entry in E. cbn [fst snd content_of] in E. injection E as <- <-.
  exists root, p, w, content. repeat split; assumption.
Qed.

(** X4.  The keys of the mapping are pairwise distinct, none holds a
    backslash, and there are at most as many entries as there are
    regular files below the root. *)
Theorem gen_sha256_keys
        (fs : FS.node) (cwd : list string) (directory : string) (m : Dict.t) :
  FS.wf fs = true ->
  gen_sha256.generate_sha256_map fs cwd directory = Ok m ->
  NoDup (Dict.keys m)
  /\ Forall (fun k => Str.contains Str.backslash k = false) (Dict.keys m)
  /\ List.length m <= List.length (files_below fs cwd directory).
Proof.
  intros Hwf Hm. rewrite (generate_sha256_map_cases _ _ _ Hwf) in Hm.
  destruct (FS.has_nul (posixpath.abspath cwd directory)); [discriminate Hm |].
  destruct (forallb readable (files_below fs cwd directory)); [| discriminate Hm].
  injection Hm as <-. split; [| split].
  - apply assign_all_NoDup. constructor.
  - rewrite Forall_forall. intros k Hk.
    apply assign_all_keys_inv in Hk as [[] | Hk].
    rewrite map_map in Hk. apply in_map_iff in Hk as (pf & <- & _).
    cbn [digest_entry fst]. unfold key_of. apply contains_replace. discriminate.
  - pose proof (assign_all_length (map digest_entry (files_below fs cwd directory)) []) as H.
    rewrite length_map in H. exact H.
Qed.

(** X5.  A root path that names a regular file is no error and the
    file is not hashed: the walk yields nothing, and where sha256.json
    can be written the run prints and saves the empty JSON object and
    exits with status 0. *)
Theorem gen_sha256_root_is_a_file
        (fs fs' : FS.node) (cwd : list string) (prog directory : string)
        (more : list string) (r w : bool) (content : list byte) :
  FS.stat fs cwd (posixpath.abspath cwd directory) = Some (FS.File r w content) ->
  FS.write_text fs cwd "sha256.json" "{}" = FS.Written fs' ->
  gen_sha256.generate_sha256_map fs cwd directory = Ok []
  /\ gen_sha256.main fs cwd (prog :: directory :: more)
     = Outcome [Text "{}"; Text gen_sha256.saved] [] [("sha256.json", "{}")] 0.
Proof.
  intros H Hw.
  assert (Hm : gen_sha256.generate_sha256_map fs cwd directory = Ok []).
  { unfold gen_sha256.generate_sha256_map, FS.walk.
    rewrite (stat_no_nul _ _ _ _ H), H. reflexivity. }
  split; [exact Hm |]. unfold gen_sha256.main. rewrite Hm.
  change (json.dumps false false []) with "{}". now rewrite Hw.
Qed.

(** X6.  The mapping is a function of the subtree alone: two roots
    that hold the same tree, wherever they lie and whatever the working
    directory, give the same mapping, and the two runs begin standard
    output with the same text. *)
Theorem gen_sha256_only_the_subtree
        (fs1 fs2 : FS.node) (cwd1 cwd2 : list string) (prog1 prog2 dir1 dir2 : string)
        (more1 more2 : list string) (root : FS.node) :
  FS.wf fs1 = true -> FS.wf fs2 = true ->
  FS.stat fs1 cwd1 (posixpath.abspath cwd1 dir1) = Some root ->
  FS.stat fs2 cwd2 (posixpath.abspath cwd2 dir2) = Some root ->
  gen_sha256.generate_sha256_map fs1 cwd1 dir1 = gen_sha256.generate_sha256_map fs2 cwd2 dir2
  /\ hd_error (stdout (gen_sha256.main fs1 cwd1 (prog1 :: dir1 :: more1)))
     = hd_error (stdout (gen_sha256.main fs2 cwd2 (prog2 :: dir2 :: more2))).
Proof.
  intros Hwf1 Hwf2 H1 H2.
  assert (Hm : gen_sha256.generate_sha256_map fs1 cwd1 dir1
               = gen_sha256.generate_sha256_map fs2 cwd2 dir2).
  { rewrite (generate_sha256_map_cases _ _ _ Hwf1), (generate_sha256_map_cases _ _ _ Hwf2).
    rewrite (stat_no_nul _ _ _ _ H1), (stat_no_nul _ _ _ _ H2).
    unfold files_below. rewrite H1, H2. reflexivity. }
  split; [exact Hm |]. unfold gen_sha256.main. rewrite Hm.
  destruct (gen_sha256.generate_sha256_map fs2 cwd2 dir2) as [m | e]; [| reflexivity].
  destruct (FS.write_text fs1 cwd1 "sha256.json" (json.dumps false false m));
    destruct (FS.write_text fs2 cwd2 "sha256.json" (json.dumps false false m));
    reflexivity.
Qed.

(** X7.  A trailing slash on a relative root changes nothing. *)
Theorem gen_sha256_trailing_slash (fs : FS.node) (cwd : list string) (directory : string) :
  directory <> "" ->
  Str.startswith directory "/" = false ->
  gen_sha256.generate_sha256_map fs cwd (directory ++ "/")
  = gen_sha256.generate_sha256_map fs cwd directory.
Proof.
  intros Hne Hrel.
  assert (E : posixpath.abspath cwd (directory ++ "/") = posixpath.abspath cwd directory).
  { unfold posixpath.abspath, posixpath.abs_comps.
    rewrite (startswith_slash_app directory "/" Hne), Hrel.
    change (directory ++ "/") with (directory ++ String "/" "").
    rewrite split_app_sep, fold_left_app.
    cbn [Str.split fold_left]. rewrite norm_step_empty.
    destruct directory as [| c r]; [congruence |].
    rewrite startswith_slash_cons in Hrel.
    unfold Str.startswith. cbn [append String.prefix].
    destruct (ascii_dec "/" c) as [<- | _]; [discriminate Hrel | reflexivity]. }
  unfold gen_sha256.generate_sha256_map. rewrite E. reflexivity.
Qed.

End MappingFacts.

(** ** json.dumps: the shape of the text *)

Section JsonText.
Local Open Scope string_scope.

Lemma chars_app (a b : string) :
  list_ascii_of_string (a ++ b) = (list_ascii_of_string a ++ list_ascii_of_string b)%list.
Proof.
  induction a as [| c a IH]; cbn [append list_ascii_of_string app]; [reflexivity |].
  now rewrite IH.
Qed.

Lemma all_chars_app (p : ascii -> bool) (a b : string) :
  all_chars p (a ++ b) = all_chars p a && all_chars p b.
Proof. unfold all_chars. rewrite chars_app. apply forallb_app. Qed.

Lemma all_chars_cons (p : ascii -> bool) (c : ascii) (s : string) :
  all_chars p (String c s) = p c && all_chars p s.
Proof. reflexivity. Qed.

Lemma all_chars_weaken (p q : ascii -> bool) (s : string) :
  (forall c, p c = true -> q c = true) -> all_chars p s = true -> all_chars q s = true.
Proof.
  intros Hpq. unfold all_chars. rewrite !forallb_forall. intros H c Hc. apply Hpq, H, Hc.
Qed.

Lemma all_chars_concat (p : ascii -> bool) (sep : string) (l : list string) :
  all_chars p sep = true ->
  Forall (fun s => all_chars p s = true) l ->
  all_chars p (String.concat sep l) = true.
Proof.
  intros Hsep. induction 1 as [| s l Hs Hl IH]; [reflexivity |].
  destruct l as [| s' l]; [exact Hs |].
  change (String.concat sep (s :: s' :: l)) with (s ++ sep ++ String.concat sep (s' :: l)).
  rewrite !all_chars_app, Hs, Hsep, IH. reflexivity.
Qed.

Lemma count_char_app (c : ascii) (a b : string) :
  count_char c (a ++ b) = count_char c a + count_char c b.
Proof.
  induction a as [| x a IH]; cbn [append count_char]; [reflexivity |].
  rewrite IH. lia.
Qed.

Lemma count_char_none (p : ascii -> bool) (c : ascii) (s : string) :
  p c = false -> all_chars p s = true -> count_char c s = 0.
Proof.
  intros Hc. induction s as [| x s IH]; [reflexivity |].
  rewrite all_chars_cons. intros H. apply andb_true_iff in H as [Hx Hs].
  cbn [count_char]. rewrite (IH Hs).
  destruct (Ascii.eqb_spec x c) as [-> | _]; [congruence | reflexivity].
Qed.

Lemma printable_from_space (c : ascii) : printable_ascii c = true -> from_space c = true.
Proof. unfold printable_ascii, from_space. intros H. now apply andb_true_iff in H as [H _]. Qed.

Lemma lower_hex_printable (c : ascii) : is_lower_hex c = true -> printable_ascii c = true.
Proof.
  unfold is_lower_hex, printable_ascii. cbv zeta. intros H.
  apply orb_true_iff in H as [H | H]; apply andb_true_iff in H as [H1 H2];
    apply N.leb_le in H1, H2; apply andb_true_iff; split; apply N.leb_le; lia.
Qed.

Lemma short_escape_printable (cp : N) (e : string) :
  json.short_escape cp = Some e -> all_chars printable_ascii e = true.
Proof.
  unfold json.short_escape.
  repeat match goal with
         | |- context [if ?b then _ else _] => destruct b
         end; intros [= <-]; vm_compute; reflexivity.
Qed.

Lemma u_escape_printable (n : N) : all_chars printable_ascii (json.u_escape n) = true.
Proof.
  unfold json.u_escape. rewrite all_chars_cons.
  change ("u" ++ json.hex4 n) with (String "u" (json.hex4 n)). rewrite all_chars_cons.
  replace (printable_ascii Str.backslash) with true by (vm_compute; reflexivity).
  replace (printable_ascii "u") with true by (vm_compute; reflexivity).
  cbn [andb]. apply all_chars_weaken with (p := is_lower_hex); [apply lower_hex_printable |].
  apply hex_lower. repeat constructor; apply N.mod_lt; discriminate.
Qed.

Lemma escape_cp_ascii_printable (cp : N) :
  all_chars printable_ascii (json.escape_cp_ascii cp) = true.
Proof.
  unfold json.escape_cp_ascii.
  destruct (json.short_escape cp) as [e |] eqn:E; [exact (short_escape_printable _ _ E) |].
  destruct ((32 <=? cp) && (cp <=? 126))%N eqn:R.
  - rewrite all_chars_cons. unfold all_chars. cbn [list_ascii_of_string forallb].
    rewrite andb_true_r. unfold printable_ascii.
    apply andb_true_iff in R as [R1 R2]. apply N.leb_le in R1, R2.
    rewrite N_ascii_embedding by lia.
    apply andb_true_iff; split; apply N.leb_le; lia.
  - destruct (cp <? 65536)%N; [apply u_escape_printable |].
    rewrite all_chars_app, !u_escape_printable. reflexivity.
Qed.

Lemma escape_ascii_printable (s : string) :
  all_chars printable_ascii (json.escape_ascii s) = true.
Proof.
  unfold json.escape_ascii. apply all_chars_concat; [reflexivity |].
  rewrite Forall_forall. intros x Hx. apply in_map_iff in Hx as (cp & <- & _).
  apply escape_cp_ascii_printable.
Qed.

Lemma escape_from_space (s : string) : all_chars from_space (json.escape s) = true.
Proof.
  induction s as [| c s IH]; [reflexivity |]. cbn [json.escape]. cbv zeta.
  destruct (json.short_escape (N_of_ascii c)) as [e |] eqn:E.
  - rewrite all_chars_app, IH, andb_true_r.
    apply all_chars_weaken with (p := printable_ascii); [apply printable_from_space |].
    exact (short_escape_printable _ _ E).
  - destruct (N_of_ascii c <? 32)%N eqn:L.
    + rewrite all_chars_app, IH, andb_true_r.
      apply all_chars_weaken with (p := printable_ascii); [apply printable_from_space |].
      apply u_escape_printable.
    + rewrite all_chars_cons, IH, andb_true_r. unfold from_space.
      apply N.ltb_ge in L. now apply N.leb_le.
Qed.

Lemma encode_str_chars (ensure_ascii : bool) (s : string) :
  all_chars (if ensure_ascii then printable_ascii else from_space)
            (json.encode_str ensure_ascii s) = true.
Proof.
  unfold json.encode_str. rewrite !all_chars_app.
  destruct ensure_ascii.
  - rewrite escape_ascii_printable. vm_compute. reflexivity.
  - rewrite escape_from_space. vm_compute. reflexivity.
Qed.

Lemma member_chars (ensure_ascii : bool) (kv : string * string) :
  all_chars (if ensure_ascii then printable_ascii else from_space)
            (json.member ensure_ascii kv) = true.
Proof.
  unfold json.member. rewrite !all_chars_app, !encode_str_chars.
  destruct ensure_ascii; vm_compute; reflexivity.
Qed.

Lemma insert_item_length (x : string * string) (l : Dict.t) :
  List.length (json.insert_item x l) = S (List.length l).
Proof.
  induction l as [| y l IH]; cbn [json.insert_item]; [reflexivity |].
  destruct (String.leb (fst x) (fst y)); cbn [List.length]; [reflexivity | now rewrite IH].
Qed.

Lemma items_length (sort_keys : bool) (d : Dict.t) :
  List.length (json.items sort_keys d) = List.length d.
Proof.
  destruct sort_keys; [| reflexivity]. cbn [json.items].
  induction d as [| x d IH]; [reflexivity |].
  cbn [json.sort_items fold_right]. fold (json.sort_items d).
  rewrite insert_item_length. cbn [List.length]. now rewrite IH.
Qed.

Lemma count_char_concat (c : ascii) (sep : string) (l : list string) :
  Forall (fun s => count_char c s = 0) l ->
  count_char c (String.concat sep l) = pred (List.length l) * count_char c sep.
Proof.
  induction 1 as [| s l Hs Hl IH]; [reflexivity |].
  destruct l as [| s' l]; [cbn; rewrite Hs; reflexivity |].
  change (String.concat sep (s :: s' :: l)) with (s ++ sep ++ String.concat sep (s' :: l)).
  rewrite !count_char_app, Hs, IH. cbn [List.length pred]. lia.
Qed.

(** X8.  The text of [json.dumps(..., indent=2)] for a mapping that is
    not empty has one line for each entry between the lines of the two
    braces: exactly one newline more than entries, also when a key holds
    a newline, because keys and values are escaped.  Apart from these
    newlines it holds no character below U+0020. *)
Theorem dumps_one_line_per_entry (ensure_ascii sort_keys : bool) (d : Dict.t) :
  d <> [] ->
  count_char newline_char (json.dumps ensure_ascii sort_keys d) = S (List.length d)
  /\ all_chars (fun c => Ascii.eqb c newline_char || from_space c)
               (json.dumps ensure_ascii sort_keys d) = true.
Proof.
  intros Hd. unfold json.dumps.
  pose proof (items_length sort_keys d) as Hlen.
  destruct (json.items sort_keys d) as [| kv its] eqn:E.
  { destruct d; [congruence | discriminate Hlen]. }
  assert (Hall : Forall (fun s => all_chars from_space s = true)
                        (map (json.member ensure_ascii) (kv :: its))).
  { rewrite Forall_forall. intros s Hs. apply in_map_iff in Hs as (x & <- & _).
    pose proof (member_chars ensure_ascii x) as H. destruct ensure_ascii; [| exact H].
    revert H. apply all_chars_weaken, printable_from_space. }
  split.
  - rewrite !count_char_app, count_char_concat.
    + rewrite length_map, Hlen.
      replace (count_char newline_char "{") with 0 by reflexivity.
      replace (count_char newline_char "}") with 0 by reflexivity.
      replace (count_char newline_char Str.newline) with 1 by reflexivity.
      replace (count_char newline_char ("," ++ Str.newline)) with 1 by reflexivity.
      destruct d; [congruence |]. cbn [List.length pred]. lia.
    + revert Hall. apply Forall_impl. intros s.
      apply (count_char_none from_space). reflexivity.
  - rewrite !all_chars_app.
    assert (Hw : forall s, all_chars from_space s = true ->
                           all_chars (fun c => Ascii.eqb c newline_char || from_space c) s = true).
    { intros s. apply all_chars_weaken. intros c ->. apply orb_true_r. }
    rewrite all_chars_concat.
    + vm_compute. reflexivity.
    + vm_compute. reflexivity.
    + revert Hall. apply Forall_impl. exact Hw.
Qed.

(** X9.  With [ensure_ascii] left at its default, as for the manifest,
    the text holds nothing but printable ASCII characters and newlines,
    whatever the member names are. *)
Theorem dumps_ascii_only (sort_keys : bool) (d : Dict.t) :
  all_chars (fun c => Ascii.eqb c newline_char || printable_ascii c)
            (json.dumps true sort_keys d) = true.
Proof.
  unfold json.dumps. destruct (json.items sort_keys d) as [| kv its]; [reflexivity |].
  rewrite !all_chars_app, all_chars_concat.
  - vm_compute. reflexivity.
  - vm_compute. reflexivity.
  - rewrite Forall_forall. intros s Hs. apply in_map_iff in Hs as (x & <- & _).
    generalize (member_chars true x). apply all_chars_weaken. intros c ->. apply orb_true_r.
Qed.

Lemma insert_item_swap (x y : string * string) (l : Dict.t) :
  fst x <> fst y ->
  json.insert_item x (json.insert_item y l) = json.insert_item y (json.insert_item x l).
Proof.
  intros Hxy. induction l as [| a l IH]; cbn [json.insert_item].
  - destruct (String.leb (fst x) (fst y)) eqn:Exy, (String.leb (fst y) (fst x)) eqn:Eyx;
      try reflexivity.
    + destruct Hxy. exact (String.leb_antisym _ _ Exy Eyx).
    + apply string_leb_false in Exy. congruence.
  - destruct (String.leb (fst y) (fst a)) eqn:Eya, (String.leb (fst x) (fst a)) eqn:Exa;
      cbn [json.insert_item].
    + destruct (String.leb (fst x) (fst y)) eqn:Exy, (String.leb (fst y) (fst x)) eqn:Eyx;
        rewrite ?Exa, ?Eya; try reflexivity.
      * destruct Hxy. exact (String.leb_antisym _ _ Exy Eyx).
      * apply string_leb_false in Exy. congruence.
    + rewrite Eya.
      destruct (String.leb (fst x) (fst y)) eqn:Exy.
      * rewrite (string_leb_trans _ _ _ Exy Eya) in Exa. discriminate.
      * now rewrite Exa.
    + rewrite Exa.
      destruct (String.leb (fst y) (fst x)) eqn:Eyx.
      * rewrite (string_leb_trans _ _ _ Eyx Exa) in Eya. discriminate.
      * now rewrite Eya.
    + rewrite Exa, Eya. now rewrite IH.
Qed.

Lemma sort_items_Permutation (d1 d2 : Dict.t) :
  Permutation d1 d2 -> NoDup (Dict.keys d1) -> json.sort_items d1 = json.sort_items d2.
Proof.
  induction 1 as [| x l1 l2 Hp IH | x y l | l1 l2 l3 Hp1 IH1 Hp2 IH2];
    cbn [json.sort_items fold_right Dict.keys map]; intros Hnd.
  - reflexivity.
  - fold (json.sort_items l1). fold (json.sort_items l2).
    rewrite IH; [reflexivity |]. now inversion Hnd.
  - apply insert_item_swap. inversion Hnd as [| ? ? Hy _]; subst.
    intros E. apply Hy. left. now symmetry.
  - rewrite IH1 by exact Hnd. apply IH2.
    apply (Permutation_NoDup (l := Dict.keys l1)); [| exact Hnd].
    unfold Dict.keys. now apply Permutation_map.
Qed.

(** X10.  With [sort_keys=True] the text does not depend on the order
    in which the keys were put into the mapping. *)
Theorem dumps_sorted_any_insertion_order (ensure_ascii : bool) (d1 d2 : Dict.t) :
  NoDup (Dict.keys d1) ->
  Permutation d1 d2 ->
  json.dumps ensure_ascii true d1 = json.dumps ensure_ascii true d2.
Proof.
  intros Hnd Hp. unfold json.dumps, json.items.
  now rewrite (sort_items_Permutation d1 d2 Hp Hnd).
Qed.

End JsonText.

(** ** generate_manifest.py: the run as a whole *)

Section ManifestRuns.
Local Open Scope string_scope.
Import generate_manifest.

Lemma insert_Sorted (x : string) (l : list string) :
  Sorted str_le l -> Sorted str_le (Str.insert x l).
Proof.
  induction l as [| a l IH]; cbn [Str.insert]; intros H.
  - repeat constructor.
  - destruct (String.leb x a) eqn:E.
    + constructor; [exact H | constructor; exact E].
    + inversion H as [| ? ? Hs Hh]; subst. constructor; [now apply IH |].
      destruct l as [| b l]; cbn [Str.insert].
      * constructor. apply string_leb_false. exact E.
      * destruct (String.leb x b); constructor.
        -- apply string_leb_false. exact E.
        -- now inversion Hh.
Qed.

Lemma sorted_Sorted (l : list string) : Sorted str_le (Str.sorted l).
Proof.
  induction l as [| x l IH]; cbn [Str.sorted fold_right]; [constructor |].
  now apply insert_Sorted.
Qed.

Lemma getinfo_some (zf : list zip_info) (info : zip_info) :
  In info zf -> exists j, getinfo (filename info) zf = Some j.
Proof.
  induction zf as [| i zf IH]; intros Hin; [destruct Hin |].
  cbn [getinfo]. destruct (getinfo (filename info) zf) as [j |] eqn:E; [now exists j |].
  destruct Hin as [-> | Hin].
  - rewrite String.eqb_refl. now exists info.
  - destruct (IH Hin) as [j Hj]. discriminate Hj.
Qed.

Lemma read_member_file (zf : list zip_info) (n : string) :
  (forall info, In info zf -> is_dir info = false -> exists c, payload info = Ok c) ->
  In n (file_names zf) -> exists c, read_member zf n = Ok c.
Proof.
  intros Hok Hn. unfold file_names in Hn.
  apply in_map_iff in Hn as (info & <- & Hin). apply filter_In in Hin as [Hin Hd].
  apply negb_true_iff in Hd.
  destruct (getinfo_some zf info Hin) as [j Hj]. unfold read_member. rewrite Hj.
  apply getinfo_In in Hj as [Hjin Hname]. apply (Hok j Hjin).
  unfold is_dir in *. now rewrite Hname.
Qed.

Lemma hash_members_app (zf : list zip_info) (pre rest : list string) :
  forall d out,
    hash_members zf (pre ++ rest) d out
    = match hash_members zf pre d out with
      | (out', Ok d') => hash_members zf rest d' out'
      | (out', Raise e) => (out', Raise e)
      end.
Proof.
  induction pre as [| n pre IH]; intros d out; cbn [app hash_members]; [reflexivity |].
  destruct (read_member zf n) as [c | e]; [apply IH | reflexivity].
Qed.

(** X11.  A run of ArchiveManifestGenerator ends in one of two ways.
    Either it exits with status 0, has written nothing on standard
    error, has written exactly the manifest beside the archive and its
    last line on standard output is the success message; or it exits
    with status 1, has written no file, and standard error holds one
    line: the not-found message, the not-a-zip message, or the message
    for any other exception. *)
Theorem manifest_all_or_nothing (zip_path : string) (target : zip_target) :
  (exists manifest_data,
      exit_code (generate_manifest zip_path target) = 0
      /\ stderr (generate_manifest zip_path target) = []
      /\ files_written (generate_manifest zip_path target)
         = [(posixpath.splitext_root zip_path ++ ".json", json.dumps true true manifest_data)]
      /\ last (stdout (generate_manifest zip_path target)) (Text "")
         = Text (msg_success (posixpath.splitext_root zip_path ++ ".json")))
  \/ (exit_code (generate_manifest zip_path target) = 1
      /\ files_written (generate_manifest zip_path target) = []
      /\ (stderr (generate_manifest zip_path target) = [Text (msg_not_found zip_path)]
          \/ stderr (generate_manifest zip_path target) = [Text (msg_bad_zip zip_path)]
          \/ exists e, e <> BadZipFile
                       /\ stderr (generate_manifest zip_path target)
                          = [TextExn msg_unknown e])).
Proof.
  destruct target as [| | | zf | zf]; cbn [generate_manifest archive_of].
  - right. cbn. auto.
  - right. cbn. repeat split; auto. right. right. exists OSError. split; [discriminate | reflexivity].
  - right. cbn. auto.
  - destruct (hash_members zf _ [] _) as [out [m | e]].
    + left. exists m. cbn [exit_code stderr files_written stdout].
      repeat split. apply last_last.
    + right. destruct e; cbn; repeat split; auto; right; right;
        eexists; (split; [| reflexivity]); discriminate.
  - right. destruct (hash_members zf _ [] _) as [out [m | e]].
    + cbn. repeat split; auto. right. right. exists OSError.
      split; [discriminate | reflexivity].
    + destruct e; cbn; repeat split; auto; right; right;
        eexists; (split; [| reflexivity]); discriminate.
Qed.

(** X12.  When every member that is no directory can be read,
    standard output holds the opening line, then one line for each such
    member (members that share a name each counted) in ascending order
    of their names, then, when the manifest can be created, the success
    message; when it cannot, the run ends there with status 1 and the
    general message. *)
Theorem manifest_progress_lines (zip_path : string) (zf : list zip_info) :
  (forall info, In info zf -> is_dir info = false -> exists c, payload info = Ok c) ->
  stdout (generate_manifest zip_path (Archive zf))
  = (Text (msg_generating zip_path)
       :: map (fun n => Text (msg_hashed (normalized n))) (Str.sorted (file_names zf))
       ++ [Text (msg_success (posixpath.splitext_root zip_path ++ ".json"))])%list
  /\ generate_manifest zip_path (Sealed zf)
     = Outcome (Text (msg_generating zip_path)
                  :: map (fun n => Text (msg_hashed (normalized n)))
                         (Str.sorted (file_names zf)))
               [TextExn msg_unknown OSError] [] 1
  /\ Sorted str_le (Str.sorted (file_names zf))
  /\ Permutation (Str.sorted (file_names zf)) (file_names zf).
Proof.
  intros Hok.
  assert (Hall : forall n, In n (Str.sorted (file_names zf)) ->
                           exists c, read_member zf n = Ok c).
  { intros n Hn. apply (read_member_file zf n Hok).
    now apply (Permutation_in _ (sorted_is_Permutation (file_names zf))). }
  split; [| split; [| split; [apply sorted_Sorted | apply sorted_is_Permutation]]].
  - cbn [generate_manifest archive_of]. fold (file_names zf).
    now rewrite (hash_members_all zf _ Hall).
  - cbn [generate_manifest archive_of]. fold (file_names zf).
    now rewrite (hash_members_all zf _ Hall).
Qed.

(** X13.  The run stops at the first member, in ascending order of the
    names, that cannot be read: the lines of the members before it stay
    on standard output, no manifest is written, the status is 1, and the
    message is the not-a-zip message for [BadZipFile] and the general
    one for every other exception. *)
Theorem manifest_stops_at_unreadable_member
        (zip_path : string) (zf : list zip_info) (pre post : list string) (bad : string)
        (e : exn) :
  Str.sorted (file_names zf) = (pre ++ bad :: post)%list ->
  (forall n, In n pre -> exists c, read_member zf n = Ok c) ->
  read_member zf bad = Raise e ->
  generate_manifest zip_path (Archive zf)
  = Outcome (Text (msg_generating zip_path)
               :: map (fun n => Text (msg_hashed (normalized n))) pre)
            [match e with
             | BadZipFile => Text (msg_bad_zip zip_path)
             | _ => TextExn msg_unknown e
             end] [] 1.
Proof.
  intros Hnames Hpre Hbad. cbn [generate_manifest archive_of]. fold (file_names zf).
  rewrite Hnames, hash_members_app, (hash_members_all zf pre Hpre).
  cbn [hash_members]. rewrite Hbad. destruct e; reflexivity.
Qed.

End ManifestRuns.

(** ** generate_manifest.py: where the manifest goes *)

Section ManifestPath.
Local Open Scope string_scope.
Import generate_manifest.

Lemma concat_split (c : ascii) (s : string) :
  String.concat (String c "") (Str.split c s) = s.
Proof.
  induction s as [| x s IH]; cbn [Str.split]; [reflexivity |].
  destruct (Ascii.eqb_spec x c) as [-> | Hx].
  - pose proof (split_not_nil c s) as Hne.
    destruct (Str.split c s) as [| y ys]; [congruence |].
    cbn [String.concat append] in *. now rewrite IH.
  - pose proof (split_not_nil c s) as Hne.
    destruct (Str.split c s) as [| y ys]; [congruence |].
    destruct ys as [| z zs]; cbn [String.concat append] in *; now rewrite IH.
Qed.

Lemma substring_prefix (a b : string) : substring 0 (String.length a) (a ++ b) = a.
Proof.
  induction a as [| c a IH]; cbn [String.length append substring].
  - destruct b; reflexivity.
  - now rewrite IH.
Qed.

Lemma basename_after_dir (dir name : string) :
  dir = "" \/ Str.endswith dir "/" = true ->
  Str.contains Str.slash name = false ->
  posixpath.basename (dir ++ name) = name.
Proof.
  intros Hdir Hname. unfold posixpath.basename.
  destruct Hdir as [-> | Hdir].
  - cbn [append]. now rewrite (split_no_sep _ _ Hname).
  - apply endswith_inv in Hdir as [a ->]. rewrite sapp_assoc.
    change ("/" ++ name) with (String Str.slash name).
    rewrite split_app_sep, (split_no_sep _ _ Hname). apply last_last.
Qed.

Lemma splitext_root_extension (dir stem ext : string) :
  dir = "" \/ Str.endswith dir "/" = true ->
  Str.contains Str.slash stem = false ->
  posixpath.all_dots stem = false ->
  Str.contains Str.slash ext = false ->
  Str.contains "." ext = false ->
  posixpath.splitext_root (dir ++ stem ++ "." ++ ext) = dir ++ stem.
Proof.
  intros Hdir Hstem Hdots Hext Hnodot. unfold posixpath.splitext_root.
  assert (Hname : Str.contains Str.slash (stem ++ "." ++ ext) = false).
  { rewrite !contains_app, Hstem, Hext. reflexivity. }
  rewrite (basename_after_dir dir _ Hdir Hname). cbv zeta.
  rewrite sapp_length, Nat.add_sub, substring_prefix.
  change (stem ++ "." ++ ext) with (stem ++ String "." ext).
  rewrite split_app_sep, (split_no_sep _ _ Hnodot), rev_app_distr. cbn [rev app].
  pose proof (split_not_nil "." stem) as Hne.
  destruct (rev (Str.split "." stem)) as [| y ys] eqn:E.
  { apply (f_equal (@rev string)) in E. rewrite rev_involutive in E. cbn [rev] in E. congruence. }
  rewrite <- E, rev_involutive, (concat_split "." stem), Hdots. reflexivity.
Qed.

Lemma splitext_root_no_dot (p : string) :
  Str.contains "." (posixpath.basename p) = false -> posixpath.splitext_root p = p.
Proof.
  intros H. unfold posixpath.splitext_root. cbv zeta.
  now rewrite (split_no_sep _ _ H).
Qed.

Lemma manifest_written_path (zip_path : string) (target : zip_target) (path text : string) :
  In (path, text) (files_written (generate_manifest zip_path target)) ->
  path = posixpath.splitext_root zip_path ++ ".json".
Proof.
  destruct target as [| | | zf | zf]; cbn [generate_manifest archive_of files_written];
    try (intros []; fail).
  - destruct (hash_members zf _ [] _) as [out [m | e]]; [| destruct e; intros []].
    cbn [files_written]. intros [[= <- _] | []]. reflexivity.
  - destruct (hash_members zf _ [] _) as [out [m | e]]; [| destruct e]; intros [].
Qed.

(** X14.  For an archive [stem.ext] in a directory, the manifest is
    [stem.json] in the same directory: the extension, which starts at
    the last dot of the file name, is replaced. *)
Theorem manifest_replaces_extension
        (dir stem ext : string) (target : zip_target) (path text : string) :
  dir = "" \/ Str.endswith dir "/" = true ->
  Str.contains Str.slash stem = false ->
  posixpath.all_dots stem = false ->
  Str.contains Str.slash ext = false ->
  Str.contains "." ext = false ->
  In (path, text) (files_written (generate_manifest (dir ++ stem ++ "." ++ ext) target)) ->
  path = dir ++ stem ++ ".json".
Proof.
  intros Hdir Hstem Hdots Hext Hnodot Hin.
  apply manifest_written_path in Hin.
  rewrite (splitext_root_extension dir stem ext Hdir Hstem Hdots Hext Hnodot) in Hin.
  now rewrite sapp_assoc in Hin.
Qed.

(** X15.  For an archive whose file name holds no dot, the manifest
    path is the archive path with [.json] appended. *)
Theorem manifest_appends_extension
        (zip_path : string) (target : zip_target) (path text : string) :
  Str.contains "." (posixpath.basename zip_path) = false ->
  In (path, text) (files_written (generate_manifest zip_path target)) ->
  path = zip_path ++ ".json".
Proof.
  intros Hnodot Hin. apply manifest_written_path in Hin.
  now rewrite (splitext_root_no_dot zip_path Hnodot) in Hin.
Qed.

End ManifestPath.

(** ** generate_sha256.py: one file, and how a run ends *)

Section SidecarSteps.
Local Open Scope string_scope.
Import generate_sha256.

(** X16.  The outcomes of [process_file], all after its first line on
    standard output.  A file that cannot be opened for reading: the
    error goes to standard error, nothing is returned and nothing is
    written.  A file that is read: its sidecar is written and the
    success line returned, or, when the sidecar cannot be opened, the
    error line is returned and the file system stays as it was.  No
    other exception is caught: the [ValueError] of a path with a NUL
    character escapes, and so does the [UnicodeEncodeError] of a name
    that is no text, which leaves the sidecar empty.  A file that was
    hashed is never dropped by the test of the digest, which is never
    empty. *)
Theorem process_file_outcomes (cwd : list string) (w : world) (filepath : string) :
  process_file cwd w filepath
  = let w1 := World (fs w) (out w ++ [Text (msg_processing filepath)]) (err w) in
    match FS.open_rb (fs w) cwd filepath with
    | Raise OSError =>
        (World (fs w) (out w1) (err w ++ [TextExn (msg_unreadable filepath) OSError]),
         Ok None)
    | Raise e => (w1, Raise e)
    | Ok content =>
        match FS.write_text (fs w) cwd (filepath ++ ".sha256")
                (SHA256.hexdigest content ++ "  " ++ posixpath.basename filepath
                                  ++ Str.newline) with
        | FS.Written fs' =>
            (World fs' (out w1) (err w), Ok (Some (Text (msg_done (filepath ++ ".sha256")))))
        | FS.NotOpened OSError =>
            (w1, Ok (Some (TextExn (msg_unwritable (filepath ++ ".sha256")) OSError)))
        | FS.NotOpened e => (w1, Raise e)
        | FS.Truncated fs' e => (World fs' (out w1) (err w), Raise e)
        end
    end.
Proof.
  unfold process_file. rewrite hash_and_write_cases. unfold print, print_err, sidecar_text.
  cbn [fs out err].
  destruct (FS.open_rb (fs w) cwd filepath) as [content | e]; [| destruct e; reflexivity].
  destruct (FS.write_text (fs w) cwd (filepath ++ ".sha256") _) as [e0 | x e0 | x];
    [destruct e0 | |]; reflexivity.
Qed.

Lemma placed_raises (fs0 : FS.node) (cwd : list string) (f : string) :
  placed fs0 cwd f ->
  raises fs0 cwd f = match verdict fs0 cwd f with
                     | Raise _ => true
                     | Ok _ => false
                     end.
Proof.
  intros Hp. unfold raises. rewrite verdict_cases.
  pose proof (placed_open_rb fs0 cwd f) as Ho.
  destruct (placed_locations _ _ _ Hp) as (d & name & _ & _ & _ & _ & Hlocs).
  destruct (Hlocs fs0 (fun q => eq_refl)) as [_ Hs].
  destruct (FS.open_rb fs0 cwd f) as [c | e]; [| now rewrite (Ho e Hp eq_refl)].
  rewrite (write_text_put _ _ _ _ _ Hs).
  destruct (Str.well_formed _); [destruct (FS.put fs0 _ (bytes_of _)) |
                                 destruct (FS.put fs0 _ [])]; reflexivity.
Qed.

(** X17.  After the arguments are parsed, the exit status of
    SidecarChecksumWriter is 0 exactly when the target is a directory
    that can be scanned and either there is no candidate, or the worker
    count is positive and no task raises: no candidate is a file that is
    read, with a sidecar that can be opened, whose name is no text. *)
Theorem sidecar_exit_status
        (sched : list string -> list event) (fs0 : FS.node) (cwd : list string) (a : args) :
  FS.wf fs0 = true ->
  (forall l, schedule_of l (sched l)) ->
  status (main sched fs0 cwd a)
  = if FS.isdir fs0 cwd (directory a) && scan_ok fs0 cwd a
       && match candidates fs0 cwd a with
          | [] => true
          | _ :: _ => (0 <? workers a)%Z
                      && forallb (fun f => negb (raises fs0 cwd f)) (candidates fs0 cwd a)
          end
    then 0 else 1.
Proof.
  intros Hwf Hsched.
  destruct (main_without_pool sched fs0 cwd a) as (H1 & H2 & H3 & H4).
  destruct (FS.isdir fs0 cwd (directory a)) eqn:Hdir; [| now rewrite H1].
  destruct (scan_ok fs0 cwd a) eqn:Hscan.
  2:{ unfold scan_ok in Hscan. destruct (scan fs0 cwd a) as [l | e] eqn:E; [discriminate |].
      now rewrite (H2 eq_refl e). }
  cbn [andb]. pose proof (scan_ok_candidates _ _ _ Hscan) as Hc.
  destruct (candidates fs0 cwd a) as [| f0 l] eqn:Ec; [now rewrite (H3 eq_refl Hc) |].
  destruct (0 <? workers a)%Z eqn:Hw.
  2:{ rewrite H4; [reflexivity | reflexivity | reflexivity | congruence |].
      apply Z.ltb_ge in Hw. lia. }
  apply Z.ltb_lt in Hw.
  destruct (main_facts sched fs0 cwd a Hwf Hsched Hdir Hscan Hw) as (-> & _).
  rewrite Ec. cbn [andb]. set (cands := f0 :: l) in *.
  destruct (candidates_placed fs0 cwd a Hwf) as [Hpl _]. rewrite Ec in Hpl. fold cands in Hpl.
  pose proof (Hsched cands) as (_ & _ & Hr & _).
  pose proof (escaped_reports (verdict fs0 cwd) (sched cands)) as He.
  rewrite Forall_forall in Hpl.
  destruct (escaped (verdict fs0 cwd) (sched cands)) as [e |].
  - destruct He as (f & Hf & Hv). apply (Permutation_in _ Hr) in Hf.
    assert (Hn : forallb (fun f => negb (raises fs0 cwd f)) cands = false).
    { apply not_true_is_false. intros Hall. rewrite forallb_forall in Hall.
      specialize (Hall f Hf). rewrite (placed_raises _ _ _ (Hpl f Hf)), Hv in Hall.
      discriminate Hall. }
    now rewrite Hn.
  - assert (Hy : forallb (fun f => negb (raises fs0 cwd f)) cands = true).
    { apply forallb_forall. intros f Hf.
      destruct (He f (Permutation_in _ (Permutation_sym Hr) Hf)) as [r Hv].
      now rewrite (placed_raises _ _ _ (Hpl f Hf)), Hv. }
    now rewrite Hy.
Qed.

Lemma flat_map_pointwise {A B : Type} (g h : A -> list B) (l : list A) :
  (forall x, In x l -> g x = h x) -> flat_map g l = flat_map h l.
Proof.
  induction l as [| x l IH]; intros H; [reflexivity |].
  cbn [flat_map]. rewrite (H x) by now left. f_equal. apply IH.
  intros y Hy. apply H. now right.
Qed.

(** X18.  In a run that ends with status 0, standard error holds
    exactly the lines of the candidates that could not be read, in the
    order in which the pool worked on them; a sidecar that could not be
    opened is reported on standard output. *)
Theorem sidecar_error_streams
        (sched : list string -> list event) (fs0 : FS.node) (cwd : list string) (a : args) :
  FS.wf fs0 = true ->
  (forall l, schedule_of l (sched l)) ->
  status (main sched fs0 cwd a) = 0 ->
  err (final (main sched fs0 cwd a))
  = flat_map (fun f => match FS.open_rb fs0 cwd f with
                       | Ok _ => []
                       | Raise e => [TextExn (msg_unreadable f) e]
                       end)
             (works (sched (candidates fs0 cwd a)))
  /\ forall f content,
      In f (candidates fs0 cwd a) ->
      FS.open_rb fs0 cwd f = Ok content ->
      FS.write_text fs0 cwd (f ++ ".sha256") (sidecar_text (SHA256.hexdigest content) f)
      = FS.NotOpened OSError ->
      In (TextExn (msg_unwritable (f ++ ".sha256")) OSError)
         (out (final (main sched fs0 cwd a))).
Proof.
  intros Hwf Hsched Hst.
  destruct (main_without_pool sched fs0 cwd a) as (H1 & H2 & H3 & H4).
  destruct (FS.isdir fs0 cwd (directory a)) eqn:Hdir; [| now rewrite H1 in Hst].
  destruct (scan_ok fs0 cwd a) eqn:Hscan.
  2:{ unfold scan_ok in Hscan. destruct (scan fs0 cwd a) as [l | e] eqn:E; [discriminate |].
      now rewrite (H2 eq_refl e) in Hst. }
  pose proof (scan_ok_candidates _ _ _ Hscan) as Hc.
  pose proof (Hsched (candidates fs0 cwd a)) as Hs.
  destruct (candidates fs0 cwd a) as [| f0 l] eqn:Ec.
  { rewrite (H3 eq_refl Hc), (schedule_nil _ Hs). split; [reflexivity | intros f c []]. }
  destruct (Z.leb_spec (workers a) 0) as [Hw | Hw].
  { rewrite H4 in Hst; [discriminate Hst | reflexivity | reflexivity | congruence | exact Hw]. }
  destruct (main_facts sched fs0 cwd a Hwf Hsched Hdir Hscan Hw)
    as (Hst' & (tail & _ & Hout) & Herr & _).
  rewrite Hst in Hst'. rewrite Ec in Hout, Herr, Hst'. set (cands := f0 :: l) in *.
  destruct (candidates_placed fs0 cwd a Hwf) as [Hpl _]. rewrite Ec in Hpl. fold cands in Hpl.
  rewrite Forall_forall in Hpl. destruct Hs as (_ & Hwk & Hr & _).
  destruct (escaped (verdict fs0 cwd) (sched cands)) as [e |] eqn:Ee; [discriminate Hst' |].
  split.
  - rewrite Herr, app_nil_r. apply flat_map_pointwise. intros f Hf.
    apply (Permutation_in _ Hwk) in Hf. rewrite complaint_cases.
    pose proof (placed_open_rb fs0 cwd f) as Ho.
    destruct (FS.open_rb fs0 cwd f) as [c | e]; [reflexivity |].
    now rewrite (Ho e (Hpl f Hf) eq_refl).
  - intros f content Hf Hopen Hwrite. rewrite Hout.
    right. right. apply in_or_app. left.
    assert (Hin : In (TextExn (msg_unwritable (f ++ ".sha256")) OSError)
                     (filter (fun l => negb (is_processing l))
                             (shown (verdict fs0 cwd) (sched cands)))).
    { rewrite (shown_reports (verdict fs0 cwd) (fun l => negb (is_processing l)))
        by (exact Ee || (intros g; now rewrite processing_line)).
      apply in_flat_map. exists f.
      split; [apply (Permutation_in _ (Permutation_sym Hr) Hf) |].
      rewrite verdict_cases, Hopen, Hwrite. now left. }
    now apply filter_In in Hin as [Hin _].
Qed.
End SidecarSteps.

(** ** generate_sha256.py: what the candidate list holds *)

Section CandidateList.
Local Open Scope string_scope.
Import generate_sha256.

Lemma scan_recursive_triples (fs0 : FS.node) (cwd : list string) (target_dir : string) :
  scan_recursive fs0 cwd target_dir
  = if FS.has_nul target_dir then Raise ValueError
    else Ok match FS.stat fs0 cwd target_dir with
            | Some n => tree_candidates target_dir n
            | None => []
            end.
Proof.
  unfold scan_recursive, FS.walk. destruct (FS.has_nul target_dir); [reflexivity |].
  cbn [bind]. f_equal.
  destruct (FS.stat fs0 cwd target_dir) as [n |]; [| reflexivity].
  apply flat_map_ext. intros [[root dirs] names]. reflexivity.
Qed.

Lemma flat_map_flat_map {A B C : Type} (f : B -> list C) (g : A -> list B) (l : list A) :
  flat_map f (flat_map g l) = flat_map (fun x => flat_map f (g x)) l.
Proof.
  induction l as [| x l IH]; cbn [flat_map]; [reflexivity |].
  now rewrite flat_map_app, IH.
Qed.

Lemma flat_map_of_map {A B C : Type} (f : B -> list C) (g : A -> B) (l : list A) :
  flat_map f (map g l) = flat_map (fun x => f (g x)) l.
Proof.
  induction l as [| x l IH]; cbn [map flat_map]; [reflexivity |]. now rewrite IH.
Qed.

Lemma filter_map_swap {A B : Type} (f : A -> B) (p : B -> bool) (l : list A) :
  filter p (map f l) = map f (filter (fun x => p (f x)) l).
Proof.
  induction l as [| x l IH]; cbn [map filter]; [reflexivity |].
  destruct (p (f x)); cbn [map]; now rewrite IH.
Qed.

Lemma filter_filter {A : Type} (p q : A -> bool) (l : list A) :
  filter p (filter q l) = filter (fun x => q x && p x) l.
Proof.
  induction l as [| x l IH]; cbn [filter]; [reflexivity |].
  destruct (q x); cbn [filter andb]; [destruct (p x) |]; now rewrite IH.
Qed.

(** What [stat] says of the entries of a directory that can be
    listed. *)
Lemma isfile_entry (fs0 : FS.node) (cwd : list string) (target_dir : string)
      (d : list string) (w : bool) (es : list (string * FS.node)) (e : string * FS.node) :
  FS.wf fs0 = true ->
  FS.locate fs0 cwd target_dir = Some d ->
  FS.lookup fs0 d = Some (FS.Dir true w es) ->
  In e es ->
  FS.stat fs0 cwd (posixpath.join target_dir (fst e)) = Some (snd e).
Proof.
  intros Hwf Hloc Hlook Hin.
  destruct (wf_dir_inv _ _ _ (wf_lookup _ _ _ Hwf Hlook)) as (Hnames & Hdist & _).
  rewrite Forall_forall in Hnames.
  rewrite (stat_join _ _ _ _ _ _ _ (Hnames _ Hin) Hloc Hlook).
  destruct e as [name x]. now apply In_find_entry.
Qed.

Lemma scan_flat_entries (fs0 : FS.node) (cwd : list string) (target_dir : string)
      (d : list string) (w : bool) (es : list (string * FS.node)) :
  FS.wf fs0 = true ->
  FS.locate fs0 cwd target_dir = Some d ->
  FS.lookup fs0 d = Some (FS.Dir true w es) ->
  scan_flat fs0 cwd target_dir
  = Ok (triple_candidates (target_dir, FS.dirnames es, FS.filenames es)).
Proof.
  intros Hwf Hloc Hlook. unfold scan_flat, FS.listdir, FS.stat.
  rewrite (locate_nul _ _ _ _ Hloc), Hloc, Hlook.
  cbn [bind triple_candidates]. do 2 f_equal.
  unfold FS.filenames. rewrite !filter_map_swap, filter_filter. f_equal.
  apply filter_ext_in. intros e He. unfold FS.isfile.
  rewrite (isfile_entry fs0 cwd target_dir d w es e Hwf Hloc Hlook He).
  destruct (snd e); reflexivity.
Qed.

(** X19.  The recursive scan of a directory that can be listed is the
    scan of the directory itself followed by the recursive scans of
    what it lists, in listing order (the scan of a regular file, or of a
    directory that cannot be listed, is empty): the non-recursive
    candidate list is the beginning of the recursive one. *)
Theorem sidecar_recursive_extends_flat
        (fs0 : FS.node) (cwd : list string) (target_dir : string) (names : list string) :
  FS.wf fs0 = true ->
  FS.listdir fs0 cwd target_dir = Ok names ->
  exists direct below,
    scan_flat fs0 cwd target_dir = Ok direct
    /\ Forall2 (fun name found =>
                  scan_recursive fs0 cwd (posixpath.join target_dir name) = Ok found)
               names below
    /\ scan_recursive fs0 cwd target_dir = Ok (direct ++ List.concat below)%list.
Proof.
  intros Hwf Hlist. unfold FS.listdir in Hlist.
  destruct (FS.has_nul target_dir) eqn:Hnul; [discriminate |].
  destruct (FS.stat fs0 cwd target_dir) as [[| [|] w es] |] eqn:Hs; try discriminate.
  injection Hlist as <-.
  destruct (stat_locate _ _ _ _ Hs) as (d & Hloc & Hlook).
  exists (triple_candidates (target_dir, FS.dirnames es, FS.filenames es)),
         (map (fun e => tree_candidates (posixpath.join target_dir (fst e)) (snd e)) es).
  split; [apply (scan_flat_entries fs0 cwd target_dir d w es Hwf Hloc Hlook) |].
  split.
  - assert (H : forall l, incl l es ->
                Forall2 (fun name found =>
                           scan_recursive fs0 cwd (posixpath.join target_dir name) = Ok found)
                        (map fst l)
                        (map (fun e => tree_candidates (posixpath.join target_dir (fst e))
                                                       (snd e)) l)).
    { induction l as [| e l IH]; intros Hincl; cbn [map]; constructor.
      - pose proof (isfile_entry fs0 cwd target_dir d w es e Hwf Hloc Hlook
                                 (Hincl e (or_introl eq_refl))) as Hst.
        rewrite scan_recursive_triples, (stat_no_nul _ _ _ _ Hst), Hst. reflexivity.
      - apply IH. intros x Hx. apply Hincl. now right. }
    apply H, incl_refl.
  - rewrite scan_recursive_triples, Hnul, Hs. f_equal.
    unfold tree_candidates at 1. cbn [FS.walk_tree flat_map]. f_equal.
    rewrite flat_map_flat_map, <- flat_map_concat_map.
    apply flat_map_ext. intros [name sub]. reflexivity.
Qed.

Lemma last_app_nonempty {A : Type} (l1 l2 : list A) (x : A) :
  l2 <> [] -> last (l1 ++ l2) x = last l2 x.
Proof.
  intros Hne. induction l1 as [| a l1 IH]; [reflexivity |].
  cbn [app]. destruct (l1 ++ l2)%list eqn:E.
  - apply app_eq_nil in E as [_ ->]. congruence.
  - cbn [last]. exact IH.
Qed.

(** X20.  No file within reach is skipped.  In recursive mode every
    regular file below the target directory that is reached through
    directories that can be listed, and in either mode every regular
    file directly in a target directory that can be listed, whose name
    does not end with .sha256 is a candidate: the list holds a path that
    leads to it and ends with its name. *)
Theorem sidecar_candidates_complete
        (fs0 : FS.node) (cwd : list string) (a : args) (d p : list string)
        (root : FS.node) (r w : bool) (content : list byte) :
  FS.wf fs0 = true ->
  FS.locate fs0 cwd (directory a) = Some d ->
  FS.lookup fs0 d = Some root ->
  p <> [] ->
  FS.lookup root p = Some (FS.File r w content) ->
  recursive a = true \/ List.length p = 1 ->
  Str.endswith (last p "") ".sha256" = false ->
  exists f,
    In f (candidates fs0 cwd a)
    /\ FS.locate fs0 cwd f = Some (d ++ p)%list
    /\ posixpath.basename f = last p "".
Proof.
  intros Hwf Hloc Hlook Hpne Hp Hmode Hns.
  pose proof (wf_lookup _ _ _ Hwf Hlook) as Hwfn.
  assert (Hroot : exists dw es, root = FS.Dir true dw es).
  { destruct p as [| c p]; [congruence |].
    destruct root as [| [|] dw es]; try discriminate Hp. eauto. }
  destruct Hroot as (dw & es & ->).
  unfold candidates, scan. destruct (recursive a) eqn:Hrec.
  - rewrite scan_recursive_visits, (locate_nul _ _ _ _ Hloc). unfold FS.stat.
    rewrite Hloc, Hlook.
    assert (Hin : In (p, FS.File r w content) (FS.files_under (FS.Dir true dw es)))
      by now apply lookup_files_under.
    pose proof (visits_located fs0 cwd _ (directory a) d Hwfn Hloc Hlook) as Hmap.
    assert (Hsome : In (Some (d ++ p)%list)
                       (map (fun pf => Some (d ++ fst pf)%list)
                            (FS.files_under (FS.Dir true dw es)))).
    { apply in_map_iff. exists (p, FS.File r w content). split; [reflexivity | exact Hin]. }
    rewrite <- Hmap in Hsome. apply in_map_iff in Hsome as ([base name] & Hl & Hbn).
    cbn [fst snd] in Hl.
    pose proof (visits_placed fs0 cwd _ (directory a) d Hwfn Hloc Hlook) as F.
    rewrite Forall_forall in F. destruct (F _ Hbn) as (Hok & d' & Hd' & Hdir').
    cbn [fst snd] in Hok, Hd'.
    apply dir_at_lookup in Hdir' as (w' & es' & Hl').
    rewrite (locate_join _ _ _ _ _ _ _ Hok Hd' Hl') in Hl. injection Hl as Hl.
    assert (Hname : last p "" = name).
    { rewrite <- (last_app_nonempty d p "" Hpne), <- Hl. apply last_last. }
    exists (posixpath.join base name). split; [| split].
    + apply in_map_iff. exists (base, name). split; [reflexivity |].
      apply filter_In. split; [exact Hbn |]. cbn [snd]. unfold not_sidecar.
      now rewrite <- Hname, Hns.
    + rewrite (locate_join _ _ _ _ _ _ _ Hok Hd' Hl'). now rewrite Hl.
    + rewrite Hname. now apply basename_join.
  - destruct Hmode as [Hmode | Hlen]; [discriminate Hmode |].
    destruct p as [| name [| ? ?]]; try discriminate Hlen. cbn [last] in *.
    rewrite (scan_flat_entries fs0 cwd (directory a) d dw es Hwf Hloc Hlook).
    cbn [FS.lookup] in Hp.
    destruct (FS.find_entry name es) as [x |] eqn:E; [| discriminate Hp].
    injection Hp as ->. apply find_entry_In in E.
    destruct (wf_dir_inv _ _ _ Hwfn) as (Hnames & _ & _). rewrite Forall_forall in Hnames.
    pose proof (Hnames _ E) as Hok. cbn [fst] in Hok.
    exists (posixpath.join (directory a) name). split; [| split].
    + cbn [triple_candidates]. apply in_map. apply filter_In. split.
      * unfold FS.filenames. apply in_map_iff. exists (name, FS.File r w content).
        split; [reflexivity |]. apply filter_In. split; [exact E | reflexivity].
      * now rewrite Hns.
    + apply (locate_join _ _ _ _ _ _ _ Hok Hloc Hlook).
    + now apply basename_join.
Qed.

(** X21.  Nothing else is a candidate: every path of the list leads to
    a regular file below the target directory (directly in it, in
    non-recursive mode), and no two paths of the list lead to the same
    file. *)
Theorem sidecar_candidates_are_files
        (fs0 : FS.node) (cwd : list string) (a : args) (d : list string) (root : FS.node) :
  FS.wf fs0 = true ->
  FS.locate fs0 cwd (directory a) = Some d ->
  FS.lookup fs0 d = Some root ->
  FS.is_dir root = true ->
  Forall (fun f => exists p r w content,
              FS.locate fs0 cwd f = Some (d ++ p)%list
              /\ FS.lookup root p = Some (FS.File r w content)
              /\ FS.stat fs0 cwd f = Some (FS.File r w content)
              /\ (recursive a = false -> List.length p = 1))
         (candidates fs0 cwd a)
  /\ NoDup (map (FS.locate fs0 cwd) (candidates fs0 cwd a)).
Proof.
  intros Hwf Hloc Hlook Hdir.
  split; [| apply (candidates_placed fs0 cwd a Hwf)].
  pose proof (wf_lookup _ _ _ Hwf Hlook) as Hwfn.
  rewrite Forall_forall. intros f Hf. unfold candidates, scan in Hf.
  destruct (recursive a) eqn:Hrec.
  - rewrite scan_recursive_visits, (locate_nul _ _ _ _ Hloc) in Hf.
    unfold FS.stat in Hf. rewrite Hloc, Hlook in Hf.
    apply in_map_iff in Hf as ([base name] & <- & Hbn). apply filter_In in Hbn as [Hbn _].
    pose proof (visits_located fs0 cwd root (directory a) d Hwfn Hloc Hlook) as Hmap.
    assert (Hsome : In (FS.locate fs0 cwd (posixpath.join base name))
                       (map (fun pf => Some (d ++ fst pf)%list) (FS.files_under root))).
    { rewrite <- Hmap. apply in_map_iff. exists (base, name). now split. }
    apply in_map_iff in Hsome as ([p x] & Hl & Hin). cbn [fst] in Hl.
    apply files_under_lookup in Hin as (_ & Hx & Hnd); [| exact Hwfn].
    destruct x as [r w content | ? ? ?]; [| discriminate Hnd].
    exists p, r, w, content. cbn [fst snd]. repeat split.
    + now symmetry.
    + exact Hx.
    + unfold FS.stat. rewrite <- Hl, lookup_app, Hlook. exact Hx.
    + discriminate.
  - destruct root as [| [|] dw es]; [discriminate Hdir | |].
    2:{ unfold scan_flat, FS.listdir, FS.stat in Hf.
        rewrite (locate_nul _ _ _ _ Hloc), Hloc, Hlook in Hf. destruct Hf. }
    rewrite (scan_flat_entries fs0 cwd (directory a) d dw es Hwf Hloc Hlook) in Hf.
    cbn [triple_candidates] in Hf. apply in_map_iff in Hf as (name & <- & Hn).
    apply filter_In in Hn as [Hn _]. unfold FS.filenames in Hn.
    apply in_map_iff in Hn as ([name' x] & <- & He). cbn [fst].
    apply filter_In in He as [He Hx]. cbn [snd] in Hx.
    destruct x as [r w content | ? ? ?]; [| discriminate Hx].
    destruct (wf_dir_inv _ _ _ Hwfn) as (Hnames & Hdist & _). rewrite Forall_forall in Hnames.
    pose proof (Hnames _ He) as Hok. cbn [fst] in Hok.
    exists [name'], r, w, content. repeat split.
    + apply (locate_join _ _ _ _ _ _ _ Hok Hloc Hlook).
    + cbn [FS.lookup]. now rewrite (In_find_entry _ _ _ Hdist He).
    + apply (isfile_entry fs0 cwd (directory a) d dw es _ Hwf Hloc Hlook He).
Qed.
End CandidateList.

(** ** generate_manifest.py: the keys of the manifest *)

Section ManifestKeys.
Local Open Scope string_scope.
Import generate_manifest.

(** X23.  When every member that is no directory can be read and the
    manifest can be created, its keys are pairwise distinct, also when
    member names repeat; none holds a backslash; and the keys are
    exactly the names, backslashes replaced by slashes, of the members
    that are no directories. *)
Theorem manifest_keys_distinct (zip_path : string) (zf : list zip_info) :
  (forall info, In info zf -> is_dir info = false -> exists c, payload info = Ok c) ->
  exists manifest_data,
    files_written (generate_manifest zip_path (Archive zf))
    = [(posixpath.splitext_root zip_path ++ ".json", json.dumps true true manifest_data)]
    /\ NoDup (Dict.keys manifest_data)
    /\ Forall (fun k => Str.contains Str.backslash k = false) (Dict.keys manifest_data)
    /\ (forall k, In k (Dict.keys manifest_data)
                  <-> exists info, In info zf /\ is_dir info = false
                                   /\ normalized (filename info) = k).
Proof.
  intros Hok.
  assert (Hread : forall n, In n (Str.sorted (file_names zf)) ->
                            exists c, read_member zf n = Ok c).
  { intros n Hn. apply (read_member_file zf n Hok).
    now apply (Permutation_in _ (sorted_is_Permutation (file_names zf))). }
  exists (assign_all (map (member_entry zf) (Str.sorted (file_names zf))) []).
  assert (Hkeys : forall k,
             In k (Dict.keys (assign_all (map (member_entry zf) (Str.sorted (file_names zf))) []))
             <-> exists n, In n (Str.sorted (file_names zf)) /\ normalized n = k).
  { intros k. split.
    - intros Hk. apply assign_all_keys_inv in Hk as [[] | Hk].
      rewrite map_map in Hk. apply in_map_iff in Hk as (n & <- & Hn). now exists n.
    - intros (n & Hn & <-). apply assign_all_keys. right.
      rewrite map_map. apply in_map_iff. now exists n. }
  split; [| split; [| split]].
  - cbn [generate_manifest archive_of]. fold (file_names zf).
    now rewrite (hash_members_all zf _ Hread).
  - apply assign_all_NoDup. constructor.
  - rewrite Forall_forall. intros k Hk. apply Hkeys in Hk as (n & _ & <-).
    apply contains_replace. discriminate.
  - intros k. rewrite Hkeys. split.
    + intros (n & Hn & <-). apply file_names_In in Hn as (info & Hin & Hd & <-). now exists info.
    + intros (info & Hin & Hd & <-). exists (filename info). split; [| reflexivity].
      apply file_names_In. now exists info.
Qed.
End ManifestKeys.

(** ** The order of the mapping, and what a run never does *)

Section OrderAndFrame.
Local Open Scope string_scope.
Import generate_sha256.

(** X24.  When every file that the walk reaches can be read and no
    two of them share a key, the mapping lists one entry for each of
    them in the order of the walk: the files of a directory in listing
    order, then the files of each of its subdirectories that can be
    listed, in listing order, in the same way. *)
Theorem gen_sha256_walk_order (fs0 : FS.node) (cwd : list string) (directory : string) :
  FS.wf fs0 = true ->
  FS.has_nul (posixpath.abspath cwd directory) = false ->
  forallb readable (files_below fs0 cwd directory) = true ->
  NoDup (map key_of (map fst (files_below fs0 cwd directory))) ->
  gen_sha256.generate_sha256_map fs0 cwd directory
  = Ok (map digest_entry (files_below fs0 cwd directory)).
Proof.
  intros Hwf Hnul Hread Hnd. rewrite (generate_sha256_map_cases _ _ _ Hwf), Hnul, Hread.
  rewrite (assign_all_fresh _ []); [reflexivity |].
  cbn [Dict.keys map app]. rewrite map_map.
  rewrite map_map in Hnd. exact Hnd.
Qed.

(** X26.  DirectoryDigestMapper exits with status 0 exactly when the
    root path holds no NUL character, every regular file that the walk
    reaches can be read, and sha256.json can be opened in the working
    directory and the text of the mapping encoded; it has then printed
    the JSON text of the mapping and saved the same text as
    sha256.json. *)
Theorem gen_sha256_exit_status
        (fs0 : FS.node) (cwd : list string) (prog directory : string) (more : list string) :
  FS.wf fs0 = true ->
  (exit_code (gen_sha256.main fs0 cwd (prog :: directory :: more)) = 0
   <-> FS.has_nul (posixpath.abspath cwd directory) = false
       /\ forallb readable (files_below fs0 cwd directory) = true
       /\ exists fs1,
           FS.write_text fs0 cwd "sha256.json"
             (json.dumps false false
                (assign_all (map digest_entry (files_below fs0 cwd directory)) []))
           = FS.Written fs1)
  /\ (exit_code (gen_sha256.main fs0 cwd (prog :: directory :: more)) = 0 ->
      exists m,
        gen_sha256.generate_sha256_map fs0 cwd directory = Ok m
        /\ gen_sha256.main fs0 cwd (prog :: directory :: more)
           = Outcome [Text (json.dumps false false m); Text gen_sha256.saved] []
                     [("sha256.json", json.dumps false false m)] 0).
Proof.
  intros Hwf. unfold gen_sha256.main. rewrite (generate_sha256_map_cases _ _ _ Hwf).
  destruct (FS.has_nul (posixpath.abspath cwd directory)).
  { cbn [exit_code]. split; [split; [discriminate | intros (H & _); discriminate H] |].
    discriminate. }
  destruct (forallb readable (files_below fs0 cwd directory)).
  2:{ cbn [exit_code]. split; [split; [discriminate | intros (_ & H & _); discriminate H] |].
      discriminate. }
  destruct (FS.write_text fs0 cwd "sha256.json" _) as [e | x e | x] eqn:E; cbn [exit_code].
  - split; [split; [discriminate | intros (_ & _ & fs1 & H); discriminate H] | discriminate].
  - split; [split; [discriminate | intros (_ & _ & fs1 & H); discriminate H] | discriminate].
  - split; [split; [intros _; repeat split; now exists x | reflexivity] |].
    intros _. eexists. split; reflexivity.
Qed.

(** What the task of a candidate, run alone, leaves at its sidecar
    path: what was there, or a writable file when the sidecar was
    opened. *)
Lemma solo_view (fs0 : FS.node) (cwd : list string) (f : string) (q : list string) :
  FS.locate fs0 cwd (f ++ ".sha256") = Some q ->
  view_at (fs (fst (solo fs0 cwd f))) q = view_at fs0 q
  \/ (dir_at fs0 q = None
      /\ (succeeds fs0 cwd f = true \/ raises fs0 cwd f = true)
      /\ exists r c, view_at (fs (fst (solo fs0 cwd f))) q = VFile r true c).
Proof.
  intros Hq. unfold solo, succeeds, raises. rewrite hash_and_write_cases. cbn [fs].
  destruct (FS.open_rb fs0 cwd f) as [c | e]; [| destruct e; now left].
  rewrite (write_text_put _ _ _ _ _ Hq).
  destruct (Str.well_formed _).
  - destruct (FS.put fs0 q (bytes_of _)) as [fs1 |] eqn:E; [| now left].
    right. cbn [fst fs]. split; [| split; [now left | eauto using put_view]].
    apply can_put_not_dir. rewrite <- (put_can_put q fs0 (bytes_of
      (sidecar_text (SHA256.hexdigest c) f))). now rewrite E.
  - destruct (FS.put fs0 q []) as [fs1 |] eqn:E; [| now left].
    right. cbn [fst fs]. split; [| split; [now right | eauto using put_view]].
    apply can_put_not_dir. rewrite <- (put_can_put q fs0 []). now rewrite E.
Qed.

(** X25.  A run deletes nothing and creates nothing but sidecars,
    however it ends and whatever the schedule of the pool: directories
    stay what they were, a path that named a regular file still names
    one, and a path that named nothing and names a file afterwards is
    the sidecar path of a candidate that was read and whose sidecar was
    opened: it was written, or the name of the candidate is no text and
    the sidecar is empty. *)
Theorem sidecar_never_deletes
        (sched : list string -> list event) (fs0 : FS.node) (cwd : list string) (a : args)
        (q : list string) :
  FS.wf fs0 = true ->
  (forall l, schedule_of l (sched l)) ->
  dir_at (fs (final (main sched fs0 cwd a))) q = dir_at fs0 q
  /\ (forall r w c, view_at fs0 q = VFile r w c ->
                    exists r' w' c', view_at (fs (final (main sched fs0 cwd a))) q
                                     = VFile r' w' c')
  /\ (view_at fs0 q = VNone ->
      view_at (fs (final (main sched fs0 cwd a))) q <> VNone ->
      exists f, In f (candidates fs0 cwd a)
                /\ FS.locate fs0 cwd (f ++ ".sha256") = Some q
                /\ (succeeds fs0 cwd f = true
                    \/ raises fs0 cwd f = true
                       /\ view_at (fs (final (main sched fs0 cwd a))) q
                          = VFile true true [])).
Proof.
  intros Hwf Hsched. destruct (main_views sched fs0 cwd a Hwf Hsched) as [Hdirs Hviews].
  split; [apply Hdirs |].
  destruct (Hviews q) as [E | (f & Hf & Hq & E)]; rewrite E.
  { split; [intros; eauto | intros H1 H2; congruence]. }
  destruct (solo_view fs0 cwd f q Hq) as [E' | (Hnd & Hor & r & c & E')]; rewrite E'.
  { split; [intros; eauto | intros H1 H2; congruence]. }
  split; [intros; eauto |]. intros Hnone _. exists f. split; [exact Hf |].
  split; [exact Hq |]. destruct Hor as [Hs | Hr]; [now left | right].
  split; [exact Hr |]. rewrite <- E'. clear E' E.
  unfold raises in Hr. unfold solo. rewrite hash_and_write_cases. cbn [fs].
  destruct (FS.open_rb fs0 cwd f) as [c0 | e]; [| discriminate Hr].
  rewrite (write_text_put _ _ _ _ _ Hq) in Hr |- *.
  destruct (Str.well_formed _).
  - destruct (FS.put fs0 q (bytes_of _)); discriminate Hr.
  - destruct (FS.put fs0 q []) as [fs1 |] eqn:Ep; [| discriminate Hr].
    cbn [fst fs]. rewrite (put_view _ _ _ _ Ep), Hnone. reflexivity.
Qed.
End OrderAndFrame.

(** ** The further properties on small inputs *)

Section SmallInputs.
Local Open Scope string_scope.
Import generate_manifest generate_sha256.

Lemma gen_sha256_entries_are_files_witness :
  exists root p w content,
    FS.stat demo_fs [] (posixpath.abspath [] "/proj") = Some root
    /\ p <> []
    /\ FS.lookup root p = Some (FS.File true w content)
    /\ "sub/b.txt" = key_of p
    /\ "486ea46224d1bb4fb680f34f7c9ad96a8f24ec88be73ea8e5a6c65260e9cb8a7"
       = SHA256.hexdigest content.
Proof.
  apply (gen_sha256_entries_are_files
           demo_fs [] "/proj"
           [("a.txt", "2cf24dba5fb0a30e26e83b2ac5b9e29e1b161e5c1fa7425e73043362938b9824");
            ("sub/b.txt", "486ea46224d1bb4fb680f34f7c9ad96a8f24ec88be73ea8e5a6c65260e9cb8a7")]).
  - reflexivity.
  - vm_compute. reflexivity.
  - reflexivity.
Defined.

Lemma gen_sha256_keys_witness :
  NoDup (Dict.keys
           [("a.txt", "2cf24dba5fb0a30e26e83b2ac5b9e29e1b161e5c1fa7425e73043362938b9824");
            ("sub/b.txt", "486ea46224d1bb4fb680f34f7c9ad96a8f24ec88be73ea8e5a6c65260e9cb8a7")])
  /\ Forall (fun k => Str.contains Str.backslash k = false)
            (Dict.keys
               [("a.txt", "2cf24dba5fb0a30e26e83b2ac5b9e29e1b161e5c1fa7425e73043362938b9824");
                ("sub/b.txt",
                 "486ea46224d1bb4fb680f34f7c9ad96a8f24ec88be73ea8e5a6c65260e9cb8a7")])
  /\ List.length
       [("a.txt", "2cf24dba5fb0a30e26e83b2ac5b9e29e1b161e5c1fa7425e73043362938b9824");
        ("sub/b.txt", "486ea46224d1bb4fb680f34f7c9ad96a8f24ec88be73ea8e5a6c65260e9cb8a7")]
     <= List.length (files_below demo_fs [] "/proj").
Proof.
  apply (gen_sha256_keys demo_fs [] "/proj").
  - reflexivity.
  - vm_compute. reflexivity.
Defined.

Lemma gen_sha256_root_is_a_file_witness :
  gen_sha256.generate_sha256_map demo_fs [] "/proj/a.txt" = Ok []
  /\ gen_sha256.main demo_fs [] ["gen_sha256.py"; "/proj/a.txt"]
     = Outcome [Text "{}"; Text gen_sha256.saved] [] [("sha256.json", "{}")] 0.
Proof.
  apply (gen_sha256_root_is_a_file
           demo_fs
           (FS.Dir true true [("proj", demo_root);
                              ("sha256.json", FS.File true true (bytes_of "{}"))])
           [] "gen_sha256.py" "/proj/a.txt" [] true true (bytes_of "hello")).
  - reflexivity.
  - reflexivity.
Defined.

Lemma gen_sha256_only_the_subtree_witness :
  gen_sha256.generate_sha256_map demo_fs [] "/proj"
  = gen_sha256.generate_sha256_map demo_fs ["proj"] "."
  /\ hd_error (stdout (gen_sha256.main demo_fs [] ["gen_sha256.py"; "/proj"]))
     = hd_error (stdout (gen_sha256.main demo_fs ["proj"] ["gen_sha256.py"; "."])).
Proof.
  apply (gen_sha256_only_the_subtree demo_fs demo_fs [] ["proj"] "gen_sha256.py" "gen_sha256.py"
                                     "/proj" "." [] [] demo_root); reflexivity.
Defined.

Lemma gen_sha256_trailing_slash_witness :
  gen_sha256.generate_sha256_map demo_fs [] "proj/"
  = gen_sha256.generate_sha256_map demo_fs [] "proj".
Proof.
  apply (gen_sha256_trailing_slash demo_fs [] "proj").
  - discriminate.
  - reflexivity.
Defined.

Lemma dumps_one_line_per_entry_witness :
  count_char newline_char
             (json.dumps false false [("a" ++ Str.newline ++ "b", "1"); ("c", "2")]) = 3
  /\ all_chars (fun c => Ascii.eqb c newline_char || from_space c)
               (json.dumps false false [("a" ++ Str.newline ++ "b", "1"); ("c", "2")]) = true.
Proof.
  apply (dumps_one_line_per_entry false false [("a" ++ Str.newline ++ "b", "1"); ("c", "2")]).
  discriminate.
Defined.

Lemma dumps_sorted_any_insertion_order_witness :
  json.dumps true true [("a", "1"); ("b", "2")] = json.dumps true true [("b", "2"); ("a", "1")].
Proof.
  apply (dumps_sorted_any_insertion_order true [("a", "1"); ("b", "2")] [("b", "2"); ("a", "1")]).
  - repeat constructor; cbn; intuition discriminate.
  - apply perm_swap.
Defined.

Lemma mixed_zip_readable (info : zip_info) :
  In info mixed_zip -> is_dir info = false -> exists c, payload info = Ok c.
Proof. intros [<- | [<- | [<- | [<- | [<- | []]]]]] _; eexists; reflexivity. Qed.

Lemma manifest_progress_lines_witness :
  stdout (generate_manifest "/assets/mixed.zip" (Archive mixed_zip))
  = (Text (msg_generating "/assets/mixed.zip")
       :: map (fun n => Text (msg_hashed (normalized n))) (Str.sorted (file_names mixed_zip))
       ++ [Text (msg_success (posixpath.splitext_root "/assets/mixed.zip" ++ ".json"))])%list
  /\ generate_manifest "/assets/mixed.zip" (Sealed mixed_zip)
     = Outcome (Text (msg_generating "/assets/mixed.zip")
                  :: map (fun n => Text (msg_hashed (normalized n)))
                         (Str.sorted (file_names mixed_zip)))
               [TextExn msg_unknown OSError] [] 1
  /\ Sorted str_le (Str.sorted (file_names mixed_zip))
  /\ Permutation (Str.sorted (file_names mixed_zip)) (file_names mixed_zip).
Proof.
  apply (manifest_progress_lines "/assets/mixed.zip" mixed_zip). apply mixed_zip_readable.
Defined.

Example manifest_mixed_lines :
  stdout (generate_manifest "/assets/mixed.zip" (Archive mixed_zip))
  = [Text (msg_generating "/assets/mixed.zip");
     Text (msg_hashed "a/c.txt"); Text (msg_hashed "a/c.txt");
     Text (msg_hashed "b.txt"); Text (msg_hashed "b.txt");
     Text (msg_success "/assets/mixed.json")].
Proof. vm_compute. reflexivity. Qed.

Lemma manifest_stops_at_unreadable_member_witness :
  generate_manifest "a.zip" (Archive damaged_zip)
  = Outcome (Text (msg_generating "a.zip")
               :: map (fun n => Text (msg_hashed (normalized n))) ["a"])
            [Text (msg_bad_zip "a.zip")] [] 1.
Proof.
  apply (manifest_stops_at_unreadable_member "a.zip" damaged_zip ["a"] [] "b" BadZipFile).
  - reflexivity.
  - intros n [<- | []]. eexists. reflexivity.
  - reflexivity.
Defined.

Lemma manifest_keys_distinct_witness :
  exists manifest_data,
    files_written (generate_manifest "/assets/mixed.zip" (Archive mixed_zip))
    = [(posixpath.splitext_root "/assets/mixed.zip" ++ ".json",
        json.dumps true true manifest_data)]
    /\ NoDup (Dict.keys manifest_data)
    /\ Forall (fun k => Str.contains Str.backslash k = false) (Dict.keys manifest_data)
    /\ (forall k, In k (Dict.keys manifest_data)
                  <-> exists info, In info mixed_zip /\ is_dir info = false
                                   /\ normalized (filename info) = k).
Proof.
  apply (manifest_keys_distinct "/assets/mixed.zip" mixed_zip). apply mixed_zip_readable.
Defined.

Lemma manifest_replaces_extension_witness :
  "/assets/docs.json" = "/assets/" ++ "docs" ++ ".json".
Proof.
  apply (manifest_replaces_extension
           "/assets/" "docs" "zip" (Archive docs_zip) "/assets/docs.json"
           (json.dumps true true
              [("LICENSE",
                "a1fce4363854ff888cff4b8e7875d600c2682390412a8cf79b37d0b11148b0fa");
               ("docs/readme.txt",
                "2d711642b726b04401627ca9fbac32f5c8530fb1903cc4db02258717921a4881")])).
  - right. reflexivity.
  - reflexivity.
  - reflexivity.
  - reflexivity.
  - reflexivity.
  - left. vm_compute. reflexivity.
Defined.

Lemma manifest_appends_extension_witness :
  "/assets/archive.json" = "/assets/archive" ++ ".json".
Proof.
  apply (manifest_appends_extension
           "/assets/archive" (Archive docs_zip) "/assets/archive.json"
           (json.dumps true true
              [("LICENSE",
                "a1fce4363854ff888cff4b8e7875d600c2682390412a8cf79b37d0b11148b0fa");
               ("docs/readme.txt",
                "2d711642b726b04401627ca9fbac32f5c8530fb1903cc4db02258717921a4881")])).
  - reflexivity.
  - left. vm_compute. reflexivity.
Defined.

(** A run that ends with status 1 because a task raises, and one that
    ends with status 0. *)
Lemma sidecar_exit_status_witness :
  status (main in_order raw_fs [] (Args "d" false 4))
  = (if FS.isdir raw_fs [] (directory (Args "d" false 4))
        && scan_ok raw_fs [] (Args "d" false 4)
        && match candidates raw_fs [] (Args "d" false 4) with
           | [] => true
           | _ :: _ => (0 <? workers (Args "d" false 4))%Z
                       && forallb (fun f => negb (raises raw_fs [] f))
                                  (candidates raw_fs [] (Args "d" false 4))
           end
     then 0 else 1)
  /\ forallb (fun f => negb (raises raw_fs [] f)) (candidates raw_fs [] (Args "d" false 4))
     = false.
Proof.
  split.
  - apply (sidecar_exit_status in_order raw_fs [] (Args "d" false 4)).
    + reflexivity.
    + apply in_order_schedule.
  - vm_compute. reflexivity.
Defined.

Example sidecar_error_streams_scenario :
  err (final (main eager errors_fs [] (Args "d" false 2)))
  = [TextExn (msg_unreadable "d/c.bin") OSError; TextExn (msg_unreadable "d/a.bin") OSError]
  /\ out (final (main eager errors_fs [] (Args "d" false 2)))
     = [Text (msg_scan "d"); Text (msg_found 4 2);
        Text (msg_processing "d/a.bin"); Text (msg_processing "d/b.bin");
        Text (msg_processing "d/c.bin"); Text (msg_processing "d/e.bin");
        Text (msg_done "d/e.bin.sha256");
        TextExn (msg_unwritable "d/b.bin.sha256") OSError;
        Text msg_all_done].
Proof. split; vm_compute; reflexivity. Qed.

Lemma sidecar_error_streams_witness :
  err (final (main eager errors_fs [] (Args "d" false 2)))
  = flat_map (fun f => match FS.open_rb errors_fs [] f with
                       | Ok _ => []
                       | Raise e => [TextExn (msg_unreadable f) e]
                       end)
             (works (eager (candidates errors_fs [] (Args "d" false 2))))
  /\ forall f content,
      In f (candidates errors_fs [] (Args "d" false 2)) ->
      FS.open_rb errors_fs [] f = Ok content ->
      FS.write_text errors_fs [] (f ++ ".sha256")
                    (sidecar_text (SHA256.hexdigest content) f)
      = FS.NotOpened OSError ->
      In (TextExn (msg_unwritable (f ++ ".sha256")) OSError)
         (out (final (main eager errors_fs [] (Args "d" false 2)))).
Proof.
  apply (sidecar_error_streams eager errors_fs [] (Args "d" false 2)).
  - reflexivity.
  - apply eager_schedule.
  - vm_compute. reflexivity.
Defined.

Lemma sidecar_recursive_extends_flat_witness :
  exists direct below,
    scan_flat side_fs [] "d" = Ok direct
    /\ Forall2 (fun name found =>
                  scan_recursive side_fs [] (posixpath.join "d" name) = Ok found)
               ["f.bin"; "g.bin"; "h.bin"; "h.bin.sha256"; "old.sha256"; "sub"; "locked"]
               below
    /\ scan_recursive side_fs [] "d" = Ok (direct ++ List.concat below)%list.
Proof.
  apply (sidecar_recursive_extends_flat
           side_fs [] "d"
           ["f.bin"; "g.bin"; "h.bin"; "h.bin.sha256"; "old.sha256"; "sub"; "locked"]);
    reflexivity.
Defined.

Example sidecar_recursive_scan :
  scan_flat side_fs [] "d" = Ok ["d/f.bin"; "d/g.bin"; "d/h.bin"]
  /\ scan_recursive side_fs [] "d" = Ok ["d/f.bin"; "d/g.bin"; "d/h.bin"; "d/sub/k.bin"]
  /\ scan_recursive side_fs [] "d/locked" = Ok []
  /\ scan_flat side_fs [] "d/locked" = Raise OSError.
Proof. repeat split; vm_compute; reflexivity. Qed.

Lemma sidecar_candidates_complete_witness :
  exists f,
    In f (candidates side_fs [] side_args)
    /\ FS.locate side_fs [] f = Some (["d"] ++ ["sub"; "k.bin"])%list
    /\ posixpath.basename f = last ["sub"; "k.bin"] "".
Proof.
  apply (sidecar_candidates_complete
           side_fs [] side_args ["d"] ["sub"; "k.bin"] side_dir true true (bytes_of "x")).
  - reflexivity.
  - reflexivity.
  - reflexivity.
  - discriminate.
  - reflexivity.
  - left. reflexivity.
  - reflexivity.
Defined.

Lemma sidecar_candidates_are_files_witness :
  Forall (fun f => exists p r w content,
              FS.locate side_fs [] f = Some (["d"] ++ p)%list
              /\ FS.lookup side_dir p = Some (FS.File r w content)
              /\ FS.stat side_fs [] f = Some (FS.File r w content)
              /\ (recursive side_args = false -> List.length p = 1))
         (candidates side_fs [] side_args)
  /\ NoDup (map (FS.locate side_fs []) (candidates side_fs [] side_args)).
Proof.
  apply (sidecar_candidates_are_files side_fs [] side_args ["d"]); reflexivity.
Defined.

Lemma gen_sha256_walk_order_witness :
  gen_sha256.generate_sha256_map demo_fs [] "/proj"
  = Ok (map digest_entry (files_below demo_fs [] "/proj")).
Proof.
  apply (gen_sha256_walk_order demo_fs [] "/proj").
  - reflexivity.
  - reflexivity.
  - reflexivity.
  - vm_compute. repeat constructor; cbn; intuition discriminate.
Defined.

Lemma gen_sha256_exit_status_witness :
  (exit_code (gen_sha256.main demo_fs [] ["gen_sha256.py"; "/proj"]) = 0
   <-> FS.has_nul (posixpath.abspath [] "/proj") = false
       /\ forallb readable (files_below demo_fs [] "/proj") = true
       /\ exists fs1,
           FS.write_text demo_fs [] "sha256.json"
             (json.dumps false false
                (assign_all (map digest_entry (files_below demo_fs [] "/proj")) []))
           = FS.Written fs1)
  /\ (exit_code (gen_sha256.main demo_fs [] ["gen_sha256.py"; "/proj"]) = 0 ->
      exists m,
        gen_sha256.generate_sha256_map demo_fs [] "/proj" = Ok m
        /\ gen_sha256.main demo_fs [] ["gen_sha256.py"; "/proj"]
           = Outcome [Text (json.dumps false false m); Text gen_sha256.saved] []
                     [("sha256.json", json.dumps false false m)] 0).
Proof.
  apply (gen_sha256_exit_status demo_fs [] "gen_sha256.py" "/proj" []).
  reflexivity.
Defined.

Example gen_sha256_exit_status_scenario :
  exit_code (gen_sha256.main demo_fs [] ["gen_sha256.py"; "/proj"]) = 0
  /\ exit_code (gen_sha256.main readonly_fs [] ["gen_sha256.py"; "/"]) = 1
  /\ exit_code (gen_sha256.main locked_fs [] ["gen_sha256.py"; "/proj"]) = 1.
Proof. repeat split; vm_compute; reflexivity. Qed.

Lemma sidecar_never_deletes_witness :
  dir_at (fs (final (main eager side_fs [] side_args))) ["d"; "f.bin.sha256"]
  = dir_at side_fs ["d"; "f.bin.sha256"]
  /\ (forall r w c, view_at side_fs ["d"; "f.bin.sha256"] = VFile r w c ->
                    exists r' w' c',
                      view_at (fs (final (main eager side_fs [] side_args)))
                              ["d"; "f.bin.sha256"]
                      = VFile r' w' c')
  /\ (view_at side_fs ["d"; "f.bin.sha256"] = VNone ->
      view_at (fs (final (main eager side_fs [] side_args))) ["d"; "f.bin.sha256"]
      <> VNone ->
      exists f, In f (candidates side_fs [] side_args)
                /\ FS.locate side_fs [] (f ++ ".sha256") = Some ["d"; "f.bin.sha256"]
                /\ (succeeds side_fs [] f = true
                    \/ raises side_fs [] f = true
                       /\ view_at (fs (final (main eager side_fs [] side_args)))
                                  ["d"; "f.bin.sha256"]
                          = VFile true true [])).
Proof.
  apply (sidecar_never_deletes eager side_fs [] side_args ["d"; "f.bin.sha256"]).
  - reflexivity.
  - apply eager_schedule.
Defined.
End SmallInputs.
